(** * gaussian-splatting-lightning: camera model, appearance renderer,
      training step and COLMAP split, embedded in Rocq.

    Tensors of floating-point numbers are modelled over the real numbers
    (exact arithmetic); Python integers are [Z]; a tensor's leading (batch)
    dimension is a list.  Operations of the tensor library that raise on
    incompatible shapes return an error here. *)

From Stdlib Require Import Reals Lra Lia ZArith List Bool.
From stdpp Require Import base gmap strings pretty.
Import ListNotations.

(* ===================================================================== *)
(** ** Errors raised by the tensor library and by Python *)
(* ===================================================================== *)

Inductive error : Type :=
  | ShapeMismatch      (* RuntimeError: sizes of tensors must match *)
  | SingularMatrix     (* torch.linalg.inv on a singular input *)
  | ZeroDivisionError  (* Python: division by zero *)
  | IndexError         (* index out of range *)
  | ValueError.        (* numpy: need at least one array to stack *)

Inductive result (A : Type) : Type :=
  | OK (a : A)
  | Raise (e : error).
Arguments OK {A} a.
Arguments Raise {A} e.

(** The error monad, with stdpp's [x ← m; k] notation. *)
#[global] Instance result_ret : MRet result := fun _ a => OK a.
#[global] Instance result_bind : MBind result := fun _ _ k m =>
  match m with
  | OK a => k a
  | Raise e => Raise e
  end.

Fixpoint traverse {A B} (f : A -> result B) (l : list A) : result (list B) :=
  match l with
  | [] => OK []
  | a :: l' => b ← f a; bs ← traverse f l'; OK (b :: bs)
  end.

Definition succeeds {A} (m : result A) : Prop := exists a, m = OK a.

(* ===================================================================== *)
(** ** Tensors *)
(* ===================================================================== *)

Module Tensor.
Open Scope R_scope.

(** A matrix is a list of rows. *)
Definition matrix := list (list R).

Definition get (M : matrix) (i j : nat) : R := nth j (nth i M []) 0.

Definition tabulate (r c : nat) (f : nat -> nat -> R) : matrix :=
  map (fun i => map (f i) (seq 0 c)) (seq 0 r).

(** [torch.zeros(r, c)] *)
Definition zeros (r c : nat) : matrix := tabulate r c (fun _ _ => 0).

(** Slice assignment [M[sel] = v] on a 4x4 matrix: the entries selected by
    [sel] are overwritten, the others kept. *)
Definition assign (M : matrix) (sel : nat -> nat -> bool)
    (v : nat -> nat -> R) : matrix :=
  tabulate 4 4 (fun i j => if sel i j then v i j else get M i j).

(** [torch.transpose(M, 1, 2)] on one 4x4 element of the batch. *)
Definition transpose (M : matrix) : matrix :=
  tabulate 4 4 (fun i j => get M j i).

Definition sum_upto (n : nat) (f : nat -> R) : R :=
  fold_right Rplus 0 (map f (seq 0 n)).

(** The product of two 4x4 matrices. *)
Definition matmul (A B : matrix) : matrix :=
  tabulate 4 4 (fun i j => sum_upto 4 (fun k => get A i k * get B k j)).

Definition eye : matrix :=
  tabulate 4 4 (fun i j => if Nat.eqb i j then 1 else 0).

(** Broadcasting a tensor of leading dimension [length v] to leading
    dimension [n]: the sizes agree, or the source has size 1. *)
Definition expand {A} (n : nat) (v : list A) : result (list A) :=
  if Nat.eqb (length v) n then OK v
  else match v with
       | [x] => OK (repeat x n)
       | _ => Raise ShapeMismatch
       end.

Fixpoint zip_with {A B C} (f : A -> B -> C) (xs : list A) (ys : list B)
  : list C :=
  match xs, ys with
  | x :: xs', y :: ys' => f x y :: zip_with f xs' ys'
  | _, _ => []
  end.

(** The leading dimension two tensors broadcast to in an elementwise
    operation. *)
Definition broadcast_size (a b : nat) : result nat :=
  if Nat.eqb a b then OK a
  else if Nat.eqb a 1 then OK b
  else if Nat.eqb b 1 then OK a
  else Raise ShapeMismatch.

(** An elementwise binary operation with broadcasting. *)
Definition elementwise {A B C} (f : A -> B -> C) (xs : list A) (ys : list B)
  : result (list C) :=
  n ← broadcast_size (length xs) (length ys);
  xs' ← expand n xs;
  ys' ← expand n ys;
  OK (zip_with f xs' ys').

(** [A.bmm(B)]: the batch sizes must be equal, there is no broadcasting. *)
Definition bmm (A B : list matrix) : result (list matrix) :=
  if Nat.eqb (length A) (length B) then OK (zip_with matmul A B)
  else Raise ShapeMismatch.

(** Boolean-mask indexing [xs[mask]]: the elements at the positions where
    the mask is set. *)
Fixpoint masked_select {A} (mask : list bool) (xs : list A) : list A :=
  match mask, xs with
  | m :: mask', x :: xs' =>
      if m then x :: masked_select mask' xs' else masked_select mask' xs'
  | _, _ => []
  end.

(** Boolean-mask assignment [xs[mask] = vs]: the selected positions take
    the values of [vs] in order; the number of values must be the number of
    selected positions. *)
Fixpoint masked_assign {A} (mask : list bool) (xs vs : list A)
  : result (list A) :=
  match mask, xs with
  | m :: mask', x :: xs' =>
      if m then
        match vs with
        | v :: vs' => r ← masked_assign mask' xs' vs'; OK (v :: r)
        | [] => Raise ShapeMismatch
        end
      else r ← masked_assign mask' xs' vs; OK (x :: r)
  | _, _ => match vs with [] => OK xs | _ => Raise ShapeMismatch end
  end.

(** [xs.mean()] *)
Definition mean (xs : list R) : R :=
  fold_right Rplus 0 xs / INR (length xs).

(** [torch.clamp(x, min=lo)] and [torch.clamp(x, min=lo, max=hi)] on one
    number. *)
Definition clamp_min (lo x : R) : R := Rmax lo x.
Definition clamp (lo hi x : R) : R := Rmin (Rmax lo x) hi.

(** *** Determinant and inverse *)

Definition skip (i r : nat) : nat := if Nat.ltb r i then r else S r.

(** The matrix without row [i] and column [j]. *)
Definition minor (n : nat) (M : matrix) (i j : nat) : matrix :=
  tabulate (pred n) (pred n) (fun r c => get M (skip i r) (skip j c)).

Definition sign (k : nat) : R := if Nat.even k then 1 else -1.

(** Laplace expansion along the first row. *)
Fixpoint det (n : nat) (M : matrix) : R :=
  match n with
  | O => 1
  | S n' => sum_upto n (fun j => sign j * get M 0 j * det n' (minor n M 0 j))
  end.

Definition cofactor (M : matrix) (i j : nat) : R :=
  sign (i + j) * det 3 (minor 4 M i j).

Definition adjugate (M : matrix) : matrix :=
  tabulate 4 4 (fun i j => cofactor M j i).

(** [torch.linalg.inv] on one 4x4 matrix: it raises on a singular input. *)
Definition linalg_inv (M : matrix) : result matrix :=
  if Req_dec_T (det 4 M) 0 then Raise SingularMatrix
  else OK (tabulate 4 4 (fun i j => get (adjugate M) i j / det 4 M)).

End Tensor.

(* ===================================================================== *)
(** ** internal/cameras/cameras.py *)
(* ===================================================================== *)

Module Cameras.
Import Tensor.
Open Scope R_scope.

(** The fields [Cameras] is constructed from ([field(init=False)] ones are
    derived).  [R] is [n_cameras, 3, 3] and [T] is [n_cameras, 3]. *)
Record init_fields : Type := {
  init_R : list matrix;
  init_T : list (list R);
  init_fx : list R;
  init_fy : list R;
  init_cx : list R;
  init_cy : list R;
  init_width : list R;
  init_height : list R;
  init_appearance_embedding : list R;
  init_distortion_params : option (list (list R));
  init_camera_type : list Z;
}.

(** The object after [__post_init__]. *)
Record t : Type := {
  cam_R : list matrix;
  cam_T : list (list R);
  fx : list R;
  fy : list R;
  fov_x : list R;
  fov_y : list R;
  cx : list R;
  cy : list R;
  width : list R;
  height : list R;
  appearance_embedding : list R;
  distortion_params : list (list R);
  camera_type : list Z;
  world_to_camera : list matrix;
  projection : list matrix;
  full_projection : list matrix;
  camera_center : list (list R);
}.

(** [fov = 2 * torch.atan((dimension / 2) / focal)] *)
Definition fov_of (dimension focal : list R) : result (list R) :=
  q ← elementwise Rdiv (map (fun d => d / 2) dimension) focal;
  OK (map (fun a => 2 * atan a) q).

Definition _calculate_fov (a : init_fields) : result (list R * list R) :=
  fov_x ← fov_of (init_width a) (init_fx a);
  fov_y ← fov_of (init_height a) (init_fy a);
  OK (fov_x, fov_y).

(** One element of the batch built by [_calculate_w2c]. *)
Definition w2c_matrix (Rm : matrix) (Tv : list R) : matrix :=
  let w := zeros 4 4 in
  let w := assign w (fun i j => Nat.ltb i 3 && Nat.ltb j 3) (get Rm) in
  let w := assign w (fun i j => Nat.ltb i 3 && Nat.eqb j 3)
                  (fun i _ => nth i Tv 0) in
  let w := assign w (fun i j => Nat.eqb i 3 && Nat.eqb j 3) (fun _ _ => 1) in
  transpose w.

Definition _calculate_w2c (a : init_fields) : result (list matrix) :=
  (* world_to_camera[:, :3, 3] = T: T is broadcast to R.shape[0] rows *)
  Ts ← expand (length (init_R a)) (init_T a);
  OK (zip_with w2c_matrix (init_R a) Ts).

Definition zfar : R := 100.
Definition znear : R := 1 / 100.

Definition at_entry (r c : nat) : nat -> nat -> bool :=
  fun i j => Nat.eqb i r && Nat.eqb j c.

(** [P[:, r, c] = v] over the batch. *)
Definition assign_entries (P : list matrix) (r c : nat) (v : list R)
  : result (list matrix) :=
  v' ← expand (length P) v;
  OK (zip_with (fun Pi vi => assign Pi (at_entry r c) (fun _ _ => vi)) P v').

(** [P[:, r, c] = s] for a scalar [s]. *)
Definition assign_scalar (P : list matrix) (r c : nat) (s : R) : list matrix :=
  map (fun Pi => assign Pi (at_entry r c) (fun _ _ => s)) P.

Definition _calculate_ndc_projection_matrix
    (fov_x fov_y : list R) (world_to_camera : list matrix)
  : result (list matrix * list matrix) :=
  let tanHalfFovY := map (fun f => tan (f / 2)) fov_y in
  let tanHalfFovX := map (fun f => tan (f / 2)) fov_x in
  let top := map (fun t => t * znear) tanHalfFovY in
  let bottom := map Ropp top in
  let right := map (fun t => t * znear) tanHalfFovX in
  let left := map Ropp right in
  let P := repeat (zeros 4 4) (length fov_y) in
  let z_sign := 1 in
  P ← assign_entries P 0 0
        (zip_with (fun r l => 2 * znear / (r - l)) right left);
  P ← assign_entries P 1 1
        (zip_with (fun t b => 2 * znear / (t - b)) top bottom);
  P ← assign_entries P 0 2
        (zip_with (fun r l => (r + l) / (r - l)) right left);
  P ← assign_entries P 1 2
        (zip_with (fun t b => (t + b) / (t - b)) top bottom);
  let P := assign_scalar P 3 2 z_sign in
  let P := assign_scalar P 2 2 (z_sign * zfar / (zfar - znear)) in
  let P := assign_scalar P 2 3 (- (zfar * znear) / (zfar - znear)) in
  let projection := map transpose P in
  full_projection ← bmm world_to_camera projection;
  OK (projection, full_projection).

(** [torch.linalg.inv(world_to_camera)[:, 3, :3]] *)
Definition _calculate_camera_center (world_to_camera : list matrix)
  : result (list (list R)) :=
  inv ← traverse linalg_inv world_to_camera;
  OK (map (fun M => [get M 3 0; get M 3 1; get M 3 2]) inv).

(** The step of [__post_init__] an exception escapes from. *)
Inductive stage : Type :=
  | CalculateFov
  | CalculateW2c
  | CalculateNdcProjectionMatrix
  | CalculateCameraCenter.

Inductive outcome : Type :=
  | Constructed (c : t)
  | Failed (s : stage) (e : error).

Definition run {A} (s : stage) (m : result A) (k : A -> outcome) : outcome :=
  match m with
  | OK a => k a
  | Raise e => Failed s e
  end.

(** The dataclass constructor followed by [__post_init__]: the four
    [_calculate_*] methods run in this order, each on the fields set before
    it, and the first exception ends the construction. *)
Definition __post_init__ (a : init_fields) : outcome :=
  run CalculateFov (_calculate_fov a) (fun '(fov_x, fov_y) =>
  run CalculateW2c (_calculate_w2c a) (fun world_to_camera =>
  run CalculateNdcProjectionMatrix
      (_calculate_ndc_projection_matrix fov_x fov_y world_to_camera)
      (fun '(projection, full_projection) =>
  run CalculateCameraCenter (_calculate_camera_center world_to_camera)
      (fun camera_center =>
  let distortion_params :=
    match init_distortion_params a with
    | None => repeat (repeat 0 6%nat) (length (init_R a))
    | Some d => d
    end in
  Constructed {|
    cam_R := init_R a; cam_T := init_T a;
    fx := init_fx a; fy := init_fy a;
    fov_x := fov_x; fov_y := fov_y;
    cx := init_cx a; cy := init_cy a;
    width := init_width a; height := init_height a;
    appearance_embedding := init_appearance_embedding a;
    distortion_params := distortion_params;
    camera_type := init_camera_type a;
    world_to_camera := world_to_camera;
    projection := projection;
    full_projection := full_projection;
    camera_center := camera_center |})))).

End Cameras.

(* ===================================================================== *)
(** ** internal/renderers/gsplat_appearance_embedding_renderer.py *)
(* ===================================================================== *)

Module AppearanceEmbeddingRenderer.
Import Tensor.
Open Scope R_scope.

Record ModelConfig : Type := {
  n_gaussian_feature_dims : Z;
  n_appearances : Z;
  n_appearance_embedding_dims : Z;
  is_view_dependent : bool;
  n_view_direction_frequencies : Z;
  n_neurons : Z;
  n_layers : Z;
  skip_layers : list Z;
  normalize : bool;
  tcnn : bool;
}.

Definition default_ModelConfig : ModelConfig := {|
  n_gaussian_feature_dims := 64;
  n_appearances := -1;
  n_appearance_embedding_dims := 32;
  is_view_dependent := false;
  n_view_direction_frequencies := 4;
  n_neurons := 64;
  n_layers := 3;
  skip_layers := [];
  normalize := false;
  tcnn := false;
|}.

Definition set_n_appearances (c : ModelConfig) (n : Z) : ModelConfig := {|
  n_gaussian_feature_dims := n_gaussian_feature_dims c;
  n_appearances := n;
  n_appearance_embedding_dims := n_appearance_embedding_dims c;
  is_view_dependent := is_view_dependent c;
  n_view_direction_frequencies := n_view_direction_frequencies c;
  n_neurons := n_neurons c;
  n_layers := n_layers c;
  skip_layers := skip_layers c;
  normalize := normalize c;
  tcnn := tcnn c;
|}.

Record OptimizationConfig : Type := {
  gamma_eps : R;
  embedding_lr_init : R;
  embedding_lr_final_factor : R;
  lr_init : R;
  lr_final_factor : R;
  eps : R;
  max_steps : Z;
  warm_up : Z;
}.

Definition default_OptimizationConfig : OptimizationConfig := {|
  gamma_eps := 1 / 1000000;
  embedding_lr_init := 2 / 1000;
  embedding_lr_final_factor := 1 / 10;
  lr_init := 1 / 1000;
  lr_final_factor := 1 / 10;
  eps := 1 / 1000000000000000;
  max_steps := 30000;
  warm_up := 4000;
|}.

(** *** Model sizing: [setup], [_setup_model], [load_state_dict] *)

(** What [Model._setup] allocates: an embedding table of
    [config.n_appearances] rows (and the network).  [weights] is [None]
    for a freshly initialised table and the loaded rows after
    [load_state_dict]. *)
Record Model : Type := {
  num_embeddings : Z;
  embedding_dim : Z;
  weights : option (list (list R));
}.

(** The two effects of interest on the module, in the order they happen. *)
Inductive event : Type :=
  | SetNAppearances (n : Z)
  | AllocateModel (num_embeddings : Z).

(** The renderer module: its (mutable) configuration, the model once set
    up, and the effects so far. *)
Record module_state : Type := {
  config_model : ModelConfig;
  config_optimization : OptimizationConfig;
  model : option Model;
  trace : list event;
}.

(** [dataparser_outputs.appearance_group_ids]: image-group name to
    (appearance id, normalized appearance id). *)
Abbreviation appearance_group_ids := (gmap string (Z * R)).

(** The loop of [setup] over [appearance_group_ids.values()]. *)
Definition max_input_id_of (ids : option appearance_group_ids) : Z :=
  match ids with
  | None => 0%Z
  | Some ids =>
      map_fold (fun _ (i : Z * R) max_input_id =>
                  if (max_input_id <? i.1)%Z then i.1 else max_input_id)
               0%Z ids
  end.

Definition _setup_model (self : module_state) : module_state := {|
  config_model := config_model self;
  config_optimization := config_optimization self;
  model := Some {| num_embeddings := n_appearances (config_model self);
                   embedding_dim :=
                     n_appearance_embedding_dims (config_model self);
                   weights := None |};
  trace := trace self ++ [AllocateModel (n_appearances (config_model self))];
|}.

Definition assign_n_appearances (self : module_state) (n : Z)
  : module_state := {|
  config_model := set_n_appearances (config_model self) n;
  config_optimization := config_optimization self;
  model := model self;
  trace := trace self ++ [SetNAppearances n];
|}.

(** [setup(stage, lightning_module)]; [lightning_module] is [None] or
    carries the data module's [appearance_group_ids] (itself optional). *)
Definition setup (lightning_module : option (option appearance_group_ids))
    (self : module_state) : module_state :=
  match lightning_module with
  | None => self
  | Some ids =>
      let self :=
        if (n_appearances (config_model self) <=? 0)%Z then
          let max_input_id := max_input_id_of ids in
          let n_appearances := (max_input_id + 1)%Z in
          assign_n_appearances self n_appearances
        else self in
      _setup_model self
  end.


(** *** Learning-rate schedules *)

Record optimizer : Type := {
  group_name : string;
  lr : R;
  adam_eps : R;
}.

(** [torch.optim.lr_scheduler.LambdaLR]: the rate at scheduler step [t] is
    the optimizer's initial rate times [lr_lambda t]. *)
Record scheduler : Type := {
  base_lr : R;
  lr_lambda : Z -> result R;
}.

Definition get_lr (s : scheduler) (t : Z) : result R :=
  f ← lr_lambda s t; OK (base_lr s * f).

(** Python's true division of two integers. *)
Definition true_div (a b : Z) : result R :=
  if (b =? 0)%Z then Raise ZeroDivisionError else OK (IZR a / IZR b).

(** Python's [x ** y] on floats, for a positive base. *)
Definition float_pow (x y : R) : R := Rpower x y.

Definition _create_optimizer_and_scheduler (name : string)
    (lr_init lr_final_factor : R) (max_steps : Z) (eps : R) (warm_up : Z)
  : optimizer * scheduler :=
  let optimizer :=
    {| group_name := name; lr := lr_init; adam_eps := eps |} in
  let scheduler :=
    {| base_lr := lr_init;
       lr_lambda := fun iter =>
         q ← true_div (Z.max (iter - warm_up) 0) max_steps;
         OK (float_pow lr_final_factor (Rmin q 1)) |} in
  (optimizer, scheduler).

Definition training_setup (o : OptimizationConfig)
  : list optimizer * list scheduler :=
  let '(embedding_optimizer, embedding_scheduler) :=
    _create_optimizer_and_scheduler "embedding"
      (embedding_lr_init o) (lr_final_factor o) (max_steps o) (eps o)
      (warm_up o) in
  let '(network_optimizer, network_scheduler) :=
    _create_optimizer_and_scheduler "embedding_network"
      (lr_init o) (lr_final_factor o) (max_steps o) (eps o) (warm_up o) in
  ([embedding_optimizer; network_optimizer],
   [embedding_scheduler; network_scheduler]).

(** *** Colors: [sh], [selective_sh], [get_rgbs], [training_forward] *)

(** What the renderer reads of the viewpoint camera. *)
Record Camera : Type := {
  camera_center : list R;
  appearance_id : Z;
}.

(** What the renderer reads of the Gaussian model; a tensor [N, k] is a
    list of [N] rows. *)
Record GaussianModel : Type := {
  is_pre_activated : bool;
  active_sh_degree : Z;
  get_xyz : list (list R);
  get_shs : list (list R);
  get_shs_dc : list (list R);
  get_shs_rest : list (list R);
  get_appearance_features : list (list R);
  n_gaussians : nat;
}.

(** One invocation of the appearance model, with its arguments. *)
Record model_call : Type := {
  call_gaussian_features : list (list R);
  call_appearance : Z;
  call_view_dirs : list (list R);
}.

(** [xyz - camera_center]: a row subtracted from every row. *)
Definition sub_row (xs : list (list R)) (c : list R) : list (list R) :=
  map (fun x => zip_with Rminus x c) xs.

Definition map_rows (f : R -> R) (xs : list (list R)) : list (list R) :=
  map (map f) xs.

(** [base_rgbs + rgb_offsets] on tensors [n, 3]. *)
Definition add_rows (xs ys : list (list R)) : result (list (list R)) :=
  elementwise (zip_with Rplus) xs ys.

(** [torch.nn.functional.normalize(v, dim=-1)]: [v / max(|v|, 1e-12)]. *)
Definition normalize_row (v : list R) : list R :=
  let norm := sqrt (fold_right Rplus 0 (map (fun x => x * x) v)) in
  map (fun x => x / Rmax norm (1 / 1000000000000)) v.

Section Colors.

(** gsplat's kernels, imported from [gsplat_v1_renderer]:
    [spherical_harmonics(degree, dirs, coeffs, masks)] and
    [spherical_harmonics_decomposed(degree, dirs, dc, coeffs, masks)]. *)
Variable spherical_harmonics :
  Z -> list (list R) -> list (list R) -> option (list bool) -> list (list R).
Variable spherical_harmonics_decomposed :
  Z -> list (list R) -> list (list R) -> list (list R) ->
  option (list bool) -> list (list R).

(** The appearance network [self.model(features, appearance, view_dirs)]. *)
Variable model_forward :
  list (list R) -> Z -> list (list R) -> list (list R).

Definition sh (pc : GaussianModel) (dirs : list (list R))
    (mask : option (list bool)) : list (list R) :=
  if is_pre_activated pc then
    spherical_harmonics (active_sh_degree pc) dirs (get_shs pc) mask
  else
    spherical_harmonics_decomposed (active_sh_degree pc) dirs
      (get_shs_dc pc) (get_shs_rest pc) mask.

Definition selective_sh (pc : GaussianModel) (dirs : list (list R))
    (mask : list bool) : list (list R) :=
  if is_pre_activated pc then
    spherical_harmonics (active_sh_degree pc) dirs
      (masked_select mask (get_shs pc)) None
  else
    spherical_harmonics_decomposed (active_sh_degree pc) dirs
      (masked_select mask (get_shs_dc pc))
      (masked_select mask (get_shs_rest pc)) None.

(** [get_rgbs]; [warm_up] is the keyword argument ([None] when absent).
    The result pairs the colors with the invocations of the appearance
    model made on the way. *)
Definition get_rgbs (viewpoint_camera : Camera) (pc : GaussianModel)
    (visibility_filter : list bool) (warm_up : option bool)
  : result (list (list R)) * list model_call :=
  if default false warm_up then
    (OK (map_rows (clamp_min 0)
           (map_rows (fun x => x + 1 / 2)
              (sh pc (sub_row (get_xyz pc) (camera_center viewpoint_camera))
                  (Some visibility_filter)))),
     [])
  else
    let detached_xyz := masked_select visibility_filter (get_xyz pc) in
    let view_directions :=
      sub_row detached_xyz (camera_center viewpoint_camera) in
    let view_directions := map normalize_row view_directions in
    let base_rgbs :=
      map_rows (fun x => x + 1 / 2)
        (selective_sh pc view_directions visibility_filter) in
    let features :=
      masked_select visibility_filter (get_appearance_features pc) in
    let call :=
      {| call_gaussian_features := features;
         call_appearance := appearance_id viewpoint_camera;
         call_view_dirs := view_directions |} in
    let rgb_offsets :=
      map_rows (fun x => x * 2 - 1)
        (model_forward features (appearance_id viewpoint_camera)
           view_directions) in
    let rgbs := repeat (repeat 0 3%nat) (n_gaussians pc) in
    (sum ← add_rows base_rgbs rgb_offsets;
     masked_assign visibility_filter rgbs (map_rows (clamp 0 1) sum),
     [call]).

(** The rasterization pipeline around [get_rgbs]: the projection of the
    Gaussians, giving the visibility filter, and the compositing of the
    colors into an image. *)
Variable project : Camera -> GaussianModel -> R -> list bool.
Variable rasterize :
  Camera -> GaussianModel -> list (list R) -> list R -> R -> list R.

(** Modelled from the spec: [GSplatV1RendererModule.forward]
    (gsplat_v1_renderer.py is not among the sources), as section 4.3 has
    it: it projects the primitives, asks [get_rgbs] for their colors,
    handing on the keyword arguments it was given, and rasterizes. *)
Definition forward (viewpoint_camera : Camera) (pc : GaussianModel)
    (bg_color : list R) (scaling_modifier : R) (warm_up : option bool)
  : result (list R) * list model_call :=
  let visibility_filter := project viewpoint_camera pc scaling_modifier in
  let '(rgbs, calls) :=
    get_rgbs viewpoint_camera pc visibility_filter warm_up in
  (rgbs ← rgbs;
   OK (rasterize viewpoint_camera pc rgbs bg_color scaling_modifier),
   calls).


End Colors.

End AppearanceEmbeddingRenderer.

(* ===================================================================== *)
(** ** internal/gaussian_splatting.py *)
(* ===================================================================== *)

Module GaussianSplatting.
Import Tensor.
Open Scope R_scope.

(** [hparams["gaussian"].optimization], the options [training_step]
    reads. *)
Record OptimizationParams : Type := {
  lambda_dssim : R;
  densify_from_iter : Z;
  densify_until_iter : Z;
  densification_interval : Z;
  opacity_reset_interval : Z;
  densify_grad_threshold : R;
}.

(** Python's [a % b] on integers. *)
Definition py_mod (a b : Z) : result Z :=
  if (b =? 0)%Z then Raise ZeroDivisionError else OK (a mod b)%Z.

(** *** The loss of [training_step] *)

Record losses : Type := {
  gt_used : list R;   (* the ground truth the loss terms were computed on *)
  l1_loss : R;
  ssim_metric : R;
  loss : R;
}.

Section Loss.

(** [internal.utils.ssim.ssim] *)
Variable ssim : list R -> list R -> R.

(** Lines 98-103: images are flattened to lists of numbers, and
    [masked_pixels] is a boolean mask of the image's shape, or [None]. *)
Definition calculate_loss (lambda_dssim : R) (render gt_image : list R)
    (masked_pixels : option (list bool)) : result losses :=
  gt_image ←
    match masked_pixels with
    | Some masked_pixels =>
        (* copy masked pixels from prediction to G.T. *)
        masked_assign masked_pixels gt_image
          (masked_select masked_pixels render)
    | None => OK gt_image
    end;
  diff ← elementwise Rminus render gt_image;
  let l1_loss := mean (map Rabs diff) in
  let ssim_metric := ssim render gt_image in
  let loss :=
    (1 - lambda_dssim) * l1_loss + lambda_dssim * (1 - ssim_metric) in
  OK {| gt_used := gt_image; l1_loss := l1_loss;
        ssim_metric := ssim_metric; loss := loss |}.

End Loss.

(** *** Density control in [training_step] *)

(** The calls [training_step] makes on the Gaussian model between the
    backward pass and the optimizer steps. *)
Inductive gaussian_call : Type :=
  | UpdateMaxRadii2D
  | AddDensificationStats
  | DensifyAndPrune (max_grad min_opacity extent : R)
                    (max_screen_size : option Z)
  | ResetOpacity.

(** [torch.all(self.background_color == 1.)] *)
Definition background_is_white (background_color : list R) : bool :=
  forallb (fun c => if Req_dec_T c 1 then true else false) background_color.

(** Lines 136-161, for [global_step = trainer.global_step + 1]. *)
Definition densification (o : OptimizationParams) (cameras_extent : R)
    (background_color : list R) (global_step : Z)
  : result (list gaussian_call) :=
  if (global_step <? densify_until_iter o)%Z then
    let calls := [UpdateMaxRadii2D; AddDensificationStats] in
    calls ←
      (if (densify_from_iter o <? global_step)%Z then
         r ← py_mod global_step (densification_interval o);
         if (r =? 0)%Z then
           let size_threshold :=
             if (opacity_reset_interval o <? global_step)%Z
             then Some 20%Z else None in
           OK (calls ++ [DensifyAndPrune (densify_grad_threshold o)
                           (5 / 1000) cameras_extent size_threshold])
         else OK calls
       else OK calls);
    r ← py_mod global_step (opacity_reset_interval o);
    if (r =? 0)%Z
       || (background_is_white background_color
           && (global_step =? densify_from_iter o)%Z)
    then OK (calls ++ [ResetOpacity])
    else OK calls
  else OK [].

(** The screen-size threshold grow/prune was invoked with, if it was
    invoked. *)
Definition densify_and_prune_threshold (calls : list gaussian_call)
  : option (option Z) :=
  head (omap (fun c => match c with
                       | DensifyAndPrune _ _ _ t => Some t
                       | _ => None
                       end) calls).

End GaussianSplatting.

(* ===================================================================== *)
(** ** internal/dataparsers/colmap_dataparser.py *)
(* ===================================================================== *)

Module ColmapDataParser.

(** Lines 188-198, over [n_images = len(image_name_list)]: the pair
    [(training_set_indices, validation_set_indices)]. *)
Definition build_split_indices (eval_step : Z) (n_images : nat)
  : list nat * list nat :=
  if (1 <? eval_step)%Z then
    fold_left
      (fun '(training_set_indices, validation_set_indices) i =>
         if (Z.of_nat i mod eval_step =? 0)%Z
         then (training_set_indices, validation_set_indices ++ [i])
         else (training_set_indices ++ [i], validation_set_indices))
      (seq 0 n_images) ([], [])
  else (seq 0 n_images, [0%nat]).

(** [[xs[i] for i in index_list]] *)
Definition gather {A} (xs : list A) (index_list : list nat)
  : result (list A) :=
  traverse (fun i => match nth_error xs i with
                     | Some x => OK x
                     | None => Raise IndexError
                     end) index_list.

(** Lines 165-227 as far as the image names go: stacking the per-image
    arrays fails on an empty model, then the names of the two image sets
    are gathered by the split indices. *)
Definition split_image_names (eval_step : Z) (image_name_list : list string)
  : result (list string * list string) :=
  match image_name_list with
  | [] => Raise ValueError
  | _ =>
      let '(training_set_indices, validation_set_indices) :=
        build_split_indices eval_step (length image_name_list) in
      train ← gather image_name_list training_set_indices;
      val ← gather image_name_list validation_set_indices;
      OK (train, val)
  end.

End ColmapDataParser.

(* ===================================================================== *)
(** ** internal/cameras/cameras.py: [Camera] and [Cameras.__getitem__] *)
(* ===================================================================== *)

Module Camera.
Import Tensor.
Open Scope R_scope.

(** One camera of the batch. *)
Record t : Type := {
  cam_R : matrix;
  cam_T : list R;
  fx : R;
  fy : R;
  fov_x : R;
  fov_y : R;
  cx : R;
  cy : R;
  width : R;
  height : R;
  appearance_embedding : R;
  distortion_params : list R;
  camera_type : Z;
  world_to_camera : matrix;
  projection : matrix;
  full_projection : matrix;
  camera_center : list R;
}.

(** [xs[index]] along the leading dimension, for a Python integer: a
    negative index counts from the end, an index outside [-n, n) raises. *)
Definition item {A} (xs : list A) (index : Z) : result A :=
  let n := Z.of_nat (length xs) in
  let position := if (index <? 0)%Z then (n + index)%Z else index in
  if ((0 <=? position) && (position <? n))%Z then
    match nth_error xs (Z.to_nat position) with
    | Some x => OK x
    | None => Raise IndexError
    end
  else Raise IndexError.

(** [Cameras.__getitem__] *)
Definition __getitem__ (self : Cameras.t) (index : Z) : result t :=
  R_ ← item (Cameras.cam_R self) index;
  T_ ← item (Cameras.cam_T self) index;
  fx ← item (Cameras.fx self) index;
  fy ← item (Cameras.fy self) index;
  fov_x ← item (Cameras.fov_x self) index;
  fov_y ← item (Cameras.fov_y self) index;
  cx ← item (Cameras.cx self) index;
  cy ← item (Cameras.cy self) index;
  width ← item (Cameras.width self) index;
  height ← item (Cameras.height self) index;
  appearance_embedding ← item (Cameras.appearance_embedding self) index;
  distortion_params ← item (Cameras.distortion_params self) index;
  camera_type ← item (Cameras.camera_type self) index;
  world_to_camera ← item (Cameras.world_to_camera self) index;
  projection ← item (Cameras.projection self) index;
  full_projection ← item (Cameras.full_projection self) index;
  camera_center ← item (Cameras.camera_center self) index;
  OK {| cam_R := R_; cam_T := T_; fx := fx; fy := fy;
        fov_x := fov_x; fov_y := fov_y; cx := cx; cy := cy;
        width := width; height := height;
        appearance_embedding := appearance_embedding;
        distortion_params := distortion_params;
        camera_type := camera_type;
        world_to_camera := world_to_camera;
        projection := projection;
        full_projection := full_projection;
        camera_center := camera_center |}.

End Camera.

(* ===================================================================== *)
(** ** gsplat_appearance_embedding_renderer.py: [Model.forward] *)
(* ===================================================================== *)

Module AppearanceModel.
Import Tensor.
Open Scope R_scope.

(** [self.embedding(appearance.reshape((-1,)))] for one appearance
    identifier: the row of the table, as a tensor [1, D]; an identifier
    outside the table raises. *)
Definition embedding (weight : list (list R)) (appearance : Z)
  : result (list (list R)) :=
  if ((0 <=? appearance) && (appearance <? Z.of_nat (length weight)))%Z then
    match nth_error weight (Z.to_nat appearance) with
    | Some row => OK [row]
    | None => Raise IndexError
    end
  else Raise IndexError.

(** [x.repeat(n, 1)] *)
Definition repeat_rows (x : list (list R)) (n : nat) : list (list R) :=
  List.concat (repeat x n).

(** [torch.concat(tensors, dim=-1)]: the tensors must agree in their
    leading dimension. *)
Fixpoint concat_last (tensors : list (list (list R)))
  : result (list (list R)) :=
  match tensors with
  | [] => Raise ValueError
  | [x] => OK x
  | x :: rest =>
      r ← concat_last rest;
      if Nat.eqb (length x) (length r) then OK (zip_with (@app R) x r)
      else Raise ShapeMismatch
  end.

(** [Model._setup]: the number of input columns the network is built
    for; [n_channels] is
    [view_direction_encoding.get_output_n_channels()]. *)
Definition n_input_dims (config : AppearanceEmbeddingRenderer.ModelConfig)
    (n_channels : Z) : Z :=
  let n_input_dims :=
    (AppearanceEmbeddingRenderer.n_gaussian_feature_dims config
     + AppearanceEmbeddingRenderer.n_appearance_embedding_dims config)%Z in
  if AppearanceEmbeddingRenderer.is_view_dependent config
  then (n_input_dims + n_channels)%Z
  else n_input_dims.

Section Forward.

(** [PositionalEncoding(3, n_view_direction_frequencies)] and the network
    of [NetworkFactory]. *)
Variable view_direction_encoding : list (list R) -> list (list R).
Variable network : list (list R) -> list (list R).

(** [Model.forward], [weight] being the embedding table. *)
Definition forward (config : AppearanceEmbeddingRenderer.ModelConfig)
    (weight : list (list R)) (gaussian_features : list (list R))
    (appearance : Z) (view_dirs : list (list R))
  : result (list (list R)) :=
  e ← embedding weight appearance;
  let appearance_embeddings := repeat_rows e (length gaussian_features) in
  let '(gaussian_features, appearance_embeddings) :=
    if AppearanceEmbeddingRenderer.normalize config then
      (map AppearanceEmbeddingRenderer.normalize_row gaussian_features,
       map AppearanceEmbeddingRenderer.normalize_row appearance_embeddings)
    else (gaussian_features, appearance_embeddings) in
  let input_tensor_list :=
    [gaussian_features; appearance_embeddings]
    ++ (if AppearanceEmbeddingRenderer.is_view_dependent config
        then [view_direction_encoding view_dirs] else []) in
  network_input ← concat_last input_tensor_list;
  OK (network network_input).

End Forward.

End AppearanceModel.

(* ===================================================================== *)
(** ** internal/gaussian_splatting.py: the step, the schedule, the save *)
(* ===================================================================== *)

Module TrainingStep.
Import Tensor.
Open Scope R_scope.

(** The effects of [training_step] on the models, the optimizers and the
    output files, in the order they happen; the rendering and the loss are
    the events [Forward] and [Backward], and the logging calls are left
    out. *)
Inductive event : Type :=
  | OneUpSHDegree
  | Forward
  | ZeroGrad
  | Backward
  | SaveGaussianToPly (trainer_global_step : Z)
  | Gaussian (call : GaussianSplatting.gaussian_call)
  | GaussianOptimizerStep
  | AppearanceOptimizerStep
  | UpdateLearningRate (global_step : Z)
  | AppearanceSchedulerStep.

(** [training_step], for the value [trainer.global_step] has when the step
    begins. *)
Definition training_step (o : GaussianSplatting.OptimizationParams)
    (save_iterations : list Z) (cameras_extent : R)
    (background_color : list R) (trainer_global_step : Z)
  : result (list event) :=
  (* must start from 1 to prevent densify at the beginning *)
  let global_step := (trainer_global_step + 1)%Z in
  (* Every 1000 its we increase the levels of SH up to a maximum degree *)
  let sh := if (global_step mod 1000 =? 0)%Z then [OneUpSHDegree] else [] in
  (* save before densification *)
  let save :=
    if existsb (Z.eqb global_step) save_iterations
    then [SaveGaussianToPly trainer_global_step] else [] in
  calls ← GaussianSplatting.densification o cameras_extent background_color
             global_step;
  OK (sh ++ [Forward; ZeroGrad; Backward] ++ save ++ map Gaussian calls
      ++ [GaussianOptimizerStep; AppearanceOptimizerStep;
          UpdateLearningRate global_step; AppearanceSchedulerStep]).

(** The [lr_lambda] of [configure_optimizers]:
    [0.01 ** min(iter / position_lr_max_steps, 1)]. *)
Definition appearance_lr_lambda (position_lr_max_steps : Z) (iter : Z)
  : result R :=
  q ← AppearanceEmbeddingRenderer.true_div iter position_lr_max_steps;
  OK (AppearanceEmbeddingRenderer.float_pow (1 / 100) (Rmin q 1)).

(** The scheduler [configure_optimizers] returns for the appearance
    optimizer, [lr] being [hparams["appearance"].optimization.lr]. *)
Definition appearance_scheduler (lr : R) (position_lr_max_steps : Z)
  : AppearanceEmbeddingRenderer.scheduler :=
  {| AppearanceEmbeddingRenderer.base_lr := lr;
     AppearanceEmbeddingRenderer.lr_lambda :=
       appearance_lr_lambda position_lr_max_steps |}.

(** [os.path.join(a, b)] on POSIX paths. *)
Definition ends_with_slash (a : string) : bool :=
  String.eqb (String.substring (String.length a - 1) 1 a) "/".

Definition os_path_join (a b : string) : string :=
  if String.prefix "/" b then b
  else if (String.eqb a "" || ends_with_slash a)%bool then (a ++ b)%string
  else (a ++ "/" ++ b)%string.

(** The directory and the file [save_gaussian_to_ply] writes. *)
Definition output_dir (output_path : string) (trainer_global_step : Z)
  : string :=
  os_path_join (os_path_join output_path "point_cloud")
    ("iteration_" ++ pretty trainer_global_step).

Definition output_file (output_path : string) (trainer_global_step : Z)
  : string :=
  os_path_join (output_dir output_path trainer_global_step) "point_cloud.ply".

(** [save_gaussian_to_ply] on the files of the output tree: [ply] is what
    [save_ply] writes. *)
Definition save_gaussian_to_ply {content : Type} (global_rank : Z)
    (output_path : string) (trainer_global_step : Z) (ply : content)
    (files : gmap string content) : gmap string content :=
  if negb (global_rank =? 0)%Z then files
  else
    let path := output_file output_path trainer_global_step in
    (* self.gaussian_model.save_ply(output_path + ".tmp") *)
    let files := <[(path ++ ".tmp")%string := ply]> files in
    (* os.rename(output_path + ".tmp", output_path) *)
    match files !! (path ++ ".tmp")%string with
    | Some c => <[path := c]> (delete (path ++ ".tmp")%string files)
    | None => files
    end.

End TrainingStep.

(* ===================================================================== *)
(** ** colmap_dataparser.py: the images of the sparse model *)
(* ===================================================================== *)

Module ColmapImages.
Import Tensor.
Open Scope R_scope.

(** A camera and an image of the sparse model, as [colmap_utils] reads
    them; the pose of an image ([qvec], [tvec]) is left out. *)
Record Camera : Type := {
  model : string;
  width : Z;
  height : Z;
  params : list R;
}.

Record Image : Type := {
  camera_id : Z;
  name : string;
}.

(** What the loop over the images can raise. *)
Inductive exception : Type := KeyError | AssertionError | ParamsIndexError.

Inductive outcome (A : Type) : Type :=
  | Parsed (a : A)
  | Raised (e : exception).
Arguments Parsed {A} a.
Arguments Raised {A} e.

(** What one round of the loop appends to the lists. *)
Record entry : Type := {
  focal_length_x : R;
  focal_length_y : R;
  cx : R;
  cy : R;
  entry_width : Z;
  entry_height : Z;
  appearance_embedding : Z;
  camera_type : Z;
  image_name : string;
  image_path : string;
  mask_path : option string;
}.

(** [intrinsics.params[i]] *)
Definition param (intrinsics : Camera) (i : nat) : outcome R :=
  match nth_error (params intrinsics) i with
  | Some x => Parsed x
  | None => Raised ParamsIndexError
  end.

(** Lines 124-139: [(focal_length_x, focal_length_y, cx, cy)]. *)
Definition focal_lengths_and_center (intrinsics : Camera)
  : outcome (R * R * R * R) :=
  if String.eqb (model intrinsics) "SIMPLE_PINHOLE" then
    match param intrinsics 0, param intrinsics 1, param intrinsics 2 with
    | Parsed focal_length_x, Parsed cx, Parsed cy =>
        let focal_length_y := focal_length_x in
        Parsed (focal_length_x, focal_length_y, cx, cy)
    | _, _, _ => Raised ParamsIndexError
    end
  else if String.eqb (model intrinsics) "PINHOLE" then
    match param intrinsics 0, param intrinsics 1,
          param intrinsics 2, param intrinsics 3 with
    | Parsed focal_length_x, Parsed focal_length_y, Parsed cx, Parsed cy =>
        Parsed (focal_length_x, focal_length_y, cx, cy)
    | _, _, _, _ => Raised ParamsIndexError
    end
  else
    (* Colmap camera model not handled *)
    Raised AssertionError.

(** Lines 141-146; [path_exists] is [os.path.exists]. *)
Definition mask_path_of (mask_dir : option string)
    (path_exists : string -> bool) (extrinsics : Image) : option string :=
  match mask_dir with
  | None => None
  | Some mask_dir =>
      let mask_path :=
        TrainingStep.os_path_join mask_dir (name extrinsics ++ ".png") in
      if path_exists mask_path then Some mask_path else None
  end.

(** One round of the loop of lines 113-163. *)
Definition parse_image (cameras : gmap Z Camera) (image_dir : string)
    (mask_dir : option string) (path_exists : string -> bool)
    (extrinsics : Image) : outcome entry :=
  match cameras !! camera_id extrinsics with
  | None => Raised KeyError
  | Some intrinsics =>
      match focal_lengths_and_center intrinsics with
      | Raised e => Raised e
      | Parsed (focal_length_x, focal_length_y, cx, cy) =>
          Parsed {|
            focal_length_x := focal_length_x;
            focal_length_y := focal_length_y;
            cx := cx;
            cy := cy;
            entry_width := width intrinsics;
            entry_height := height intrinsics;
            appearance_embedding := camera_id extrinsics;
            camera_type := 0;
            image_name := name extrinsics;
            image_path :=
              TrainingStep.os_path_join image_dir (name extrinsics);
            mask_path := mask_path_of mask_dir path_exists extrinsics;
          |}
      end
  end.

(** The loop: the images in the order of the sorted dictionary; the first
    failure ends it. *)
Fixpoint parse_images (cameras : gmap Z Camera) (image_dir : string)
    (mask_dir : option string) (path_exists : string -> bool)
    (images : list Image) : outcome (list entry) :=
  match images with
  | [] => Parsed []
  | extrinsics :: images =>
      match parse_image cameras image_dir mask_dir path_exists extrinsics
      with
      | Raised e => Raised e
      | Parsed x =>
          match parse_images cameras image_dir mask_dir path_exists images
          with
          | Raised e => Raised e
          | Parsed xs => Parsed (x :: xs)
          end
      end
  end.

(** [torch.max(x)] of a one-dimensional tensor; there is none of an empty
    one. *)
Definition torch_max (xs : list R) : option R :=
  match xs with
  | [] => None
  | x :: xs => Some (fold_left Rmax xs x)
  end.

(** Lines 179-183: the appearance embeddings of the images, from the
    camera identifiers collected by the loop. *)
Definition normalize_appearance_embedding
    (appearance_embedding_list : list Z) : option (list R) :=
  let appearance_embedding := map IZR appearance_embedding_list in
  m ← torch_max appearance_embedding;
  Some (map (fun a => a / m) appearance_embedding).

End ColmapImages.

(* ===================================================================== *)
(** * Vocabulary of the properties, and sample inputs *)
(* ===================================================================== *)

Import Tensor.
Open Scope R_scope.

Definition identity3 : matrix := [[1; 0; 0]; [0; 1; 0]; [0; 0; 1]].

(** A batch of one camera, at [(-1, 0, 0)] looking down the z axis, with a
    90 degree field of view. *)
Definition sample_camera : Cameras.init_fields := {|
  Cameras.init_R := [identity3];
  Cameras.init_T := [[1; 0; 0]];
  Cameras.init_fx := [1];
  Cameras.init_fy := [1];
  Cameras.init_cx := [1];
  Cameras.init_cy := [1];
  Cameras.init_width := [2];
  Cameras.init_height := [2];
  Cameras.init_appearance_embedding := [0];
  Cameras.init_distortion_params := None;
  Cameras.init_camera_type := [0%Z];
|}.

(** The pose before the transposition: [Rm] in the top-left 3x3, [Tv] in the top-right column, bottom row [0, 0, 0, 1]. *)
Definition pose_matrix (Rm : matrix) (Tv : list R) : matrix :=
  [[get Rm 0 0; get Rm 0 1; get Rm 0 2; nth 0 Tv 0];
   [get Rm 1 0; get Rm 1 1; get Rm 1 2; nth 1 Tv 0];
   [get Rm 2 0; get Rm 2 1; get Rm 2 2; nth 2 Tv 0];
   [0; 0; 0; 1]].

(** Row 3, columns 0..2. *)
Definition translation_row (M : matrix) : list R :=
  [get M 3 0; get M 3 1; get M 3 2].

(** [X] is a two-sided inverse of [W]. *)
Definition inverse_of (W X : matrix) : Prop :=
  matmul W X = eye /\ matmul X W = eye.

(** The focal length reconstructed from a field of view:
    [(dimension / 2) / tan(fov / 2)]. *)
Definition fov2focal (fov dimension : R) : R :=
  (dimension / 2) / tan (fov / 2).





(** Two cameras sharing one focal length: [fx] and [fy] have length 1, the
    other arrays length 2. *)
Definition broadcast_focal_cameras : Cameras.init_fields := {|
  Cameras.init_R := [identity3; identity3];
  Cameras.init_T := [[1; 0; 0]; [0; 1; 0]];
  Cameras.init_fx := [1];
  Cameras.init_fy := [1];
  Cameras.init_cx := [1; 1];
  Cameras.init_cy := [1; 1];
  Cameras.init_width := [2; 2];
  Cameras.init_height := [2; 2];
  Cameras.init_appearance_embedding := [0; 0];
  Cameras.init_distortion_params := None;
  Cameras.init_camera_type := [0%Z; 0%Z];
|}.

(** Two rotations with three translations. *)
Definition mismatched_T_cameras : Cameras.init_fields := {|
  Cameras.init_R := [identity3; identity3];
  Cameras.init_T := [[1; 0; 0]; [0; 1; 0]; [0; 0; 1]];
  Cameras.init_fx := [1; 1];
  Cameras.init_fy := [1; 1];
  Cameras.init_cx := [1; 1];
  Cameras.init_cy := [1; 1];
  Cameras.init_width := [2; 2];
  Cameras.init_height := [2; 2];
  Cameras.init_appearance_embedding := [0; 0];
  Cameras.init_distortion_params := None;
  Cameras.init_camera_type := [0%Z; 0%Z];
|}.


(** [k] is an appearance identifier observed in the training data. *)
Definition observed (ids : option (gmap string (Z * R))) (k : Z) : Prop :=
  match ids with
  | None => False
  | Some m => exists name v, m !! name = Some v /\ v.1 = k
  end.


(** Appearance identifiers index the embedding table: they are not
    negative. *)
Definition ids_nonnegative (ids : option (gmap string (Z * R))) : Prop :=
  forall j, observed ids j -> (0 <= j)%Z.

(** A module with the default configuration, before [setup]. *)
Definition fresh_module : AppearanceEmbeddingRenderer.module_state := {|
  AppearanceEmbeddingRenderer.config_model :=
    AppearanceEmbeddingRenderer.default_ModelConfig;
  AppearanceEmbeddingRenderer.config_optimization :=
    AppearanceEmbeddingRenderer.default_OptimizationConfig;
  AppearanceEmbeddingRenderer.model := None;
  AppearanceEmbeddingRenderer.trace := [];
|}.

(** The appearance groups of a data set with the identifiers 0 and 2. *)
Definition sample_ids : gmap string (Z * R) :=
  <["indoor" := (0%Z, 0)]> (<["outdoor" := (2%Z, 1)]> ∅).

(** The ground truth with the rendered value substituted at every masked
    pixel. *)
Fixpoint substitute_masked (mask : list bool) (render gt : list R)
  : list R :=
  match mask, render, gt with
  | m :: mask', r :: render', g :: gt' =>
      (if m then r else g) :: substitute_masked mask' render' gt'
  | _, _, _ => []
  end.

(** A stand-in for the structural-similarity index of identical images. *)
Definition constant_ssim (x y : list R) : R := 1.

(** Sample options: densification from step 500 to 15000 every 100 steps,
    opacity reset every 3000 steps. *)
Definition default_optimization : GaussianSplatting.OptimizationParams := {|
  GaussianSplatting.lambda_dssim := 2 / 10;
  GaussianSplatting.densify_from_iter := 500;
  GaussianSplatting.densify_until_iter := 15000;
  GaussianSplatting.densification_interval := 100;
  GaussianSplatting.opacity_reset_interval := 3000;
  GaussianSplatting.densify_grad_threshold := 2 / 10000;
|}.

(** The most recent opacity-reset boundary at [step]: the largest multiple
    of the reset interval not exceeding the step. *)
Definition most_recent_reset_boundary (opacity_reset_interval step : Z) : Z :=
  (opacity_reset_interval * (step / opacity_reset_interval))%Z.

(** The test of the split loop: [i % eval_step == 0]. *)
Definition is_eval_index (eval_step : Z) (i : nat) : bool :=
  (Z.of_nat i mod eval_step =? 0)%Z.

(** The projection [_calculate_ndc_projection_matrix] builds for one
    camera before the transposition, in terms of the half field-of-view
    tangents. *)
Definition frustum_matrix (tanHalfFovX tanHalfFovY : R) : matrix :=
  let top := tanHalfFovY * Cameras.znear in
  let bottom := - top in
  let right := tanHalfFovX * Cameras.znear in
  let left := - right in
  [[2 * Cameras.znear / (right - left); 0; (right + left) / (right - left); 0];
   [0; 2 * Cameras.znear / (top - bottom); (top + bottom) / (top - bottom); 0];
   [0; 0; 1 * Cameras.zfar / (Cameras.zfar - Cameras.znear);
    - (Cameras.zfar * Cameras.znear) / (Cameras.zfar - Cameras.znear)];
   [0; 0; 1; 0]].

(** The same matrix in terms of the focal scales [2 fx / width] and
    [2 fy / height]. *)
Definition ndc_matrix (scale_x scale_y : R) : matrix :=
  [[scale_x; 0; 0; 0];
   [0; scale_y; 0; 0];
   [0; 0; 10000 / 9999; - 100 / 9999];
   [0; 0; 1; 0]].

(** The columns of a rotation block are orthonormal. *)
Definition orthonormal (Rm : matrix) : Prop :=
  forall j k, (j < 3)%nat -> (k < 3)%nat ->
    get Rm 0 j * get Rm 0 k + get Rm 1 j * get Rm 1 k
      + get Rm 2 j * get Rm 2 k = (if Nat.eqb j k then 1 else 0).

(** The arrays construction reads have one entry per camera. *)
Definition same_batch (a : Cameras.init_fields) (n : nat) : Prop :=
  length (Cameras.init_R a) = n /\ length (Cameras.init_T a) = n /\
  length (Cameras.init_fx a) = n /\ length (Cameras.init_fy a) = n /\
  length (Cameras.init_width a) = n /\ length (Cameras.init_height a) = n.

(** Three cameras of which the second is turned a quarter turn about the
    z axis. *)
Definition quarter_turn : matrix := [[0; -1; 0]; [1; 0; 0]; [0; 0; 1]].

Definition three_cameras : Cameras.init_fields := {|
  Cameras.init_R := [identity3; quarter_turn; identity3];
  Cameras.init_T := [[1; 0; 0]; [1; 2; 3]; [0; 0; 1]];
  Cameras.init_fx := [1; 2; 3];
  Cameras.init_fy := [1; 2; 3];
  Cameras.init_cx := [1; 1; 1];
  Cameras.init_cy := [1; 1; 1];
  Cameras.init_width := [2; 2; 4];
  Cameras.init_height := [2; 2; 2];
  Cameras.init_appearance_embedding := [0; 1 / 2; 1];
  Cameras.init_distortion_params := None;
  Cameras.init_camera_type := [0%Z; 0%Z; 0%Z];
|}.

(** Every array of a constructed batch has [n] entries. *)
Definition batch_size (self : Cameras.t) (n : nat) : Prop :=
  length (Cameras.cam_R self) = n /\ length (Cameras.cam_T self) = n /\
  length (Cameras.fx self) = n /\ length (Cameras.fy self) = n /\
  length (Cameras.fov_x self) = n /\ length (Cameras.fov_y self) = n /\
  length (Cameras.cx self) = n /\ length (Cameras.cy self) = n /\
  length (Cameras.width self) = n /\ length (Cameras.height self) = n /\
  length (Cameras.appearance_embedding self) = n /\
  length (Cameras.distortion_params self) = n /\
  length (Cameras.camera_type self) = n /\
  length (Cameras.world_to_camera self) = n /\
  length (Cameras.projection self) = n /\
  length (Cameras.full_projection self) = n /\
  length (Cameras.camera_center self) = n.

(** [- R^T T], the camera center of an orthonormal pose. *)
Definition minus_Rt_T (Rm : matrix) (Tv : list R) : list R :=
  [- (get Rm 0 0 * nth 0 Tv 0 + get Rm 1 0 * nth 1 Tv 0
      + get Rm 2 0 * nth 2 Tv 0);
   - (get Rm 0 1 * nth 0 Tv 0 + get Rm 1 1 * nth 1 Tv 0
      + get Rm 2 1 * nth 2 Tv 0);
   - (get Rm 0 2 * nth 0 Tv 0 + get Rm 1 2 * nth 1 Tv 0
      + get Rm 2 2 * nth 2 Tv 0)].

(** The position a Python index selects in an array of [n] entries. *)
Definition position (n : nat) (index : Z) : nat :=
  Z.to_nat (if (index <? 0)%Z then (Z.of_nat n + index)%Z else index).

(** The remaining arrays of the constructor have one entry per camera. *)
Definition same_batch_rest (a : Cameras.init_fields) (n : nat) : Prop :=
  length (Cameras.init_cx a) = n /\ length (Cameras.init_cy a) = n /\
  length (Cameras.init_appearance_embedding a) = n /\
  length (Cameras.init_camera_type a) = n /\
  match Cameras.init_distortion_params a with
  | Some d => length d = n
  | None => True
  end.

(** The Euclidean norm of a row. *)
Definition euclidean_norm (v : list R) : R :=
  sqrt (fold_right Rplus 0 (map (fun x => x * x) v)).

(** A Gaussian model of three primitives, a camera at the origin, and
    stand-ins for the kernels of the renderer. *)
Definition three_gaussians : AppearanceEmbeddingRenderer.GaussianModel := {|
  AppearanceEmbeddingRenderer.is_pre_activated := false;
  AppearanceEmbeddingRenderer.active_sh_degree := 0;
  AppearanceEmbeddingRenderer.get_xyz := [[3; 0; 4]; [0; 0; 0]; [0; 2; 0]];
  AppearanceEmbeddingRenderer.get_shs := [[0]; [0]; [0]];
  AppearanceEmbeddingRenderer.get_shs_dc := [[0]; [0]; [0]];
  AppearanceEmbeddingRenderer.get_shs_rest := [[0]; [0]; [0]];
  AppearanceEmbeddingRenderer.get_appearance_features :=
    [[1; 0]; [0; 1]; [1; 1]];
  AppearanceEmbeddingRenderer.n_gaussians := 3;
|}.

Definition origin_camera : AppearanceEmbeddingRenderer.Camera := {|
  AppearanceEmbeddingRenderer.camera_center := [0; 0; 0];
  AppearanceEmbeddingRenderer.appearance_id := 1;
|}.

Definition gray_sh (degree : Z) (dirs coeffs : list (list R))
    (masks : option (list bool)) : list (list R) :=
  map (fun _ => [0; 0; 0]) dirs.

Definition gray_sh_decomposed (degree : Z) (dirs dc coeffs : list (list R))
    (masks : option (list bool)) : list (list R) :=
  map (fun _ => [0; 0; 0]) dirs.

Definition half_model (features : list (list R)) (appearance : Z)
    (view_dirs : list (list R)) : list (list R) :=
  map (fun _ => [1 / 2; 1 / 2; 1 / 2]) features.

(** Two ground-truth images agree wherever the mask is not set. *)
Definition agree_outside (mask : list bool) (gt gt' : list R) : Prop :=
  forall i, nth i mask true = false -> nth i gt 0 = nth i gt' 0.

(** The sum of the absolute differences of two images. *)
Definition sum_abs_difference (xs ys : list R) : R :=
  fold_right Rplus 0 (map Rabs (zip_with Rminus xs ys)).

(** The text every output file of one output path is made of around the
    step number. *)
Definition iteration_prefix (output_path : string) : string :=
  let point_cloud := TrainingStep.os_path_join output_path "point_cloud" in
  if (String.eqb point_cloud "" || TrainingStep.ends_with_slash point_cloud)%bool
  then (point_cloud ++ "iteration_")%string
  else (point_cloud ++ "/iteration_")%string.

(** The last character of a path, as a string; empty for the empty path. *)
Definition last_char (s : string) : string :=
  String.substring (String.length s - 1) 1 s.

(** The camera models the parser handles. *)
Definition supported_model (model : string) : Prop :=
  model = "SIMPLE_PINHOLE" \/ model = "PINHOLE".

(** A camera has the parameters its model is read with. *)
Definition enough_params (c : ColmapImages.Camera) : Prop :=
  (ColmapImages.model c = "SIMPLE_PINHOLE" ->
   (3 <= length (ColmapImages.params c))%nat) /\
  (ColmapImages.model c = "PINHOLE" ->
   (4 <= length (ColmapImages.params c))%nat).

(** A sparse model of two cameras, a pinhole one with one focal length and
    a fisheye one, and two images of the first. *)
Definition two_colmap_cameras : gmap Z ColmapImages.Camera :=
  <[1%Z := {| ColmapImages.model := "SIMPLE_PINHOLE";
              ColmapImages.width := 640; ColmapImages.height := 480;
              ColmapImages.params := [500; 320; 240] |}]>
    (<[2%Z := {| ColmapImages.model := "OPENCV_FISHEYE";
                 ColmapImages.width := 640; ColmapImages.height := 480;
                 ColmapImages.params := [500; 500; 320; 240] |}]> ∅).

Definition two_colmap_images : list ColmapImages.Image :=
  [ {| ColmapImages.camera_id := 1; ColmapImages.name := "a.jpg" |};
    {| ColmapImages.camera_id := 1; ColmapImages.name := "b.jpg" |} ].

Definition fisheye_image : ColmapImages.Image :=
  {| ColmapImages.camera_id := 2; ColmapImages.name := "c.jpg" |}.

Definition no_masks (path : string) : bool := false.

(** Every row of a tensor [N, n] has [n] columns. *)
Definition has_columns (n : Z) (rows : list (list R)) : Prop :=
  List.Forall (fun row => Z.of_nat (length row) = n) rows.

(** A model of two feature columns and one embedding column, with
    normalization. *)
Definition two_by_one_config : AppearanceEmbeddingRenderer.ModelConfig := {|
  AppearanceEmbeddingRenderer.n_gaussian_feature_dims := 2;
  AppearanceEmbeddingRenderer.n_appearances := 2;
  AppearanceEmbeddingRenderer.n_appearance_embedding_dims := 1;
  AppearanceEmbeddingRenderer.is_view_dependent := false;
  AppearanceEmbeddingRenderer.n_view_direction_frequencies := 4;
  AppearanceEmbeddingRenderer.n_neurons := 64;
  AppearanceEmbeddingRenderer.n_layers := 3;
  AppearanceEmbeddingRenderer.skip_layers := [];
  AppearanceEmbeddingRenderer.normalize := true;
  AppearanceEmbeddingRenderer.tcnn := false;
|}.

(* ===================================================================== *)
(** * Properties *)
(* ===================================================================== *)

(** ** Tensors *)

Ltac mat_unfold :=
  repeat (progress (unfold matmul, adjugate, transpose, eye, assign, zeros,
                      cofactor, minor, det, tabulate, sum_upto, get, skip,
                      sign; simpl)).

Ltac mat_ring := mat_unfold; unfold Rdiv; repeat (f_equal; try ring).

Lemma bind_OK {A B} (m : result A) (k : A -> result B) (b : B) :
  m ≫= k = OK b -> exists a, m = OK a /\ k a = OK b.
Proof. destruct m as [a|e]; simpl; [eauto | discriminate]. Qed.

Lemma zip_with_length {A B C} (f : A -> B -> C) xs ys :
  length xs = length ys -> length (zip_with f xs ys) = length xs.
Proof.
  revert ys; induction xs as [|x xs IH]; intros [|y ys] H; simpl in *;
    try discriminate; auto.
Qed.

Lemma zip_with_nth_error {A B C} (f : A -> B -> C) xs ys i x y :
  nth_error xs i = Some x -> nth_error ys i = Some y ->
  nth_error (zip_with f xs ys) i = Some (f x y).
Proof.
  revert ys i; induction xs as [|x0 xs IH]; intros [|y0 ys] [|i] Hx Hy;
    simpl in *; try discriminate.
  - congruence.
  - eauto.
Qed.

Lemma expand_length {A} n (v v' : list A) :
  expand n v = OK v' -> length v' = n.
Proof.
  unfold expand. destruct (Nat.eqb_spec (length v) n) as [E|E].
  - intros [= <-]; exact E.
  - destruct v as [|x [|y v]]; try discriminate.
    intros [= <-]. apply repeat_length.
Qed.

Lemma expand_succeeds {A} n (v : list A) :
  succeeds (expand n v) <-> length v = n \/ length v = 1%nat.
Proof.
  unfold succeeds, expand. destruct (Nat.eqb_spec (length v) n) as [E|E].
  - split; eauto.
  - destruct v as [|x [|y v]]; simpl in *; split;
      try (intros [a Ha]; discriminate); try (intros [H|H]; lia); eauto.
Qed.

Lemma expand_same {A} (v : list A) : expand (length v) v = OK v.
Proof. unfold expand. rewrite Nat.eqb_refl. reflexivity. Qed.

Lemma expand_eq {A} n (v : list A) : length v = n -> expand n v = OK v.
Proof. intros <-. apply expand_same. Qed.


(** The Laplace expansions: a matrix times its adjugate is the determinant
    times the identity, on both sides. *)
Lemma matmul_adjugate_r M :
  matmul M (adjugate M) =
  tabulate 4 4 (fun i j => if Nat.eqb i j then det 4 M else 0).
Proof. mat_ring. Qed.

Lemma matmul_adjugate_l M :
  matmul (adjugate M) M =
  tabulate 4 4 (fun i j => if Nat.eqb i j then det 4 M else 0).
Proof. mat_ring. Qed.

Lemma matmul_scale_r M A d :
  matmul M (tabulate 4 4 (fun i j => get A i j / d)) =
  tabulate 4 4 (fun i j => get (matmul M A) i j / d).
Proof. mat_ring. Qed.

Lemma matmul_scale_l M A d :
  matmul (tabulate 4 4 (fun i j => get A i j / d)) M =
  tabulate 4 4 (fun i j => get (matmul A M) i j / d).
Proof. mat_ring. Qed.

Lemma scaled_diagonal d :
  d <> 0 ->
  tabulate 4 4
    (fun i j =>
       get (tabulate 4 4 (fun i j => if Nat.eqb i j then d else 0)) i j / d)
  = eye.
Proof. intros Hd. mat_unfold. repeat (f_equal; try (field; assumption)). Qed.

(** [linalg_inv] returns a two-sided inverse. *)
Lemma linalg_inv_inverse M X :
  linalg_inv M = OK X -> matmul M X = eye /\ matmul X M = eye.
Proof.
  unfold linalg_inv. destruct (Req_dec_T (det 4 M) 0) as [|Hd];
    [discriminate|].
  intros [= <-].
  rewrite matmul_scale_r, matmul_scale_l, matmul_adjugate_r,
    matmul_adjugate_l.
  split; apply scaled_diagonal; assumption.
Qed.

Lemma linalg_inv_succeeds M : succeeds (linalg_inv M) <-> det 4 M <> 0.
Proof.
  unfold succeeds, linalg_inv.
  destruct (Req_dec_T (det 4 M) 0) as [E|E]; split; eauto.
  - intros [X HX]; discriminate.
  - intros H; contradiction.
Qed.

Lemma linalg_inv_nonsingular M :
  det 4 M <> 0 ->
  linalg_inv M = OK (tabulate 4 4 (fun i j => get (adjugate M) i j / det 4 M)).
Proof.
  intros H. unfold linalg_inv.
  destruct (Req_dec_T (det 4 M) 0); [contradiction | reflexivity].
Qed.

(** The determinant of the stored world-to-camera matrix is the
    determinant of the rotation block. *)
Lemma det_w2c_matrix Rm Tv :
  det 4 (Cameras.w2c_matrix Rm Tv) = det 3 Rm.
Proof. unfold Cameras.w2c_matrix. mat_unfold. ring. Qed.

(** ** Camera model *)

Lemma post_init_Constructed a c :
  Cameras.__post_init__ a = Cameras.Constructed c ->
  Cameras._calculate_fov a = OK (Cameras.fov_x c, Cameras.fov_y c) /\
  Cameras._calculate_w2c a = OK (Cameras.world_to_camera c) /\
  Cameras._calculate_ndc_projection_matrix
    (Cameras.fov_x c) (Cameras.fov_y c) (Cameras.world_to_camera c)
    = OK (Cameras.projection c, Cameras.full_projection c) /\
  Cameras._calculate_camera_center (Cameras.world_to_camera c)
    = OK (Cameras.camera_center c) /\
  Cameras.cam_R c = Cameras.init_R a /\
  Cameras.cam_T c = Cameras.init_T a /\
  Cameras.fx c = Cameras.init_fx a /\
  Cameras.fy c = Cameras.init_fy a /\
  Cameras.width c = Cameras.init_width a /\
  Cameras.height c = Cameras.init_height a.
Proof.
  unfold Cameras.__post_init__, Cameras.run.
  destruct (Cameras._calculate_fov a) as [[fx fy]|]; [|discriminate].
  destruct (Cameras._calculate_w2c a) as [w|]; [|discriminate].
  destruct (Cameras._calculate_ndc_projection_matrix fx fy w)
    as [[p f]|] eqn:Hp; [|discriminate].
  destruct (Cameras._calculate_camera_center w) as [cc|] eqn:Hc;
    [|discriminate].
  intros [= <-]; simpl. repeat split; assumption.
Qed.

Lemma ndc_projection_bmm fov_x fov_y W P F :
  Cameras._calculate_ndc_projection_matrix fov_x fov_y W = OK (P, F) ->
  bmm W P = OK F.
Proof.
  unfold Cameras._calculate_ndc_projection_matrix. intros H.
  do 4 (apply bind_OK in H; destruct H as (? & _ & H)).
  apply bind_OK in H. destruct H as (F' & HF & H).
  injection H as <- <-. exact HF.
Qed.

Lemma bmm_OK A B F :
  bmm A B = OK F -> length A = length B /\ F = zip_with matmul A B.
Proof.
  unfold bmm. destruct (Nat.eqb_spec (length A) (length B)); [|discriminate].
  intros [= <-]. auto.
Qed.

Lemma sample_camera_nonsingular :
  det 4 (Cameras.w2c_matrix identity3 [1; 0; 0]) <> 0.
Proof. rewrite det_w2c_matrix. unfold identity3. mat_unfold. lra. Qed.

Ltac run_post_init :=
  unfold Cameras.__post_init__, sample_camera, Cameras._calculate_fov,
    Cameras._calculate_w2c, Cameras._calculate_ndc_projection_matrix,
    Cameras._calculate_camera_center, Cameras.fov_of; simpl;
  rewrite (linalg_inv_nonsingular _ sample_camera_nonsingular); simpl.

(** C1. For every constructed camera batch, [full_projection] is the
    batched matrix product of the stored [world_to_camera] with the stored
    [projection], world-to-camera on the left; and it is not the product in
    the reverse order: on [sample_camera] the two differ. *)
Theorem full_projection_is_w2c_times_projection :
  (forall a c,
     Cameras.__post_init__ a = Cameras.Constructed c ->
     length (Cameras.world_to_camera c) = length (Cameras.projection c) /\
     Cameras.full_projection c =
       zip_with matmul (Cameras.world_to_camera c) (Cameras.projection c)) /\
  (exists c,
     Cameras.__post_init__ sample_camera = Cameras.Constructed c /\
     Cameras.full_projection c <>
       zip_with matmul (Cameras.projection c) (Cameras.world_to_camera c)).
Proof.
  split.
  - intros a c H. apply post_init_Constructed in H.
    destruct H as (_ & _ & H & _). apply ndc_projection_bmm in H.
    apply bmm_OK in H. exact H.
  - eexists. split; [run_post_init; reflexivity|].
    intros E. apply (f_equal (fun l => get (nth 0 l []) 2 0)) in E.
    revert E. unfold Cameras.w2c_matrix, identity3. simpl. mat_unfold.
    intros E. ring_simplify in E. lra.
Qed.


Lemma w2c_matrix_pose Rm Tv :
  Cameras.w2c_matrix Rm Tv = transpose (pose_matrix Rm Tv).
Proof. unfold Cameras.w2c_matrix, pose_matrix. mat_unfold. reflexivity. Qed.


Lemma traverse_Forall2 {A B} (f : A -> result B) xs ys :
  traverse f xs = OK ys -> List.Forall2 (fun x y => f x = OK y) xs ys.
Proof.
  revert ys; induction xs as [|x xs IH]; simpl; intros ys H.
  - injection H as <-. constructor.
  - apply bind_OK in H. destruct H as (b & Hb & H).
    apply bind_OK in H. destruct H as (bs & Hbs & H).
    injection H as <-. constructor; auto.
Qed.

Lemma traverse_succeeds {A B} (f : A -> result B) xs :
  succeeds (traverse f xs) <-> List.Forall (fun x => succeeds (f x)) xs.
Proof.
  unfold succeeds. induction xs as [|x xs IH]; simpl.
  - split; [constructor | eauto].
  - split.
    + intros [ys H]. apply bind_OK in H. destruct H as (b & Hb & H).
      apply bind_OK in H. destruct H as (bs & Hbs & _).
      constructor; [eauto | apply IH; eauto].
    + intros H. inversion H as [|? ? [b Hb] Hxs]; subst.
      apply IH in Hxs. destruct Hxs as [bs Hbs].
      rewrite Hb, Hbs. simpl. eauto.
Qed.



(** The inverse is unique, so the camera center is determined by the
    stored matrix: any two-sided inverse has the same translation row. *)
Lemma matmul_assoc A B C :
  matmul (matmul A B) C = matmul A (matmul B C).
Proof. mat_ring. Qed.

Lemma matmul_eye_l A : matmul eye A = tabulate 4 4 (get A).
Proof. mat_ring. Qed.

Lemma matmul_eye_r A : matmul A eye = tabulate 4 4 (get A).
Proof. mat_ring. Qed.

Lemma inverse_unique W X Y :
  inverse_of W X -> inverse_of W Y -> translation_row X = translation_row Y.
Proof.
  intros [_ HX] [HY _].
  assert (E : tabulate 4 4 (get X) = tabulate 4 4 (get Y)).
  { rewrite <- (matmul_eye_r X), <- HY, <- matmul_assoc, HX.
    apply matmul_eye_l. }
  unfold translation_row.
  assert (G : forall M i j, (i < 4)%nat -> (j < 4)%nat ->
              get (tabulate 4 4 (get M)) i j = get M i j).
  { intros M i j Hi Hj.
    do 4 (destruct i as [|i]; [do 4 (destruct j as [|j]; [reflexivity|]); lia|]).
    lia. }
  rewrite <- !(G X), <- !(G Y), E by lia. reflexivity.
Qed.

(** The camera center is the world-space point the pose maps to the
    origin: [R c + T = 0]. *)
Lemma camera_center_is_world_origin Rm Tv X :
  linalg_inv (Cameras.w2c_matrix Rm Tv) = OK X ->
  forall i, (i < 3)%nat ->
    get Rm i 0 * get X 3 0 + get Rm i 1 * get X 3 1 + get Rm i 2 * get X 3 2
      + nth i Tv 0 = 0.
Proof.
  intros HX i Hi. apply linalg_inv_inverse in HX. destruct HX as [_ HX].
  pose proof (f_equal (fun M => get M 3 3) HX) as H33.
  apply (f_equal (fun M => get M 3 i)) in HX. revert HX H33.
  unfold Cameras.w2c_matrix.
  do 3 (destruct i as [|i];
        [mat_unfold; intros HX H33;
         assert (E : nth 3 (nth 3 X []) 0 = 1) by lra;
         rewrite E in HX; lra|]).
  lia.
Qed.

Lemma fov2focal_atan d f :
  0 < d -> 0 < f -> fov2focal (2 * atan (d / 2 / f)) d = f.
Proof.
  intros Hd Hf. unfold fov2focal.
  replace (2 * atan (d / 2 / f) / 2) with (atan (d / 2 / f)) by lra.
  rewrite tan_atan. field. lra.
Qed.

Lemma elementwise_same_length {A B C} (f : A -> B -> C) xs ys :
  length xs = length ys -> elementwise f xs ys = OK (zip_with f xs ys).
Proof.
  intros E. unfold elementwise, broadcast_size.
  rewrite E, Nat.eqb_refl. simpl.
  rewrite (expand_eq _ xs E), expand_same. reflexivity.
Qed.

Lemma fov_of_same_length dims focals :
  length dims = length focals ->
  Cameras.fov_of dims focals =
    OK (zip_with (fun d f => 2 * atan (d / 2 / f)) dims focals).
Proof.
  intros E. unfold Cameras.fov_of.
  rewrite elementwise_same_length by (rewrite length_map; exact E).
  simpl. f_equal. clear E.
  revert focals; induction dims as [|d dims IH]; intros [|f focals]; simpl;
    auto. rewrite IH. reflexivity.
Qed.

Lemma fov2focal_round_trip dims focals :
  length dims = length focals ->
  List.Forall (fun d => 0 < d) dims -> List.Forall (fun f => 0 < f) focals ->
  zip_with fov2focal
    (zip_with (fun d f => 2 * atan (d / 2 / f)) dims focals) dims = focals.
Proof.
  revert focals; induction dims as [|d dims IH]; intros [|f focals] E Hd Hf;
    simpl in *; try discriminate; auto.
  inversion Hd; inversion Hf; subst.
  rewrite fov2focal_atan, IH by (auto; lia). reflexivity.
Qed.

(** C3. For cameras with positive focal lengths and positive image
    dimensions, [_calculate_fov] returns the fields of view, and the focal
    lengths reconstructed from them as [(dimension / 2) / tan(fov / 2)] are
    the original ones, for x and for y. *)
Theorem fov_round_trip a :
  length (Cameras.init_width a) = length (Cameras.init_fx a) ->
  length (Cameras.init_height a) = length (Cameras.init_fy a) ->
  List.Forall (fun d => 0 < d) (Cameras.init_width a) ->
  List.Forall (fun d => 0 < d) (Cameras.init_height a) ->
  List.Forall (fun f => 0 < f) (Cameras.init_fx a) ->
  List.Forall (fun f => 0 < f) (Cameras.init_fy a) ->
  exists fov_x fov_y,
    Cameras._calculate_fov a = OK (fov_x, fov_y) /\
    fov_x = zip_with (fun d f => 2 * atan (d / 2 / f))
              (Cameras.init_width a) (Cameras.init_fx a) /\
    fov_y = zip_with (fun d f => 2 * atan (d / 2 / f))
              (Cameras.init_height a) (Cameras.init_fy a) /\
    zip_with fov2focal fov_x (Cameras.init_width a) = Cameras.init_fx a /\
    zip_with fov2focal fov_y (Cameras.init_height a) = Cameras.init_fy a.
Proof.
  intros Ex Ey Hw Hh Hfx Hfy. unfold Cameras._calculate_fov.
  rewrite (fov_of_same_length _ _ Ex), (fov_of_same_length _ _ Ey). simpl.
  do 2 eexists. split; [reflexivity|].
  split; [reflexivity|]. split; [reflexivity|].
  split; apply fov2focal_round_trip; assumption.
Qed.

Lemma fov_round_trip_witness :
  exists fov_x fov_y,
    Cameras._calculate_fov sample_camera = OK (fov_x, fov_y) /\
    fov_x = zip_with (fun d f => 2 * atan (d / 2 / f)) [2] [1] /\
    fov_y = zip_with (fun d f => 2 * atan (d / 2 / f)) [2] [1] /\
    zip_with fov2focal fov_x [2] = [1] /\
    zip_with fov2focal fov_y [2] = [1].
Proof.
  apply (fov_round_trip sample_camera); simpl;
    solve [reflexivity | repeat constructor; lra].
Defined.

(** The comment at [P[:, 0, 0]]: the entry is [1 / tanHalfFovX], that is
    [2 * fx / width]. *)
Lemma projection_scale w f :
  0 < w -> 0 < f ->
  let right := tan (2 * atan (w / 2 / f) / 2) * Cameras.znear in
  let left := - right in
  2 * Cameras.znear / (right - left) = 2 * f / w.
Proof.
  intros Hw Hf. simpl.
  replace (2 * atan (w / 2 / f) / 2) with (atan (w / 2 / f)) by lra.
  rewrite tan_atan. unfold Cameras.znear. field. lra.
Qed.

(** *** Shapes: when construction fails *)












Lemma identity3_pose_nonsingular Tv :
  det 4 (Cameras.w2c_matrix identity3 Tv) <> 0.
Proof. rewrite det_w2c_matrix. unfold identity3. mat_unfold. lra. Qed.


(** A translation array of another length than the rotations is noticed
    only by the slice assignment of the world-to-camera step, after the
    fields of view have been computed. *)
Lemma mismatched_T_fails_in_w2c :
  succeeds (Cameras._calculate_fov mismatched_T_cameras) /\
  Cameras.__post_init__ mismatched_T_cameras
    = Cameras.Failed Cameras.CalculateW2c ShapeMismatch.
Proof.
  split; [eexists; reflexivity | reflexivity].
Qed.

(** And a size-1 array is broadcast silently. *)
Lemma size_one_arrays_are_broadcast :
  length (Cameras.init_fx broadcast_focal_cameras)
    <> length (Cameras.init_R broadcast_focal_cameras) /\
  exists c,
    Cameras.__post_init__ broadcast_focal_cameras = Cameras.Constructed c /\
    length (Cameras.fov_x c) = 2%nat /\
    length (Cameras.full_projection c) = 2%nat.
Proof.
  split; [simpl; lia|].
  unfold Cameras.__post_init__, broadcast_focal_cameras,
    Cameras._calculate_fov, Cameras._calculate_w2c,
    Cameras._calculate_ndc_projection_matrix,
    Cameras._calculate_camera_center, Cameras.fov_of; simpl.
  rewrite !(linalg_inv_nonsingular _ (identity3_pose_nonsingular _)); simpl.
  eexists. repeat split; reflexivity.
Qed.

(** ** Appearance-embedding renderer *)

Lemma masked_assign_select {A} (mask : list bool) (xs vs r : list A) :
  masked_assign mask xs vs = OK r -> masked_select mask r = vs.
Proof.
  revert xs vs r; induction mask as [|m mask IH]; intros xs vs r.
  - simpl. destruct xs, vs; intros [= <-]; reflexivity.
  - destruct xs as [|x xs]; simpl.
    + destruct vs; intros [= <-]; reflexivity.
    + destruct m.
      * destruct vs as [|v vs]; [discriminate|]. intros H.
        apply bind_OK in H. destruct H as (r' & Hr & [= <-]).
        simpl. f_equal. eauto.
      * intros H. apply bind_OK in H. destruct H as (r' & Hr & [= <-]).
        simpl. eauto.
Qed.




Lemma clamp_range x : 0 <= clamp 0 1 x <= 1.
Proof.
  unfold clamp. split.
  - apply Rmin_glb; [apply Rmax_l | lra].
  - apply Rmin_r.
Qed.



Section ColorsFacts.

Import AppearanceEmbeddingRenderer.

Variable spherical_harmonics :
  Z -> list (list R) -> list (list R) -> option (list bool) -> list (list R).
Variable spherical_harmonics_decomposed :
  Z -> list (list R) -> list (list R) -> list (list R) ->
  option (list bool) -> list (list R).
Variable model_forward :
  list (list R) -> Z -> list (list R) -> list (list R).
Variable project : Camera -> GaussianModel -> R -> list bool.
Variable rasterize :
  Camera -> GaussianModel -> list (list R) -> list R -> R -> list R.



End ColorsFacts.

(** *** Sizing of the appearance table *)

Section Sizing.

Import AppearanceEmbeddingRenderer.

Lemma max_input_id_of_spec (ids : option appearance_group_ids) :
  let r := max_input_id_of ids in
  (0 <= r)%Z /\
  (forall j, observed ids j -> (j <= r)%Z) /\
  (r = 0%Z \/ observed ids r).
Proof.
  destruct ids as [m|]; simpl; [|repeat split; [lia | tauto | auto]].
  apply (map_fold_weak_ind
           (fun r m => (0 <= r)%Z /\
                       (forall j, (exists name v, m !! name = Some v
                                                  /\ v.1 = j) -> (j <= r)%Z) /\
                       (r = 0%Z \/ exists name v, m !! name = Some v
                                                  /\ v.1 = r))).
  - repeat split; [lia | | auto].
    intros j (name & v & H & _). rewrite lookup_empty in H. discriminate.
  - intros i x m' r Hi (H0 & Hle & Hmax).
    destruct (Z.ltb_spec r x.1) as [Hlt|Hge].
    + repeat split; [lia | |].
      * intros j (name & v & H & <-).
        destruct (decide (name = i)) as [->|Hne].
        -- rewrite lookup_insert_eq in H. injection H as <-. lia.
        -- rewrite lookup_insert_ne in H by congruence.
           assert (v.1 <= r)%Z by (apply Hle; eauto). lia.
      * right. exists i, x. rewrite lookup_insert_eq. auto.
    + repeat split; [lia | |].
      * intros j (name & v & H & <-).
        destruct (decide (name = i)) as [->|Hne].
        -- rewrite lookup_insert_eq in H. injection H as <-. lia.
        -- rewrite lookup_insert_ne in H by congruence. apply Hle; eauto.
      * destruct Hmax as [->|(name & v & H & Hv)]; [auto|].
        right. exists name, v. split; [|exact Hv].
        rewrite lookup_insert_ne; [exact H|]. intros ->. congruence.
Qed.



End Sizing.

Lemma sample_ids_nonnegative : ids_nonnegative (Some sample_ids).
Proof.
  intros j (name & v & H & <-). unfold sample_ids in H.
  apply lookup_insert_Some in H. destruct H as [[_ <-]|[_ H]]; [simpl; lia|].
  apply lookup_insert_Some in H. destruct H as [[_ <-]|[_ H]]; [simpl; lia|].
  rewrite lookup_empty in H. discriminate.
Qed.


(** On the sample data the table gets three rows. *)
Lemma sample_ids_max_input_id :
  AppearanceEmbeddingRenderer.max_input_id_of (Some sample_ids) = 2%Z.
Proof.
  pose proof (max_input_id_of_spec (Some sample_ids)) as (_ & Hle & Hmax).
  cbv zeta in Hle, Hmax.
  assert (2 <= AppearanceEmbeddingRenderer.max_input_id_of (Some sample_ids))%Z.
  { apply Hle. exists "outdoor", (2%Z, 1). split; [|reflexivity].
    unfold sample_ids. rewrite lookup_insert_ne by discriminate.
    apply lookup_insert_eq. }
  clear Hle.
  destruct Hmax as [E|(name & v & Hv & E)]; [lia|].
  unfold sample_ids in Hv.
  apply lookup_insert_Some in Hv. destruct Hv as [[_ <-]|[_ Hv]];
    [cbn [fst] in E; lia|].
  apply lookup_insert_Some in Hv. destruct Hv as [[_ <-]|[_ Hv]];
    [cbn [fst] in E; lia|].
  rewrite lookup_empty in Hv. discriminate Hv.
Qed.

Lemma sample_ids_table_size :
  AppearanceEmbeddingRenderer.n_appearances
    (AppearanceEmbeddingRenderer.config_model
       (AppearanceEmbeddingRenderer.setup (Some (Some sample_ids))
          fresh_module)) = 3%Z.
Proof.
  unfold AppearanceEmbeddingRenderer.setup.
  rewrite sample_ids_max_input_id. reflexivity.
Qed.

(** A configured positive size is left alone by [setup]. *)
Lemma setup_keeps_configured_size self ids :
  (0 < AppearanceEmbeddingRenderer.n_appearances
         (AppearanceEmbeddingRenderer.config_model self))%Z ->
  AppearanceEmbeddingRenderer.config_model
    (AppearanceEmbeddingRenderer.setup (Some ids) self)
  = AppearanceEmbeddingRenderer.config_model self.
Proof.
  intros H. unfold AppearanceEmbeddingRenderer.setup.
  destruct (Z.leb_spec
              (AppearanceEmbeddingRenderer.n_appearances
                 (AppearanceEmbeddingRenderer.config_model self)) 0);
    [lia | reflexivity].
Qed.

(** *** Learning-rate schedules *)

Lemma IZR_max_0 a : IZR (Z.max a 0) = Rmax 0 (IZR a).
Proof.
  destruct (Z.le_ge_cases a 0) as [H|H].
  - rewrite Z.max_r by exact H. rewrite Rmax_left; [reflexivity|].
    apply (IZR_le a 0). exact H.
  - rewrite Z.max_l by lia. rewrite Rmax_right; [reflexivity|].
    apply (IZR_le 0 a). lia.
Qed.

(** The exponent of the schedule is the clamped progress. *)
Lemma schedule_exponent (a m : Z) :
  (0 < m)%Z ->
  Rmin (IZR (Z.max a 0) / IZR m) 1 = clamp 0 1 (IZR a / IZR m).
Proof.
  intros Hm. unfold clamp. f_equal. rewrite IZR_max_0.
  assert (0 < IZR m) by (apply (IZR_lt 0 m); exact Hm).
  assert (0 < / IZR m) by (apply Rinv_0_lt_compat; assumption).
  unfold Rdiv. destruct (Rle_lt_dec 0 (IZR a)) as [Ha|Ha].
  - rewrite !Rmax_right; [reflexivity | | exact Ha].
    apply Rmult_le_pos; lra.
  - rewrite !Rmax_left; [lra | | lra].
    assert (IZR a * / IZR m < 0) by nra. lra.
Qed.

Lemma lr_lambda_value name lr_init lr_final_factor max_steps eps warm_up t :
  (0 < max_steps)%Z ->
  AppearanceEmbeddingRenderer.get_lr
    (AppearanceEmbeddingRenderer._create_optimizer_and_scheduler
       name lr_init lr_final_factor max_steps eps warm_up).2 t
  = OK (lr_init *
        Rpower lr_final_factor
          (clamp 0 1 (IZR (t - warm_up) / IZR max_steps))).
Proof.
  intros Hm. unfold AppearanceEmbeddingRenderer.get_lr,
    AppearanceEmbeddingRenderer._create_optimizer_and_scheduler,
    AppearanceEmbeddingRenderer.true_div,
    AppearanceEmbeddingRenderer.float_pow. simpl.
  destruct (Z.eqb_spec max_steps 0); [lia|]. simpl.
  rewrite schedule_exponent by exact Hm. reflexivity.
Qed.

Lemma clamp_below x : x <= 0 -> clamp 0 1 x = 0.
Proof.
  intros H. unfold clamp. rewrite Rmax_left by exact H.
  apply Rmin_left. lra.
Qed.

Lemma clamp_above x : 1 <= x -> clamp 0 1 x = 1.
Proof.
  intros H. unfold clamp. rewrite Rmax_right by lra.
  apply Rmin_right. exact H.
Qed.

Lemma clamp_inside x : 0 <= x <= 1 -> clamp 0 1 x = x.
Proof.
  intros H. unfold clamp. rewrite Rmax_right by lra.
  apply Rmin_left. lra.
Qed.

Lemma progress_sign (a m : Z) :
  (0 < m)%Z ->
  ((a <= 0)%Z -> IZR a / IZR m <= 0) /\
  ((0 <= a)%Z -> 0 <= IZR a / IZR m) /\
  ((m <= a)%Z -> 1 <= IZR a / IZR m) /\
  ((a <= m)%Z -> IZR a / IZR m <= 1).
Proof.
  intros Hm.
  assert (Hm' : 0 < IZR m) by (apply (IZR_lt 0 m); exact Hm).
  repeat split; intros H.
  - apply (IZR_le a 0) in H. apply Rmult_le_reg_r with (IZR m); [lra|].
    unfold Rdiv. rewrite Rmult_assoc, Rinv_l by lra. lra.
  - apply (IZR_le 0 a) in H. apply Rmult_le_reg_r with (IZR m); [lra|].
    unfold Rdiv. rewrite Rmult_assoc, Rinv_l by lra. lra.
  - apply IZR_le in H. apply Rmult_le_reg_r with (IZR m); [lra|].
    unfold Rdiv. rewrite Rmult_assoc, Rinv_l by lra. lra.
  - apply IZR_le in H. apply Rmult_le_reg_r with (IZR m); [lra|].
    unfold Rdiv. rewrite Rmult_assoc, Rinv_l by lra. lra.
Qed.

(** C7. With [max_steps > 0] and a positive final factor, the two
    schedules [training_setup] creates, for the embedding table and for
    the network, give at every step [t] the rate
    [lr_init * final_factor ^ clamp((t - warm_up) / max_steps, 0, 1)],
    [lr_init] being [embedding_lr_init] for the table and [lr_init] for
    the network, and the factor [lr_final_factor] for both: the rate is
    [lr_init] up to [warm_up], decays exponentially in
    [(t - warm_up) / max_steps] after it, and stays at
    [lr_init * final_factor] from [t - warm_up >= max_steps] on. *)
Theorem appearance_lr_schedules
    (o : AppearanceEmbeddingRenderer.OptimizationConfig) (t : Z) :
  (0 < AppearanceEmbeddingRenderer.max_steps o)%Z ->
  0 < AppearanceEmbeddingRenderer.lr_final_factor o ->
  let warmup := AppearanceEmbeddingRenderer.warm_up o in
  let max_steps := AppearanceEmbeddingRenderer.max_steps o in
  let final_factor := AppearanceEmbeddingRenderer.lr_final_factor o in
  let progress := IZR (t - warmup) / IZR max_steps in
  exists embedding_optimizer network_optimizer
         embedding_scheduler network_scheduler,
    AppearanceEmbeddingRenderer.training_setup o =
      ([embedding_optimizer; network_optimizer],
       [embedding_scheduler; network_scheduler]) /\
    forall (schedule : AppearanceEmbeddingRenderer.scheduler) (lr_init : R),
      (schedule = embedding_scheduler /\
       lr_init = AppearanceEmbeddingRenderer.embedding_lr_init o) \/
      (schedule = network_scheduler /\
       lr_init = AppearanceEmbeddingRenderer.lr_init o) ->
      let rate := AppearanceEmbeddingRenderer.get_lr schedule t in
      rate = OK (lr_init * Rpower final_factor (clamp 0 1 progress)) /\
      ((t <= warmup)%Z -> rate = OK lr_init) /\
      ((warmup <= t <= warmup + max_steps)%Z ->
       rate = OK (lr_init * Rpower final_factor progress)) /\
      ((max_steps <= t - warmup)%Z -> rate = OK (lr_init * final_factor)).
Proof.
  intros Hm Hf. cbv zeta.
  unfold AppearanceEmbeddingRenderer.training_setup.
  exists (AppearanceEmbeddingRenderer._create_optimizer_and_scheduler
            "embedding" (AppearanceEmbeddingRenderer.embedding_lr_init o)
            (AppearanceEmbeddingRenderer.lr_final_factor o)
            (AppearanceEmbeddingRenderer.max_steps o)
            (AppearanceEmbeddingRenderer.eps o)
            (AppearanceEmbeddingRenderer.warm_up o)).1,
         (AppearanceEmbeddingRenderer._create_optimizer_and_scheduler
            "embedding_network" (AppearanceEmbeddingRenderer.lr_init o)
            (AppearanceEmbeddingRenderer.lr_final_factor o)
            (AppearanceEmbeddingRenderer.max_steps o)
            (AppearanceEmbeddingRenderer.eps o)
            (AppearanceEmbeddingRenderer.warm_up o)).1,
         (AppearanceEmbeddingRenderer._create_optimizer_and_scheduler
            "embedding" (AppearanceEmbeddingRenderer.embedding_lr_init o)
            (AppearanceEmbeddingRenderer.lr_final_factor o)
            (AppearanceEmbeddingRenderer.max_steps o)
            (AppearanceEmbeddingRenderer.eps o)
            (AppearanceEmbeddingRenderer.warm_up o)).2,
         (AppearanceEmbeddingRenderer._create_optimizer_and_scheduler
            "embedding_network" (AppearanceEmbeddingRenderer.lr_init o)
            (AppearanceEmbeddingRenderer.lr_final_factor o)
            (AppearanceEmbeddingRenderer.max_steps o)
            (AppearanceEmbeddingRenderer.eps o)
            (AppearanceEmbeddingRenderer.warm_up o)).2.
  split; [reflexivity|].
  pose proof (progress_sign (t - AppearanceEmbeddingRenderer.warm_up o)
                (AppearanceEmbeddingRenderer.max_steps o) Hm)
    as (Hneg & Hpos & Hbig & Hsmall).
  intros schedule lr_init [[-> ->]|[-> ->]];
    (rewrite lr_lambda_value by exact Hm;
     split; [reflexivity|]; split; [|split]; intros Ht; do 2 f_equal;
     [ rewrite clamp_below by (apply Hneg; lia);
       rewrite Rpower_O by exact Hf; lra
     | rewrite clamp_inside by (split; [apply Hpos | apply Hsmall]; lia);
       reflexivity
     | rewrite clamp_above by (apply Hbig; lia);
       apply Rpower_1; exact Hf ]).
Qed.

Lemma appearance_lr_schedules_witness :
  let o := AppearanceEmbeddingRenderer.default_OptimizationConfig in
  let t := 19000%Z in
  let progress := IZR (t - 4000) / IZR 30000 in
  exists embedding_optimizer network_optimizer
         embedding_scheduler network_scheduler,
    AppearanceEmbeddingRenderer.training_setup o =
      ([embedding_optimizer; network_optimizer],
       [embedding_scheduler; network_scheduler]) /\
    forall (schedule : AppearanceEmbeddingRenderer.scheduler) (lr_init : R),
      (schedule = embedding_scheduler /\ lr_init = 2 / 1000) \/
      (schedule = network_scheduler /\ lr_init = 1 / 1000) ->
      let rate := AppearanceEmbeddingRenderer.get_lr schedule t in
      rate = OK (lr_init * Rpower (1 / 10) (clamp 0 1 progress)) /\
      ((t <= 4000)%Z -> rate = OK lr_init) /\
      ((4000 <= t <= 4000 + 30000)%Z ->
       rate = OK (lr_init * Rpower (1 / 10) progress)) /\
      ((30000 <= t - 4000)%Z -> rate = OK (lr_init * (1 / 10))).
Proof.
  apply (appearance_lr_schedules
           AppearanceEmbeddingRenderer.default_OptimizationConfig 19000).
  - simpl. lia.
  - simpl. lra.
Defined.

(** The embedding table's schedule does not read
    [embedding_lr_final_factor]: it decays by [lr_final_factor], like the
    network's. *)
Lemma embedding_schedule_factor
    (o : AppearanceEmbeddingRenderer.OptimizationConfig) (f : R) :
  AppearanceEmbeddingRenderer.training_setup
    {| AppearanceEmbeddingRenderer.gamma_eps :=
         AppearanceEmbeddingRenderer.gamma_eps o;
       AppearanceEmbeddingRenderer.embedding_lr_init :=
         AppearanceEmbeddingRenderer.embedding_lr_init o;
       AppearanceEmbeddingRenderer.embedding_lr_final_factor := f;
       AppearanceEmbeddingRenderer.lr_init :=
         AppearanceEmbeddingRenderer.lr_init o;
       AppearanceEmbeddingRenderer.lr_final_factor :=
         AppearanceEmbeddingRenderer.lr_final_factor o;
       AppearanceEmbeddingRenderer.eps := AppearanceEmbeddingRenderer.eps o;
       AppearanceEmbeddingRenderer.max_steps :=
         AppearanceEmbeddingRenderer.max_steps o;
       AppearanceEmbeddingRenderer.warm_up :=
         AppearanceEmbeddingRenderer.warm_up o |}
  = AppearanceEmbeddingRenderer.training_setup o.
Proof. reflexivity. Qed.

(** With [max_steps = 0] the schedule raises on its first evaluation. *)
Lemma zero_max_steps_raises name lr_init lr_final_factor eps warm_up t :
  AppearanceEmbeddingRenderer.get_lr
    (AppearanceEmbeddingRenderer._create_optimizer_and_scheduler
       name lr_init lr_final_factor 0 eps warm_up).2 t
  = Raise ZeroDivisionError.
Proof. reflexivity. Qed.

(** ** Training step *)

Lemma masked_copy (mask : list bool) (render gt : list R) :
  length mask = length render -> length gt = length render ->
  masked_assign mask gt (masked_select mask render)
    = OK (substitute_masked mask render gt).
Proof.
  revert render gt; induction mask as [|m mask IH];
    intros [|r render] [|g gt] Hm Hg; simpl in *; try discriminate;
    try reflexivity.
  destruct m; rewrite IH by lia; reflexivity.
Qed.

Lemma substitute_masked_length mask render gt :
  length mask = length render -> length gt = length render ->
  length (substitute_masked mask render gt) = length render.
Proof.
  revert render gt; induction mask as [|m mask IH];
    intros [|r render] [|g gt] Hm Hg; simpl in *; try discriminate;
    try reflexivity.
  rewrite IH by lia. reflexivity.
Qed.

Lemma substitute_fully_masked mask render gt :
  length mask = length render -> length gt = length render ->
  List.Forall (fun m => m = true) mask ->
  substitute_masked mask render gt = render.
Proof.
  revert render gt; induction mask as [|m mask IH];
    intros [|r render] [|g gt] Hm Hg Hall; simpl in *; try discriminate;
    try reflexivity.
  inversion Hall; subst. rewrite IH by (auto; lia). reflexivity.
Qed.

Lemma mean_abs_self_difference xs :
  mean (map Rabs (zip_with Rminus xs xs)) = 0.
Proof.
  unfold mean.
  assert (E : fold_right Rplus 0 (map Rabs (zip_with Rminus xs xs)) = 0).
  { induction xs as [|x xs IH]; simpl; [reflexivity|].
    rewrite IH. unfold Rminus. rewrite Rplus_opp_r, Rabs_R0. lra. }
  rewrite E. unfold Rdiv. apply Rmult_0_l.
Qed.

Section LossFacts.

Variable ssim : list R -> list R -> R.

(** C8. With a mask, the loss terms are computed on the ground truth in
    which every masked pixel has been replaced by the rendered value: the
    L1 term is the mean absolute difference to it, and the SSIM term
    compares with it.  For an image of which every pixel is masked, the L1
    loss is 0, whatever was rendered. *)
Theorem masked_pixels_are_excluded (lambda_dssim : R)
    (render gt_image : list R) (masked_pixels : list bool) :
  render <> [] ->
  length gt_image = length render ->
  length masked_pixels = length render ->
  exists l,
    GaussianSplatting.calculate_loss ssim lambda_dssim render gt_image
      (Some masked_pixels) = OK l /\
    GaussianSplatting.gt_used l =
      substitute_masked masked_pixels render gt_image /\
    GaussianSplatting.l1_loss l =
      mean (map Rabs (zip_with Rminus render (GaussianSplatting.gt_used l))) /\
    GaussianSplatting.ssim_metric l =
      ssim render (GaussianSplatting.gt_used l) /\
    GaussianSplatting.loss l =
      (1 - lambda_dssim) * GaussianSplatting.l1_loss l
      + lambda_dssim * (1 - GaussianSplatting.ssim_metric l) /\
    (List.Forall (fun m => m = true) masked_pixels ->
     GaussianSplatting.gt_used l = render /\
     GaussianSplatting.l1_loss l = 0).
Proof.
  intros _ Hg Hm. unfold GaussianSplatting.calculate_loss.
  rewrite masked_copy by assumption. simpl.
  rewrite elementwise_same_length
    by (rewrite substitute_masked_length; auto).
  simpl. eexists. split; [reflexivity|]. simpl.
  repeat split; try reflexivity.
  - apply substitute_fully_masked; assumption.
  - rewrite substitute_fully_masked by assumption.
    apply mean_abs_self_difference.
Qed.

(** Without a mask the ground truth is used as it is. *)
Lemma unmasked_ground_truth lambda_dssim render gt_image l :
  GaussianSplatting.calculate_loss ssim lambda_dssim render gt_image None
    = OK l ->
  GaussianSplatting.gt_used l = gt_image.
Proof.
  unfold GaussianSplatting.calculate_loss. simpl. intros H.
  apply bind_OK in H. destruct H as (diff & _ & [= <-]). reflexivity.
Qed.

End LossFacts.

Lemma masked_pixels_are_excluded_witness :
  exists l,
    GaussianSplatting.calculate_loss constant_ssim (2 / 10) [1 / 2; 1 / 4] [1; 0]
      (Some [true; true]) = OK l /\
    GaussianSplatting.gt_used l =
      substitute_masked [true; true] [1 / 2; 1 / 4] [1; 0] /\
    GaussianSplatting.l1_loss l =
      mean (map Rabs (zip_with Rminus [1 / 2; 1 / 4]
                        (GaussianSplatting.gt_used l))) /\
    GaussianSplatting.ssim_metric l =
      constant_ssim [1 / 2; 1 / 4] (GaussianSplatting.gt_used l) /\
    GaussianSplatting.loss l =
      (1 - 2 / 10) * GaussianSplatting.l1_loss l
      + 2 / 10 * (1 - GaussianSplatting.ssim_metric l) /\
    (List.Forall (fun m => m = true) [true; true] ->
     GaussianSplatting.gt_used l = [1 / 2; 1 / 4] /\
     GaussianSplatting.l1_loss l = 0).
Proof.
  apply (masked_pixels_are_excluded constant_ssim (2 / 10) [1 / 2; 1 / 4] [1; 0]
           [true; true]).
  - discriminate.
  - reflexivity.
  - reflexivity.
Defined.


(** *** Density control *)

Lemma most_recent_reset_boundary_spec interval step :
  (0 < interval)%Z ->
  let b := most_recent_reset_boundary interval step in
  (interval | b)%Z /\ (b <= step)%Z /\
  forall b', (interval | b')%Z -> (b' <= step)%Z -> (b' <= b)%Z.
Proof.
  intros Hi. unfold most_recent_reset_boundary. cbv zeta. repeat split.
  - exists (step / interval)%Z. lia.
  - apply Z.mul_div_le. exact Hi.
  - intros b' [k ->] Hk.
    assert (k <= step / interval)%Z by (apply Z.div_le_lower_bound; lia).
    nia.
Qed.

(** C9, as the code has it.  At every density-control step ([step <
    densify_until_iter], [step > densify_from_iter], [step %
    densification_interval == 0]) grow/prune is invoked, with the
    screen-size threshold 20 exactly when [step > opacity_reset_interval],
    that is once the first opacity-reset boundary has been passed, and with
    no threshold otherwise. *)
Theorem size_threshold_after_first_reset
    (o : GaussianSplatting.OptimizationParams) (cameras_extent : R)
    (background_color : list R) (global_step : Z) :
  (global_step < GaussianSplatting.densify_until_iter o)%Z ->
  (GaussianSplatting.densify_from_iter o < global_step)%Z ->
  GaussianSplatting.densification_interval o <> 0%Z ->
  (global_step mod GaussianSplatting.densification_interval o = 0)%Z ->
  GaussianSplatting.opacity_reset_interval o <> 0%Z ->
  exists calls,
    GaussianSplatting.densification o cameras_extent background_color
      global_step = OK calls /\
    GaussianSplatting.densify_and_prune_threshold calls =
      Some (if (GaussianSplatting.opacity_reset_interval o <? global_step)%Z
            then Some 20%Z else None) /\
    (GaussianSplatting.densify_and_prune_threshold calls = Some (Some 20%Z)
     <-> (GaussianSplatting.opacity_reset_interval o < global_step)%Z) /\
    (GaussianSplatting.densify_and_prune_threshold calls = Some None
     <-> (global_step <= GaussianSplatting.opacity_reset_interval o)%Z).
Proof.
  intros Hu Hf Hi Hm Hr. unfold GaussianSplatting.densification.
  apply Z.ltb_lt in Hu, Hf. rewrite Hu, Hf.
  unfold GaussianSplatting.py_mod.
  destruct (Z.eqb_spec (GaussianSplatting.densification_interval o) 0);
    [contradiction|].
  destruct (Z.eqb_spec (GaussianSplatting.opacity_reset_interval o) 0);
    [contradiction|].
  simpl. rewrite Hm. simpl.
  match goal with
  | |- context [if ?c then _ else _] => destruct c
  end;
    (eexists; split; [reflexivity|];
     unfold GaussianSplatting.densify_and_prune_threshold; simpl;
     destruct (Z.ltb_spec (GaussianSplatting.opacity_reset_interval o)
                 global_step);
     repeat split; intros; (reflexivity || lia || discriminate)).
Qed.

Lemma size_threshold_after_first_reset_witness :
  exists calls,
    GaussianSplatting.densification default_optimization 1 [0; 0; 0] 3100
      = OK calls /\
    GaussianSplatting.densify_and_prune_threshold calls =
      Some (if (3000 <? 3100)%Z then Some 20%Z else None) /\
    (GaussianSplatting.densify_and_prune_threshold calls = Some (Some 20%Z)
     <-> (3000 < 3100)%Z) /\
    (GaussianSplatting.densify_and_prune_threshold calls = Some None
     <-> (3100 <= 3000)%Z).
Proof.
  apply (size_threshold_after_first_reset default_optimization 1 [0; 0; 0]
           3100); simpl; try lia; reflexivity.
Defined.

Lemma densification_at_6000 :
  GaussianSplatting.densification default_optimization 1 [0; 0; 0] 6000
  = OK [GaussianSplatting.UpdateMaxRadii2D;
        GaussianSplatting.AddDensificationStats;
        GaussianSplatting.DensifyAndPrune (2 / 10000) (5 / 1000) 1
          (Some 20%Z);
        GaussianSplatting.ResetOpacity].
Proof. reflexivity. Qed.

Lemma densification_at_600 :
  GaussianSplatting.densification default_optimization 1 [0; 0; 0] 600
  = OK [GaussianSplatting.UpdateMaxRadii2D;
        GaussianSplatting.AddDensificationStats;
        GaussianSplatting.DensifyAndPrune (2 / 10000) (5 / 1000) 1 None].
Proof.
  unfold GaussianSplatting.densification. simpl.
  rewrite andb_false_r. reflexivity.
Qed.

(** Against C9 as stated.  Step 6000 is a density-control step of the
    reference configuration at which the most recent opacity-reset boundary
    is 6000 itself, so it has not been passed, and grow/prune is invoked
    with the threshold; at step 600 the boundary 0 has been passed, and
    grow/prune is invoked without one. *)
Lemma threshold_ignores_most_recent_boundary :
  (most_recent_reset_boundary 3000 6000 = 6000%Z /\
   ~ (most_recent_reset_boundary 3000 6000 < 6000)%Z /\
   (exists calls,
      GaussianSplatting.densification default_optimization 1 [0; 0; 0] 6000
        = OK calls /\
      GaussianSplatting.densify_and_prune_threshold calls
        = Some (Some 20%Z))) /\
  ((most_recent_reset_boundary 3000 600 < 600)%Z /\
   (exists calls,
      GaussianSplatting.densification default_optimization 1 [0; 0; 0] 600
        = OK calls /\
      GaussianSplatting.densify_and_prune_threshold calls = Some None)).
Proof.
  split; [split; [reflexivity | split; [vm_compute; discriminate|]] | split].
  - eexists. split; [apply densification_at_6000 | reflexivity].
  - vm_compute. reflexivity.
  - eexists. split; [apply densification_at_600 | reflexivity].
Qed.

(** ** COLMAP split *)

Lemma split_loop eval_step (l training validation : list nat) :
  fold_left
    (fun '(training_set_indices, validation_set_indices) i =>
       if (Z.of_nat i mod eval_step =? 0)%Z
       then (training_set_indices, validation_set_indices ++ [i])
       else (training_set_indices ++ [i], validation_set_indices))
    l (training, validation)
  = (training ++ List.filter (fun i => negb (is_eval_index eval_step i)) l,
     validation ++ List.filter (is_eval_index eval_step) l).
Proof.
  revert training validation; induction l as [|i l IH]; intros tr va; simpl.
  - rewrite !app_nil_r. reflexivity.
  - change (Z.of_nat i mod eval_step =? 0)%Z
      with (is_eval_index eval_step i).
    destruct (is_eval_index eval_step i); simpl; rewrite IH;
      rewrite <- ?app_assoc; reflexivity.
Qed.

Lemma split_permutation (f : nat -> bool) (l : list nat) :
  Permutation.Permutation
    (List.filter (fun i => negb (f i)) l ++ List.filter f l) l.
Proof.
  induction l as [|i l IH]; simpl; [constructor|].
  destruct (f i); simpl.
  - apply Permutation.Permutation_sym, Permutation.Permutation_cons_app,
      Permutation.Permutation_sym, IH.
  - constructor. exact IH.
Qed.

(** C10. With [eval_step <= 1] the training set is every index in order
    and the validation set is the single index 0, which is a training
    index as well (there is at least one image).  With [eval_step > 1] the
    validation set is the indices divisible by [eval_step], the training
    set the others, both in order; they are disjoint and cover the
    images. *)
Theorem split_indices (eval_step : Z) (n_images : nat) :
  let '(training, validation) :=
    ColmapDataParser.build_split_indices eval_step n_images in
  ((eval_step <= 1)%Z ->
   training = seq 0 n_images /\
   validation = [0%nat] /\
   ((0 < n_images)%nat -> In 0%nat training /\ In 0%nat validation)) /\
  ((1 < eval_step)%Z ->
   validation =
     List.filter (fun i => (Z.of_nat i mod eval_step =? 0)%Z)
       (seq 0 n_images) /\
   training =
     List.filter (fun i => negb (Z.of_nat i mod eval_step =? 0)%Z)
       (seq 0 n_images) /\
   (forall i, In i validation <->
              (i < n_images)%nat /\ (eval_step | Z.of_nat i)%Z) /\
   (forall i, In i training <->
              (i < n_images)%nat /\ ~ (eval_step | Z.of_nat i)%Z) /\
   (forall i, ~ (In i training /\ In i validation)) /\
   (forall i, (i < n_images)%nat <-> In i training \/ In i validation) /\
   Permutation.Permutation (training ++ validation) (seq 0 n_images)).
Proof.
  unfold ColmapDataParser.build_split_indices.
  destruct (Z.ltb_spec 1 eval_step) as [H|H].
  - rewrite split_loop. simpl. split; [lia|]. intros _.
    assert (D : forall i, is_eval_index eval_step i = true
                          <-> (eval_step | Z.of_nat i)%Z).
    { intros i. unfold is_eval_index. rewrite Z.eqb_eq.
      rewrite Z.mod_divide by lia. reflexivity. }
    assert (V : forall i,
               In i (List.filter (is_eval_index eval_step) (seq 0 n_images))
               <-> (i < n_images)%nat /\ (eval_step | Z.of_nat i)%Z).
    { intros i. rewrite filter_In, in_seq, D. intuition lia. }
    assert (T : forall i,
               In i (List.filter
                       (fun i => negb (is_eval_index eval_step i))
                       (seq 0 n_images))
               <-> (i < n_images)%nat /\ ~ (eval_step | Z.of_nat i)%Z).
    { intros i. rewrite filter_In, in_seq, negb_true_iff, <- D.
      destruct (is_eval_index eval_step i); intuition (lia || congruence). }
    split; [reflexivity|]. split; [reflexivity|].
    split; [exact V|]. split; [exact T|].
    split; [|split].
    + intros i. rewrite V, T. tauto.
    + intros i. rewrite V, T.
      pose proof (D i) as Di.
      destruct (is_eval_index eval_step i); intuition congruence.
    + apply split_permutation.
  - split; [|lia]. intros _. split; [reflexivity|]. split; [reflexivity|].
    intros Hn. split; [apply in_seq; lia | left; reflexivity].
Qed.

(** On the image names: with [eval_step <= 1] and at least one image, the
    training set is all the images and the validation set is the first
    one. *)
Lemma split_image_names_all eval_step name names :
  (eval_step <= 1)%Z ->
  ColmapDataParser.split_image_names eval_step (name :: names)
  = OK (name :: names, [name]).
Proof.
  intros H. unfold ColmapDataParser.split_image_names,
    ColmapDataParser.build_split_indices.
  destruct (Z.ltb_spec 1 eval_step); [lia|].
  assert (G : forall (l : list string) k pre,
             length pre = k ->
             ColmapDataParser.gather (pre ++ l) (seq k (length l)) = OK l).
  { unfold ColmapDataParser.gather.
    induction l as [|x l IH]; intros k pre Hk; [reflexivity|].
    simpl. rewrite nth_error_app2 by lia.
    replace (k - length pre)%nat with 0%nat by lia. simpl.
    replace (pre ++ x :: l) with ((pre ++ [x]) ++ l)
      by (rewrite <- app_assoc; reflexivity).
    rewrite IH by (rewrite length_app; simpl; lia). reflexivity. }
  pose proof (G (name :: names) 0%nat [] eq_refl) as G0.
  cbn [app] in G0. cbv beta iota zeta. rewrite G0. reflexivity.
Qed.

(** An empty model has no split. *)
Lemma split_image_names_empty eval_step :
  ColmapDataParser.split_image_names eval_step [] = Raise ValueError.
Proof. reflexivity. Qed.

(* ===================================================================== *)
(** * Further properties *)
(* ===================================================================== *)

(** ** Camera model: shapes, fields of view, projection, center *)

Ltac solve_length :=
  repeat first [ rewrite length_map
               | rewrite repeat_length
               | rewrite zip_with_length by solve_length ];
  try solve [reflexivity | assumption | symmetry; assumption].

Lemma assign_entries_same_length P r c v :
  length v = length P ->
  Cameras.assign_entries P r c v =
    OK (zip_with (fun Pi vi => assign Pi (Cameras.at_entry r c)
                                 (fun _ _ => vi)) P v).
Proof.
  intros E. unfold Cameras.assign_entries. rewrite expand_eq by exact E.
  reflexivity.
Qed.

Lemma zip_with_map_l {A A' B C} (f : A' -> B -> C) (g : A -> A') xs ys :
  zip_with f (map g xs) ys = zip_with (fun x y => f (g x) y) xs ys.
Proof.
  revert ys; induction xs as [|x xs IH]; intros [|y ys]; simpl; auto.
  rewrite IH. reflexivity.
Qed.

Lemma zip_with_map_r {A B B' C} (f : A -> B' -> C) (g : B -> B') xs ys :
  zip_with f xs (map g ys) = zip_with (fun x y => f x (g y)) xs ys.
Proof.
  revert ys; induction xs as [|x xs IH]; intros [|y ys]; simpl; auto.
  rewrite IH. reflexivity.
Qed.

Lemma map_zip_with {A B C D} (g : C -> D) (f : A -> B -> C) xs ys :
  map g (zip_with f xs ys) = zip_with (fun x y => g (f x y)) xs ys.
Proof.
  revert ys; induction xs as [|x xs IH]; intros [|y ys]; simpl; auto.
  rewrite IH. reflexivity.
Qed.


(** With one field of view per camera, the projection step is the
    per-camera frustum, transposed, and the batched product with it. *)
Lemma ndc_projection_same_length fov_x fov_y W :
  length fov_x = length fov_y -> length W = length fov_y ->
  let projection :=
    zip_with (fun fx fy =>
                transpose (frustum_matrix (tan (fx / 2)) (tan (fy / 2))))
      fov_x fov_y in
  Cameras._calculate_ndc_projection_matrix fov_x fov_y W
    = OK (projection, zip_with matmul W projection).
Proof.
  intros Exy EW. cbv zeta.
  unfold Cameras._calculate_ndc_projection_matrix.
  do 4 (rewrite assign_entries_same_length by (solve_length; auto); simpl).
  match goal with
  | |- bmm W ?P ≫= _ = OK (?Q, _) => assert (EP : P = Q)
  end.
  { clear EW. revert fov_y Exy.
    induction fov_x as [|x fov_x IH]; intros [|y fov_y] Exy;
      simpl in *; try discriminate; try reflexivity.
    rewrite IH by lia.
    match goal with
    | |- ?h :: ?t = ?h' :: ?t => assert (Eh : h = h'); [|rewrite Eh; reflexivity]
    end.
    unfold frustum_matrix, Cameras.at_entry. mat_unfold. reflexivity. }
  rewrite EP. unfold bmm.
  rewrite zip_with_length by exact Exy.
  rewrite <- Exy in EW. apply Nat.eqb_eq in EW. rewrite EW. reflexivity.
Qed.


Lemma three_cameras_same_batch : same_batch three_cameras 3.
Proof. repeat split; reflexivity. Qed.


Lemma quarter_turn_pose_nonsingular Tv :
  det 4 (Cameras.w2c_matrix quarter_turn Tv) <> 0.
Proof. rewrite det_w2c_matrix. unfold quarter_turn. mat_unfold. lra. Qed.

Lemma three_cameras_Constructed :
  exists self, Cameras.__post_init__ three_cameras = Cameras.Constructed self.
Proof.
  unfold Cameras.__post_init__, three_cameras, Cameras._calculate_fov,
    Cameras._calculate_w2c, Cameras._calculate_ndc_projection_matrix,
    Cameras._calculate_camera_center, Cameras.fov_of; simpl.
  rewrite !(linalg_inv_nonsingular _ (identity3_pose_nonsingular _)),
    (linalg_inv_nonsingular _ (quarter_turn_pose_nonsingular _)); simpl.
  eexists. reflexivity.
Qed.


Lemma atan_positive x : 0 < x -> 0 < atan x < PI / 2.
Proof.
  intros H. split.
  - rewrite <- atan_0. apply atan_increasing. exact H.
  - apply atan_bound.
Qed.

(** X2. For positive focal lengths and image dimensions, every field of
    view [_calculate_fov] computes lies strictly between 0 and pi. *)
Theorem fov_range (a : Cameras.init_fields) fov_x fov_y :
  length (Cameras.init_width a) = length (Cameras.init_fx a) ->
  length (Cameras.init_height a) = length (Cameras.init_fy a) ->
  List.Forall (fun d => 0 < d) (Cameras.init_width a) ->
  List.Forall (fun d => 0 < d) (Cameras.init_height a) ->
  List.Forall (fun f => 0 < f) (Cameras.init_fx a) ->
  List.Forall (fun f => 0 < f) (Cameras.init_fy a) ->
  Cameras._calculate_fov a = OK (fov_x, fov_y) ->
  List.Forall (fun fov => 0 < fov < PI) fov_x /\
  List.Forall (fun fov => 0 < fov < PI) fov_y.
Proof.
  intros Ex Ey Hw Hh Hfx Hfy. unfold Cameras._calculate_fov.
  rewrite (fov_of_same_length _ _ Ex), (fov_of_same_length _ _ Ey). simpl.
  intros [= <- <-].
  assert (G : forall dims focals,
             List.Forall (fun d => 0 < d) dims ->
             List.Forall (fun f => 0 < f) focals ->
             List.Forall (fun fov => 0 < fov < PI)
               (zip_with (fun d f => 2 * atan (d / 2 / f)) dims focals)).
  { induction dims as [|d dims IH]; intros [|f focals] Hd Hf; simpl;
      try constructor.
    - inversion Hd; inversion Hf; subst.
      assert (0 < d / 2 / f).
      { apply Rdiv_lt_0_compat; [lra | assumption]. }
      pose proof (atan_positive (d / 2 / f)). lra.
    - inversion Hd; inversion Hf; subst. apply IH; assumption. }
  split; apply G; assumption.
Qed.

Lemma fov_range_witness :
  List.Forall (fun fov => 0 < fov < PI)
    (zip_with (fun d f => 2 * atan (d / 2 / f)) [2; 2; 4] [1; 2; 3]) /\
  List.Forall (fun fov => 0 < fov < PI)
    (zip_with (fun d f => 2 * atan (d / 2 / f)) [2; 2; 2] [1; 2; 3]).
Proof.
  apply (fov_range three_cameras); try reflexivity;
    simpl; repeat constructor; lra.
Defined.

Lemma frustum_matrix_scales w f h g :
  0 < w -> 0 < f -> 0 < h -> 0 < g ->
  frustum_matrix (tan (2 * atan (w / 2 / f) / 2))
                 (tan (2 * atan (h / 2 / g) / 2))
  = ndc_matrix (2 * f / w) (2 * g / h).
Proof.
  intros Hw Hf Hh Hg.
  replace (2 * atan (w / 2 / f) / 2) with (atan (w / 2 / f)) by lra.
  replace (2 * atan (h / 2 / g) / 2) with (atan (h / 2 / g)) by lra.
  rewrite !tan_atan.
  unfold frustum_matrix, ndc_matrix, Cameras.znear, Cameras.zfar.
  repeat (f_equal; try (field; lra)).
Qed.

(** X3. For a constructed batch with one positive focal length and image
    dimension per camera, the projection of camera [i] is the transpose of
    the matrix with [2 fx / width] and [2 fy / height] on the diagonal,
    zeros at [0,2] and [1,2], the depth row [zfar / (zfar - znear)],
    [- zfar znear / (zfar - znear)] for [znear = 0.01], [zfar = 100], and
    bottom row [0, 0, 1, 0]: the principal point and the image center play
    no part in it. *)
Theorem projection_entries (a : Cameras.init_fields) (self : Cameras.t)
    (n i : nat) (w f h g : R) :
  Cameras.__post_init__ a = Cameras.Constructed self ->
  same_batch a n ->
  nth_error (Cameras.init_width a) i = Some w ->
  nth_error (Cameras.init_fx a) i = Some f ->
  nth_error (Cameras.init_height a) i = Some h ->
  nth_error (Cameras.init_fy a) i = Some g ->
  0 < w -> 0 < f -> 0 < h -> 0 < g ->
  nth_error (Cameras.projection self) i
    = Some (transpose (ndc_matrix (2 * f / w) (2 * g / h))).
Proof.
  intros Hc (HR & HT & Hfx & Hfy & Hw & Hh) Nw Nf Nh Ng Pw Pf Ph Pg.
  apply post_init_Constructed in Hc.
  destruct Hc as (Hfov & Hw2c & Hndc & _).
  unfold Cameras._calculate_fov in Hfov.
  rewrite !fov_of_same_length in Hfov by congruence. simpl in Hfov.
  injection Hfov as Ex Ey.
  unfold Cameras._calculate_w2c in Hw2c.
  rewrite expand_eq in Hw2c by congruence. simpl in Hw2c.
  injection Hw2c as EW.
  rewrite ndc_projection_same_length in Hndc.
  - cbv zeta in Hndc. injection Hndc as EP _. rewrite <- EP, <- Ex, <- Ey.
    erewrite zip_with_nth_error;
      [| apply zip_with_nth_error; eassumption
       | apply zip_with_nth_error; eassumption].
    rewrite frustum_matrix_scales by assumption. reflexivity.
  - rewrite <- Ex, <- Ey. rewrite !zip_with_length; congruence.
  - rewrite <- EW, <- Ey. rewrite !zip_with_length; congruence.
Qed.

Lemma projection_entries_witness :
  exists self,
    Cameras.__post_init__ three_cameras = Cameras.Constructed self /\
    nth_error (Cameras.projection self) 2
      = Some (transpose (ndc_matrix (2 * 3 / 4) (2 * 3 / 2))).
Proof.
  destruct three_cameras_Constructed as (self & Hself).
  exists self. split; [exact Hself|].
  apply (projection_entries three_cameras self 3 2 4 3 2 3 Hself
           three_cameras_same_batch); try reflexivity; lra.
Defined.

(** What construction computes from arrays with one entry per camera. *)
Lemma constructed_closed_form (a : Cameras.init_fields) (self : Cameras.t)
    (n : nat) :
  Cameras.__post_init__ a = Cameras.Constructed self ->
  same_batch a n ->
  Cameras.fov_x self =
    zip_with (fun d f => 2 * atan (d / 2 / f))
      (Cameras.init_width a) (Cameras.init_fx a) /\
  Cameras.fov_y self =
    zip_with (fun d f => 2 * atan (d / 2 / f))
      (Cameras.init_height a) (Cameras.init_fy a) /\
  Cameras.world_to_camera self =
    zip_with Cameras.w2c_matrix (Cameras.init_R a) (Cameras.init_T a) /\
  Cameras.projection self =
    zip_with (fun fx fy =>
                transpose (frustum_matrix (tan (fx / 2)) (tan (fy / 2))))
      (Cameras.fov_x self) (Cameras.fov_y self) /\
  Cameras.full_projection self =
    zip_with matmul (Cameras.world_to_camera self)
      (Cameras.projection self) /\
  exists inv,
    List.Forall2 (fun W X => linalg_inv W = OK X)
      (Cameras.world_to_camera self) inv /\
    Cameras.camera_center self = map translation_row inv.
Proof.
  intros Hc (HR & HT & Hfx & Hfy & Hw & Hh).
  apply post_init_Constructed in Hc.
  destruct Hc as (Hfov & Hw2c & Hndc & Hcc & _).
  unfold Cameras._calculate_fov in Hfov.
  rewrite !fov_of_same_length in Hfov by congruence. simpl in Hfov.
  injection Hfov as Ex Ey.
  unfold Cameras._calculate_w2c in Hw2c.
  rewrite expand_eq in Hw2c by congruence. simpl in Hw2c.
  injection Hw2c as EW.
  rewrite ndc_projection_same_length in Hndc
    by (rewrite <- ?EW, <- ?Ex, <- Ey; rewrite !zip_with_length; congruence).
  cbv zeta in Hndc. injection Hndc as EP EF.
  unfold Cameras._calculate_camera_center in Hcc.
  apply bind_OK in Hcc. destruct Hcc as (inv & Hinv & [= Ecc]).
  apply traverse_Forall2 in Hinv.
  repeat split; try (symmetry; assumption).
  - rewrite <- EF, <- EP. reflexivity.
  - exists inv. split; [exact Hinv | symmetry; exact Ecc].
Qed.

Lemma Forall2_nth_error_l {A B} (P : A -> B -> Prop) xs ys i x :
  List.Forall2 P xs ys -> nth_error xs i = Some x ->
  exists y, nth_error ys i = Some y /\ P x y.
Proof.
  intros H. revert i. induction H as [|x0 y0 xs ys Hxy H IH]; intros [|i] Hi;
    simpl in *; try discriminate.
  - injection Hi as <-. eauto.
  - eauto.
Qed.

Lemma orthonormal_center_algebra Rm Tv X :
  orthonormal Rm ->
  linalg_inv (Cameras.w2c_matrix Rm Tv) = OK X ->
  translation_row X = minus_Rt_T Rm Tv.
Proof.
  intros Ho HX.
  pose proof (camera_center_is_world_origin Rm Tv X HX) as Hc.
  pose proof (Hc 0%nat ltac:(lia)) as C0.
  pose proof (Hc 1%nat ltac:(lia)) as C1.
  pose proof (Hc 2%nat ltac:(lia)) as C2.
  clear Hc HX.
  pose proof (Ho 0%nat 0%nat ltac:(lia) ltac:(lia)) as H00.
  pose proof (Ho 0%nat 1%nat ltac:(lia) ltac:(lia)) as H01.
  pose proof (Ho 0%nat 2%nat ltac:(lia) ltac:(lia)) as H02.
  pose proof (Ho 1%nat 0%nat ltac:(lia) ltac:(lia)) as H10.
  pose proof (Ho 1%nat 1%nat ltac:(lia) ltac:(lia)) as H11.
  pose proof (Ho 1%nat 2%nat ltac:(lia) ltac:(lia)) as H12.
  pose proof (Ho 2%nat 0%nat ltac:(lia) ltac:(lia)) as H20.
  pose proof (Ho 2%nat 1%nat ltac:(lia) ltac:(lia)) as H21.
  pose proof (Ho 2%nat 2%nat ltac:(lia) ltac:(lia)) as H22.
  simpl in H00, H01, H02, H10, H11, H12, H20, H21, H22. clear Ho.
  unfold translation_row, minus_Rt_T.
  set (c0 := get X 3 0) in *. set (c1 := get X 3 1) in *.
  set (c2 := get X 3 2) in *.
  assert (T0 : nth 0 Tv 0 =
               - (get Rm 0 0 * c0 + get Rm 0 1 * c1 + get Rm 0 2 * c2))
    by lra.
  assert (T1 : nth 1 Tv 0 =
               - (get Rm 1 0 * c0 + get Rm 1 1 * c1 + get Rm 1 2 * c2))
    by lra.
  assert (T2 : nth 2 Tv 0 =
               - (get Rm 2 0 * c0 + get Rm 2 1 * c1 + get Rm 2 2 * c2))
    by lra.
  rewrite T0, T1, T2. clear T0 T1 T2 C0 C1 C2.
  f_equal; [|f_equal; [|f_equal]].
  - transitivity
      ((get Rm 0 0 * get Rm 0 0 + get Rm 1 0 * get Rm 1 0
        + get Rm 2 0 * get Rm 2 0) * c0
       + (get Rm 0 0 * get Rm 0 1 + get Rm 1 0 * get Rm 1 1
          + get Rm 2 0 * get Rm 2 1) * c1
       + (get Rm 0 0 * get Rm 0 2 + get Rm 1 0 * get Rm 1 2
          + get Rm 2 0 * get Rm 2 2) * c2);
      [rewrite H00, H01, H02; ring | ring].
  - transitivity
      ((get Rm 0 1 * get Rm 0 0 + get Rm 1 1 * get Rm 1 0
        + get Rm 2 1 * get Rm 2 0) * c0
       + (get Rm 0 1 * get Rm 0 1 + get Rm 1 1 * get Rm 1 1
          + get Rm 2 1 * get Rm 2 1) * c1
       + (get Rm 0 1 * get Rm 0 2 + get Rm 1 1 * get Rm 1 2
          + get Rm 2 1 * get Rm 2 2) * c2);
      [rewrite H10, H11, H12; ring | ring].
  - transitivity
      ((get Rm 0 2 * get Rm 0 0 + get Rm 1 2 * get Rm 1 0
        + get Rm 2 2 * get Rm 2 0) * c0
       + (get Rm 0 2 * get Rm 0 1 + get Rm 1 2 * get Rm 1 1
          + get Rm 2 2 * get Rm 2 1) * c1
       + (get Rm 0 2 * get Rm 0 2 + get Rm 1 2 * get Rm 1 2
          + get Rm 2 2 * get Rm 2 2) * c2);
      [rewrite H20, H21, H22; ring | ring].
Qed.

(** X4. For a camera whose rotation block is orthonormal, the camera
    center obtained from the general inverse is [- R^T T]. *)
Theorem orthonormal_camera_center (a : Cameras.init_fields)
    (self : Cameras.t) (n i : nat) (Rm : matrix) (Tv : list R) :
  Cameras.__post_init__ a = Cameras.Constructed self ->
  same_batch a n ->
  nth_error (Cameras.init_R a) i = Some Rm ->
  nth_error (Cameras.init_T a) i = Some Tv ->
  orthonormal Rm ->
  nth_error (Cameras.camera_center self) i = Some (minus_Rt_T Rm Tv).
Proof.
  intros Hc Hb HRm HTv Ho.
  destruct (constructed_closed_form a self n Hc Hb)
    as (_ & _ & EW & _ & _ & inv & Hinv & Ecc).
  assert (HW : nth_error (Cameras.world_to_camera self) i
               = Some (Cameras.w2c_matrix Rm Tv)).
  { rewrite EW. apply zip_with_nth_error; assumption. }
  destruct (Forall2_nth_error_l _ _ _ _ _ Hinv HW) as (X & HX & Hinvert).
  rewrite Ecc, nth_error_map, HX. simpl. f_equal.
  apply orthonormal_center_algebra; assumption.
Qed.

Lemma quarter_turn_orthonormal : orthonormal quarter_turn.
Proof.
  intros j k Hj Hk. unfold quarter_turn, get.
  destruct j as [|[|[|j]]]; destruct k as [|[|[|k]]]; simpl; try lia; lra.
Qed.

Lemma orthonormal_camera_center_witness :
  exists self,
    Cameras.__post_init__ three_cameras = Cameras.Constructed self /\
    nth_error (Cameras.camera_center self) 1
      = Some (minus_Rt_T quarter_turn [1; 2; 3]).
Proof.
  destruct three_cameras_Constructed as (self & Hself).
  exists self. split; [exact Hself|].
  apply (orthonormal_camera_center three_cameras self 3 1 quarter_turn
           [1; 2; 3] Hself three_cameras_same_batch);
    [reflexivity | reflexivity | exact quarter_turn_orthonormal].
Defined.

(** ** Extracting one camera *)

Lemma item_at {A} (xs : list A) (index : Z) (x : A) :
  (- Z.of_nat (length xs) <= index < Z.of_nat (length xs))%Z ->
  nth_error xs (position (length xs) index) = Some x ->
  Camera.item xs index = OK x.
Proof.
  intros Hi Hx. unfold Camera.item, position in *.
  destruct (Z.ltb_spec index 0);
    (match goal with
     | |- context [(?p && ?q)%bool] =>
         replace (p && q)%bool with true
           by (symmetry; apply andb_true_iff; split;
               [apply Z.leb_le | apply Z.ltb_lt]; lia)
     end);
    rewrite Hx; reflexivity.
Qed.

Lemma item_out_of_range {A} (xs : list A) (index : Z) :
  (index < - Z.of_nat (length xs) \/ Z.of_nat (length xs) <= index)%Z ->
  Camera.item xs index = Raise IndexError.
Proof.
  intros Hi. unfold Camera.item.
  destruct (Z.ltb_spec index 0);
    (match goal with
     | |- context [(?p && ?q)%bool] =>
         replace (p && q)%bool with false; [reflexivity|]
     end);
    symmetry; apply andb_false_iff;
    [left; apply Z.leb_gt | right; apply Z.ltb_ge]; lia.
Qed.

Lemma position_in_range n index :
  (- Z.of_nat n <= index < Z.of_nat n)%Z -> (position n index < n)%nat.
Proof.
  intros H. unfold position. destruct (Z.ltb_spec index 0); lia.
Qed.

Lemma position_wraps n index :
  (0 <= index < Z.of_nat n)%Z ->
  position n (index - Z.of_nat n) = position n index.
Proof.
  intros H. unfold position.
  destruct (Z.ltb_spec (index - Z.of_nat n) 0);
    destruct (Z.ltb_spec index 0); try lia; f_equal; lia.
Qed.

Lemma item_total {A} (xs : list A) (n : nat) (index : Z) :
  length xs = n ->
  (- Z.of_nat n <= index < Z.of_nat n)%Z ->
  exists x, nth_error xs (position n index) = Some x /\
            Camera.item xs index = OK x.
Proof.
  intros <- Hi.
  destruct (nth_error xs (position (length xs) index)) as [x|] eqn:Hx.
  - exists x. split; [reflexivity | apply item_at; assumption].
  - apply nth_error_None in Hx.
    pose proof (position_in_range _ _ Hi). lia.
Qed.

Lemma constructed_batch_size (a : Cameras.init_fields) (self : Cameras.t)
    (n : nat) :
  Cameras.__post_init__ a = Cameras.Constructed self ->
  same_batch a n -> same_batch_rest a n -> batch_size self n.
Proof.
  intros Hc Hb (Hcx & Hcy & Hae & Hct & Hd).
  destruct (constructed_closed_form a self n Hc Hb)
    as (Ex & Ey & EW & EP & EF & inv & Hinv & Ecc).
  pose proof Hb as (HR & HT & Hfx & Hfy & Hw & Hh).
  assert (Lx : length (Cameras.fov_x self) = n)
    by (rewrite Ex, zip_with_length; congruence).
  assert (Ly : length (Cameras.fov_y self) = n)
    by (rewrite Ey, zip_with_length; congruence).
  assert (LW : length (Cameras.world_to_camera self) = n)
    by (rewrite EW, zip_with_length; congruence).
  assert (LP : length (Cameras.projection self) = n)
    by (rewrite EP, zip_with_length; congruence).
  assert (LF : length (Cameras.full_projection self) = n)
    by (rewrite EF, zip_with_length; congruence).
  assert (LC : length (Cameras.camera_center self) = n).
  { rewrite Ecc, length_map. apply List.Forall2_length in Hinv. congruence. }
  unfold Cameras.__post_init__, Cameras.run in Hc.
  destruct (Cameras._calculate_fov a) as [[? ?]|]; [|discriminate].
  destruct (Cameras._calculate_w2c a); [|discriminate].
  destruct (Cameras._calculate_ndc_projection_matrix _ _ _) as [[? ?]|];
    [|discriminate].
  destruct (Cameras._calculate_camera_center _); [|discriminate].
  injection Hc as <-. unfold batch_size. simpl in *.
  repeat split; try assumption.
  destruct (Cameras.init_distortion_params a); [assumption|].
  rewrite repeat_length. exact HR.
Qed.

(** X5. In a batch constructed from arrays with one entry per camera,
    every index in [-n, n) selects a camera, and the selected camera is
    consistent: its combined matrix is its world-to-camera matrix times its
    projection, its world-to-camera matrix is the transposed pose of its R
    and T, its center is the translation row of an inverse of that matrix,
    and its fields of view are those of its own width, height and focal
    lengths. *)
Theorem getitem_consistent (a : Cameras.init_fields) (self : Cameras.t)
    (n : nat) (index : Z) :
  Cameras.__post_init__ a = Cameras.Constructed self ->
  same_batch a n -> same_batch_rest a n ->
  (- Z.of_nat n <= index < Z.of_nat n)%Z ->
  exists cam,
    Camera.__getitem__ self index = OK cam /\
    nth_error (Cameras.init_R a) (position n index)
      = Some (Camera.cam_R cam) /\
    Camera.full_projection cam =
      matmul (Camera.world_to_camera cam) (Camera.projection cam) /\
    Camera.world_to_camera cam =
      transpose (pose_matrix (Camera.cam_R cam) (Camera.cam_T cam)) /\
    (exists X, inverse_of (Camera.world_to_camera cam) X /\
               Camera.camera_center cam = translation_row X) /\
    Camera.fov_x cam = 2 * atan (Camera.width cam / 2 / Camera.fx cam) /\
    Camera.fov_y cam = 2 * atan (Camera.height cam / 2 / Camera.fy cam).
Proof.
  intros Hc Hb Hrest Hi.
  pose proof (constructed_batch_size a self n Hc Hb Hrest)
    as (L1 & L2 & L3 & L4 & L5 & L6 & L7 & L8 & L9 & L10 & L11 & L12
        & L13 & L14 & L15 & L16 & L17).
  destruct (constructed_closed_form a self n Hc Hb)
    as (Ex & Ey & EW & EP & EF & inv & Hinv & Ecc).
  pose proof (post_init_Constructed a self Hc)
    as (_ & _ & _ & _ & ER & ET & Efx & Efy & Ew & Eh).
  set (k := position n index).
  destruct (item_total _ n index L1 Hi) as (Rm & NR & IR).
  destruct (item_total _ n index L2 Hi) as (Tv & NT & IT).
  destruct (item_total _ n index L3 Hi) as (f & Nf & If).
  destruct (item_total _ n index L4 Hi) as (g & Ng & Ig).
  destruct (item_total _ n index L5 Hi) as (fovx & Nfx & Ifx).
  destruct (item_total _ n index L6 Hi) as (fovy & Nfy & Ify).
  destruct (item_total _ n index L7 Hi) as (cx & _ & Icx).
  destruct (item_total _ n index L8 Hi) as (cy & _ & Icy).
  destruct (item_total _ n index L9 Hi) as (w & Nw & Iw).
  destruct (item_total _ n index L10 Hi) as (h & Nh & Ih).
  destruct (item_total _ n index L11 Hi) as (ae & _ & Iae).
  destruct (item_total _ n index L12 Hi) as (dp & _ & Idp).
  destruct (item_total _ n index L13 Hi) as (ct & _ & Ict).
  destruct (item_total _ n index L14 Hi) as (W & NW & IW).
  destruct (item_total _ n index L15 Hi) as (P & NP & IP).
  destruct (item_total _ n index L16 Hi) as (F & NF & IF).
  destruct (item_total _ n index L17 Hi) as (c & Nc & Ic).
  unfold Camera.__getitem__.
  rewrite IR, IT, If, Ig, Ifx, Ify, Icx, Icy, Iw, Ih, Iae, Idp, Ict, IW, IP,
    IF, Ic. simpl.
  eexists. split; [reflexivity|]. simpl.
  fold k in NR, NT, Nf, Ng, Nfx, Nfy, Nw, Nh, NW, NP, NF, Nc.
  rewrite ER in NR. rewrite ET in NT. rewrite Efx in Nf. rewrite Efy in Ng.
  rewrite Ew in Nw. rewrite Eh in Nh.
  assert (HW : W = Cameras.w2c_matrix Rm Tv).
  { rewrite EW in NW.
    rewrite (zip_with_nth_error _ _ _ _ _ _ NR NT) in NW. congruence. }
  repeat split.
  - exact NR.
  - rewrite EF in NF.
    rewrite (zip_with_nth_error _ _ _ _ _ _ NW NP) in NF. congruence.
  - rewrite HW. apply w2c_matrix_pose.
  - destruct (Forall2_nth_error_l _ _ _ _ _ Hinv NW) as (X & HX & Hinvert).
    exists X. split; [apply linalg_inv_inverse; exact Hinvert|].
    rewrite Ecc, nth_error_map, HX in Nc. simpl in Nc. congruence.
  - rewrite Ex in Nfx.
    rewrite (zip_with_nth_error _ _ _ _ _ _ Nw Nf) in Nfx. congruence.
  - rewrite Ey in Nfy.
    rewrite (zip_with_nth_error _ _ _ _ _ _ Nh Ng) in Nfy. congruence.
Qed.

Lemma three_cameras_same_batch_rest : same_batch_rest three_cameras 3.
Proof. repeat split; reflexivity. Qed.

Lemma getitem_consistent_witness :
  exists self,
    Cameras.__post_init__ three_cameras = Cameras.Constructed self /\
    exists cam,
      Camera.__getitem__ self (-1) = OK cam /\
      nth_error (Cameras.init_R three_cameras) (position 3 (-1))
        = Some (Camera.cam_R cam) /\
      Camera.full_projection cam =
        matmul (Camera.world_to_camera cam) (Camera.projection cam) /\
      Camera.world_to_camera cam =
        transpose (pose_matrix (Camera.cam_R cam) (Camera.cam_T cam)) /\
      (exists X, inverse_of (Camera.world_to_camera cam) X /\
                 Camera.camera_center cam = translation_row X) /\
      Camera.fov_x cam = 2 * atan (Camera.width cam / 2 / Camera.fx cam) /\
      Camera.fov_y cam = 2 * atan (Camera.height cam / 2 / Camera.fy cam).
Proof.
  destruct three_cameras_Constructed as (self & Hself).
  exists self. split; [exact Hself|].
  apply (getitem_consistent three_cameras self 3 (-1) Hself
           three_cameras_same_batch three_cameras_same_batch_rest).
  simpl. lia.
Defined.

(** X6. An index outside [-n, n) raises [IndexError]; a negative index
    counts from the end: [index - n] selects the camera [index] does. *)
Theorem getitem_index_range (self : Cameras.t) (n : nat) (index : Z) :
  batch_size self n ->
  ((index < - Z.of_nat n \/ Z.of_nat n <= index)%Z ->
   Camera.__getitem__ self index = Raise IndexError) /\
  ((0 <= index < Z.of_nat n)%Z ->
   Camera.__getitem__ self (index - Z.of_nat n)
     = Camera.__getitem__ self index /\
   succeeds (Camera.__getitem__ self index)).
Proof.
  intros (L1 & L2 & L3 & L4 & L5 & L6 & L7 & L8 & L9 & L10 & L11 & L12
          & L13 & L14 & L15 & L16 & L17).
  split.
  - intros Hi. unfold Camera.__getitem__.
    assert (H1 : Camera.item (Cameras.cam_R self) index = Raise IndexError)
      by (apply item_out_of_range; rewrite L1; exact Hi).
    rewrite H1. reflexivity.
  - intros Hi.
    assert (Hn : (- Z.of_nat n <= index - Z.of_nat n < Z.of_nat n)%Z) by lia.
    assert (Hp : (- Z.of_nat n <= index < Z.of_nat n)%Z) by lia.
    assert (E : forall {A} (xs : list A), length xs = n ->
                Camera.item xs (index - Z.of_nat n) = Camera.item xs index
                /\ succeeds (Camera.item xs index)).
    { intros A xs L.
      destruct (item_total xs n _ L Hn) as (x & Nx & ->).
      destruct (item_total xs n _ L Hp) as (y & Ny & ->).
      rewrite position_wraps in Nx by exact Hi.
      split; [congruence | eexists; reflexivity]. }
    unfold Camera.__getitem__.
    destruct (E _ _ L1) as (-> & [? ->]). destruct (E _ _ L2) as (-> & [? ->]).
    destruct (E _ _ L3) as (-> & [? ->]). destruct (E _ _ L4) as (-> & [? ->]).
    destruct (E _ _ L5) as (-> & [? ->]). destruct (E _ _ L6) as (-> & [? ->]).
    destruct (E _ _ L7) as (-> & [? ->]). destruct (E _ _ L8) as (-> & [? ->]).
    destruct (E _ _ L9) as (-> & [? ->]).
    destruct (E _ _ L10) as (-> & [? ->]).
    destruct (E _ _ L11) as (-> & [? ->]).
    destruct (E _ _ L12) as (-> & [? ->]).
    destruct (E _ _ L13) as (-> & [? ->]).
    destruct (E _ _ L14) as (-> & [? ->]).
    destruct (E _ _ L15) as (-> & [? ->]).
    destruct (E _ _ L16) as (-> & [? ->]).
    destruct (E _ _ L17) as (-> & [? ->]).
    simpl. split; [reflexivity | eexists; reflexivity].
Qed.

Lemma getitem_index_range_witness :
  exists self,
    Cameras.__post_init__ three_cameras = Cameras.Constructed self /\
    ((3 < - Z.of_nat 3 \/ Z.of_nat 3 <= 3)%Z ->
     Camera.__getitem__ self 3 = Raise IndexError) /\
    ((0 <= 3 < Z.of_nat 3)%Z ->
     Camera.__getitem__ self (3 - Z.of_nat 3) = Camera.__getitem__ self 3 /\
     succeeds (Camera.__getitem__ self 3)).
Proof.
  destruct three_cameras_Constructed as (self & Hself).
  exists self. split; [exact Hself|].
  apply (getitem_index_range self 3 3).
  exact (constructed_batch_size three_cameras self 3 Hself
           three_cameras_same_batch three_cameras_same_batch_rest).
Defined.

(** ** Renderer: view directions, color rows, schedules *)

Lemma sum_squares_nonneg v : 0 <= fold_right Rplus 0 (map (fun x => x * x) v).
Proof.
  induction v as [|x v IH]; simpl; [lra|]. pose proof (Rle_0_sqr x).
  unfold Rsqr in *. lra.
Qed.

Lemma sum_squares_scaled v n :
  fold_right Rplus 0 (map (fun x => x * x) (map (fun x => x / n) v))
  = fold_right Rplus 0 (map (fun x => x * x) v) / (n * n).
Proof.
  induction v as [|x v IH]; simpl.
  - unfold Rdiv. rewrite Rmult_0_l. reflexivity.
  - rewrite IH. unfold Rdiv.
    destruct (Req_dec_T n 0) as [->|Hn].
    + rewrite !Rmult_0_l, Rinv_0, !Rmult_0_r. ring.
    + field. exact Hn.
Qed.

(** A row of norm at least the [eps] of [F.normalize] is normalized to a
    unit vector. *)
Lemma normalize_row_unit v :
  1 / 1000000000000 <= euclidean_norm v ->
  euclidean_norm (AppearanceEmbeddingRenderer.normalize_row v) = 1.
Proof.
  intros H. unfold AppearanceEmbeddingRenderer.normalize_row.
  fold (euclidean_norm v). rewrite Rmax_left by exact H.
  unfold euclidean_norm at 1. rewrite sum_squares_scaled.
  assert (Hn : 0 < euclidean_norm v) by lra.
  rewrite sqrt_div_alt by nra.
  rewrite sqrt_square by lra.
  fold (euclidean_norm v). field. lra.
Qed.

(** X7. After warm-up, the appearance model is handed a unit view
    direction for every visible primitive that is at least [1e-12] away
    from the camera center. *)
Theorem view_directions_are_unit
    (spherical_harmonics :
       Z -> list (list R) -> list (list R) -> option (list bool) ->
       list (list R))
    (spherical_harmonics_decomposed :
       Z -> list (list R) -> list (list R) -> list (list R) ->
       option (list bool) -> list (list R))
    (model_forward : list (list R) -> Z -> list (list R) -> list (list R))
    (viewpoint_camera : AppearanceEmbeddingRenderer.Camera)
    (pc : AppearanceEmbeddingRenderer.GaussianModel)
    (visibility_filter : list bool) :
  List.Forall
    (fun d => 1 / 1000000000000 <= euclidean_norm d)
    (AppearanceEmbeddingRenderer.sub_row
       (masked_select visibility_filter
          (AppearanceEmbeddingRenderer.get_xyz pc))
       (AppearanceEmbeddingRenderer.camera_center viewpoint_camera)) ->
  exists call,
    (AppearanceEmbeddingRenderer.get_rgbs spherical_harmonics
       spherical_harmonics_decomposed model_forward viewpoint_camera pc
       visibility_filter (Some false)).2 = [call] /\
    length (AppearanceEmbeddingRenderer.call_view_dirs call) =
      length (masked_select visibility_filter
                (AppearanceEmbeddingRenderer.get_xyz pc)) /\
    List.Forall (fun d => euclidean_norm d = 1)
      (AppearanceEmbeddingRenderer.call_view_dirs call).
Proof.
  intros H. unfold AppearanceEmbeddingRenderer.get_rgbs. simpl.
  eexists. split; [reflexivity|]. simpl. split.
  - unfold AppearanceEmbeddingRenderer.sub_row. rewrite !length_map.
    reflexivity.
  - apply List.Forall_map. eapply List.Forall_impl; [|exact H].
    intros d Hd. apply normalize_row_unit. exact Hd.
Qed.

Lemma norm_3_0_4 : euclidean_norm [3 - 0; 0 - 0; 4 - 0] = 5.
Proof.
  unfold euclidean_norm. simpl.
  replace ((3 - 0) * (3 - 0) + ((0 - 0) * (0 - 0) + ((4 - 0) * (4 - 0) + 0)))
    with (5 * 5) by ring.
  apply sqrt_square. lra.
Qed.

Lemma norm_0_2_0 : euclidean_norm [0 - 0; 2 - 0; 0 - 0] = 2.
Proof.
  unfold euclidean_norm. simpl.
  replace ((0 - 0) * (0 - 0) + ((2 - 0) * (2 - 0) + ((0 - 0) * (0 - 0) + 0)))
    with (2 * 2) by ring.
  apply sqrt_square. lra.
Qed.

Lemma view_directions_are_unit_witness :
  exists call,
    (AppearanceEmbeddingRenderer.get_rgbs gray_sh gray_sh_decomposed
       half_model origin_camera three_gaussians [true; false; true]
       (Some false)).2 = [call] /\
    length (AppearanceEmbeddingRenderer.call_view_dirs call) =
      length (masked_select [true; false; true]
                (AppearanceEmbeddingRenderer.get_xyz three_gaussians)) /\
    List.Forall (fun d => euclidean_norm d = 1)
      (AppearanceEmbeddingRenderer.call_view_dirs call).
Proof.
  apply (view_directions_are_unit gray_sh gray_sh_decomposed half_model
           origin_camera three_gaussians [true; false; true]).
  simpl. repeat constructor.
  - rewrite norm_3_0_4. lra.
  - rewrite norm_0_2_0. lra.
Defined.

Lemma masked_assign_length {A} (mask : list bool) (xs vs r : list A) :
  masked_assign mask xs vs = OK r -> length r = length xs.
Proof.
  revert xs vs r; induction mask as [|m mask IH]; intros xs vs r.
  - simpl. destruct xs, vs; intros [= <-]; reflexivity.
  - destruct xs as [|x xs]; simpl.
    + destruct vs; intros [= <-]; reflexivity.
    + destruct m.
      * destruct vs as [|v vs]; [discriminate|]. intros H.
        apply bind_OK in H. destruct H as (r' & Hr & [= <-]).
        simpl. f_equal. eauto.
      * intros H. apply bind_OK in H. destruct H as (r' & Hr & [= <-]).
        simpl. f_equal. eauto.
Qed.

Lemma masked_select_length_le {A} (mask : list bool) (xs : list A) :
  (length (masked_select mask xs) <= length xs)%nat.
Proof.
  revert xs; induction mask as [|m mask IH]; intros [|x xs]; simpl;
    try lia.
  destruct m; simpl; specialize (IH xs); lia.
Qed.

Lemma masked_assign_count {A} (mask : list bool) (xs vs r : list A) :
  masked_assign mask xs vs = OK r ->
  length vs = length (masked_select mask xs).
Proof.
  revert xs vs r; induction mask as [|m mask IH]; intros xs vs r.
  - simpl. destruct xs, vs; intros [= <-]; reflexivity.
  - destruct xs as [|x xs]; simpl.
    + destruct vs; intros [= <-]; reflexivity.
    + destruct m.
      * destruct vs as [|v vs]; [discriminate|]. intros H.
        apply bind_OK in H. destruct H as (r' & Hr & [= <-]).
        simpl. f_equal. eauto.
      * intros H. apply bind_OK in H. destruct H as (r' & Hr & [= <-]).
        eauto.
Qed.

(** X8. After warm-up, whenever [get_rgbs] returns, it returns one color
    row per Gaussian, and the rows written are as many as the mask selects
    among them: the color tensor keeps the shape of the model whatever is
    visible. *)
Theorem get_rgbs_row_count
    (spherical_harmonics :
       Z -> list (list R) -> list (list R) -> option (list bool) ->
       list (list R))
    (spherical_harmonics_decomposed :
       Z -> list (list R) -> list (list R) -> list (list R) ->
       option (list bool) -> list (list R))
    (model_forward : list (list R) -> Z -> list (list R) -> list (list R))
    (viewpoint_camera : AppearanceEmbeddingRenderer.Camera)
    (pc : AppearanceEmbeddingRenderer.GaussianModel)
    (visibility_filter : list bool) (warm_up : option bool)
    (rgbs : list (list R)) :
  warm_up = None \/ warm_up = Some false ->
  (AppearanceEmbeddingRenderer.get_rgbs spherical_harmonics
     spherical_harmonics_decomposed model_forward viewpoint_camera pc
     visibility_filter warm_up).1 = OK rgbs ->
  length rgbs = AppearanceEmbeddingRenderer.n_gaussians pc /\
  length (masked_select visibility_filter rgbs) =
    length (masked_select visibility_filter
              (repeat (repeat 0 3%nat)
                 (AppearanceEmbeddingRenderer.n_gaussians pc))) /\
  (length (masked_select visibility_filter rgbs)
     <= AppearanceEmbeddingRenderer.n_gaussians pc)%nat.
Proof.
  intros Hw. unfold AppearanceEmbeddingRenderer.get_rgbs.
  replace (default false warm_up) with false
    by (destruct Hw as [-> | ->]; reflexivity).
  simpl. intros H. apply bind_OK in H. destruct H as (sum & Hsum & H).
  pose proof (masked_assign_length _ _ _ _ H) as L.
  pose proof (masked_assign_count _ _ _ _ H) as C.
  pose proof (masked_assign_select _ _ _ _ H) as S.
  rewrite repeat_length in L. split; [exact L|].
  split.
  - rewrite S. exact C.
  - rewrite <- L. apply masked_select_length_le.
Qed.

Lemma get_rgbs_row_count_witness :
  exists rgbs,
    (AppearanceEmbeddingRenderer.get_rgbs gray_sh gray_sh_decomposed
       half_model origin_camera three_gaussians [true; false; true]
       None).1 = OK rgbs /\
    length rgbs = 3%nat /\
    length (masked_select [true; false; true] rgbs) =
      length (masked_select [true; false; true]
                (repeat (repeat 0 3%nat) 3)) /\
    (length (masked_select [true; false; true] rgbs) <= 3)%nat.
Proof.
  eexists. split; [reflexivity|].
  apply (get_rgbs_row_count gray_sh gray_sh_decomposed half_model
           origin_camera three_gaussians [true; false; true] None);
    [left; reflexivity | reflexivity].
Defined.

Lemma Rpower_antitone f y1 y2 :
  0 < f <= 1 -> y1 <= y2 -> Rpower f y2 <= Rpower f y1.
Proof.
  intros [Hf0 Hf1] Hy. unfold Rpower.
  assert (Hln : ln f <= 0).
  { destruct Hf1 as [Hlt | ->]; [|rewrite ln_1; lra].
    rewrite <- ln_1. left. apply ln_increasing; assumption. }
  assert (Hle : y2 * ln f <= y1 * ln f) by nra.
  destruct Hle as [Hlt|Heq]; [left; apply exp_increasing; exact Hlt|].
  rewrite Heq. lra.
Qed.

Lemma clamp_monotone x y : x <= y -> clamp 0 1 x <= clamp 0 1 y.
Proof.
  intros H. unfold clamp.
  apply Rle_min_compat_r. apply Rle_max_compat_l. exact H.
Qed.

(** X9. With [max_steps > 0], a final factor in (0, 1] and a non-negative
    initial rate, a schedule of [_create_optimizer_and_scheduler] never
    increases from one step to a later one, never exceeds the initial
    rate and never falls below [lr_init * lr_final_factor]. *)
Theorem lr_schedule_monotone (name : string)
    (lr_init lr_final_factor : R) (max_steps : Z) (eps : R) (warm_up : Z)
    (t1 t2 : Z) :
  (0 < max_steps)%Z -> 0 < lr_final_factor <= 1 -> 0 <= lr_init ->
  (t1 <= t2)%Z ->
  let schedule :=
    (AppearanceEmbeddingRenderer._create_optimizer_and_scheduler name
       lr_init lr_final_factor max_steps eps warm_up).2 in
  exists r1 r2,
    AppearanceEmbeddingRenderer.get_lr schedule t1 = OK r1 /\
    AppearanceEmbeddingRenderer.get_lr schedule t2 = OK r2 /\
    r2 <= r1 /\ r1 <= lr_init /\ lr_init * lr_final_factor <= r2.
Proof.
  intros Hm Hf Hl Ht. cbv zeta. rewrite !lr_lambda_value by exact Hm.
  do 2 eexists. split; [reflexivity|]. split; [reflexivity|].
  assert (Hm' : 0 < IZR max_steps) by (apply (IZR_lt 0); exact Hm).
  assert (Hp : IZR (t1 - warm_up) / IZR max_steps
               <= IZR (t2 - warm_up) / IZR max_steps).
  { unfold Rdiv. apply Rmult_le_compat_r.
    - left. apply Rinv_0_lt_compat. exact Hm'.
    - apply IZR_le. lia. }
  pose proof (clamp_monotone _ _ Hp) as Hc.
  pose proof (clamp_range (IZR (t1 - warm_up) / IZR max_steps)) as [H1 _].
  pose proof (clamp_range (IZR (t2 - warm_up) / IZR max_steps)) as [_ H2].
  pose proof (Rpower_antitone lr_final_factor _ _ Hf Hc) as M12.
  pose proof (Rpower_antitone lr_final_factor _ _ Hf H1) as M1.
  pose proof (Rpower_antitone lr_final_factor _ _ Hf H2) as M2.
  rewrite Rpower_O in M1 by lra. rewrite Rpower_1 in M2 by lra.
  repeat split; nra.
Qed.

Lemma lr_schedule_monotone_witness :
  let schedule :=
    (AppearanceEmbeddingRenderer._create_optimizer_and_scheduler
       "embedding" (2 / 1000) (1 / 10) 30000 (1 / 1000000) 4000).2 in
  exists r1 r2,
    AppearanceEmbeddingRenderer.get_lr schedule 5000 = OK r1 /\
    AppearanceEmbeddingRenderer.get_lr schedule 20000 = OK r2 /\
    r2 <= r1 /\ r1 <= 2 / 1000 /\ 2 / 1000 * (1 / 10) <= r2.
Proof.
  apply (lr_schedule_monotone "embedding" (2 / 1000) (1 / 10) 30000
           (1 / 1000000) 4000 5000 20000); try lia; lra.
Defined.

(** ** The appearance network's input *)

Lemma embedding_cases (weight : list (list R)) (appearance : Z) :
  ((0 <= appearance < Z.of_nat (length weight))%Z /\
   exists row, nth_error weight (Z.to_nat appearance) = Some row /\
               AppearanceModel.embedding weight appearance = OK [row]) \/
  (~ (0 <= appearance < Z.of_nat (length weight))%Z /\
   AppearanceModel.embedding weight appearance = Raise IndexError).
Proof.
  unfold AppearanceModel.embedding.
  destruct (Z.leb_spec 0 appearance);
    destruct (Z.ltb_spec appearance (Z.of_nat (length weight))); simpl;
    try (right; split; [lia | reflexivity]).
  left. split; [lia|].
  destruct (nth_error weight (Z.to_nat appearance)) as [row|] eqn:E.
  - eauto.
  - apply nth_error_None in E. lia.
Qed.

Lemma repeat_rows_single (row : list R) n :
  AppearanceModel.repeat_rows [row] n = repeat row n.
Proof.
  unfold AppearanceModel.repeat_rows.
  induction n as [|n IH]; simpl; [reflexivity|]. rewrite IH. reflexivity.
Qed.

Lemma zip_with_repeat_nth_error {A B C} (f : A -> B -> C) xs (y : B) i :
  nth_error (zip_with f xs (repeat y (length xs))) i
  = option_map (fun x => f x y) (nth_error xs i).
Proof.
  revert i; induction xs as [|x xs IH]; intros [|i]; simpl; auto.
Qed.

(** X10. [Model.forward] raises [IndexError] exactly when the appearance
    identifier is outside the embedding table.  Otherwise, without
    normalization and view dependence, the network is applied to one input
    row per Gaussian, and row [i] is the features of Gaussian [i] followed
    by the table row of the identifier, the same for every Gaussian. *)
Theorem forward_network_input
    (view_direction_encoding network : list (list R) -> list (list R))
    (config : AppearanceEmbeddingRenderer.ModelConfig)
    (weight gaussian_features : list (list R)) (appearance : Z)
    (view_dirs : list (list R)) :
  let out :=
    AppearanceModel.forward view_direction_encoding network config weight
      gaussian_features appearance view_dirs in
  (out = Raise IndexError <->
   ~ (0 <= appearance < Z.of_nat (length weight))%Z) /\
  ((0 <= appearance < Z.of_nat (length weight))%Z ->
   AppearanceEmbeddingRenderer.normalize config = false ->
   AppearanceEmbeddingRenderer.is_view_dependent config = false ->
   exists row network_input,
     nth_error weight (Z.to_nat appearance) = Some row /\
     out = OK (network network_input) /\
     length network_input = length gaussian_features /\
     forall i,
       nth_error network_input i
       = option_map (fun f => f ++ row) (nth_error gaussian_features i)).
Proof.
  cbv zeta. unfold AppearanceModel.forward.
  destruct (embedding_cases weight appearance)
    as [(Hin & row & Hrow & ->)|(Hout & ->)]; simpl.
  - split.
    + split; [|tauto]. intros H. exfalso. revert H.
      rewrite repeat_rows_single.
      destruct (AppearanceEmbeddingRenderer.normalize config);
        destruct (AppearanceEmbeddingRenderer.is_view_dependent config);
        simpl;
        repeat match goal with
               | |- context [if ?c then _ else _] => destruct c; simpl
               end; discriminate.
    + intros _ -> ->. simpl. rewrite repeat_rows_single, repeat_length.
      rewrite Nat.eqb_refl. exists row. eexists.
      split; [exact Hrow|]. split; [reflexivity|]. split.
      * apply zip_with_length. rewrite repeat_length. reflexivity.
      * intros i. apply zip_with_repeat_nth_error.
  - split; [tauto|]. intros H. contradiction.
Qed.

(** X11. When the table size is derived by [setup] ([n_appearances <= 0]
    configured), every appearance identifier observed in the training data
    is a row of the allocated embedding table: the lookup of
    [Model.forward] does not raise for it. *)
Theorem derived_table_covers_observed_ids
    (self : AppearanceEmbeddingRenderer.module_state)
    (ids : option (gmap string (Z * R))) (weight : list (list R)) (j : Z) :
  (AppearanceEmbeddingRenderer.n_appearances
     (AppearanceEmbeddingRenderer.config_model self) <= 0)%Z ->
  ids_nonnegative ids ->
  option_map AppearanceEmbeddingRenderer.num_embeddings
    (AppearanceEmbeddingRenderer.model
       (AppearanceEmbeddingRenderer.setup (Some ids) self))
    = Some (Z.of_nat (length weight)) ->
  observed ids j ->
  exists row,
    nth_error weight (Z.to_nat j) = Some row /\
    AppearanceModel.embedding weight j = OK [row].
Proof.
  intros Hn Hnn Hrows Hj.
  pose proof (max_input_id_of_spec ids) as (_ & Hle & _). cbv zeta in Hle.
  unfold AppearanceEmbeddingRenderer.setup in Hrows.
  destruct (Z.leb_spec
              (AppearanceEmbeddingRenderer.n_appearances
                 (AppearanceEmbeddingRenderer.config_model self)) 0);
    [|lia].
  simpl in Hrows. injection Hrows as Hrows.
  destruct (embedding_cases weight j) as [(_ & row & Hrow & E)|(Hout & _)].
  - eauto.
  - exfalso. apply Hout. specialize (Hle j Hj). specialize (Hnn j Hj). lia.
Qed.

Lemma sample_ids_observed_2 : observed (Some sample_ids) 2%Z.
Proof.
  exists "outdoor", (2%Z, 1). split; [|reflexivity].
  unfold sample_ids. rewrite lookup_insert_ne by discriminate.
  apply lookup_insert_eq.
Qed.

Lemma derived_table_covers_observed_ids_witness :
  exists row,
    nth_error [[1]; [2]; [3]] (Z.to_nat 2) = Some row /\
    AppearanceModel.embedding [[1]; [2]; [3]] 2 = OK [row].
Proof.
  apply (derived_table_covers_observed_ids fresh_module (Some sample_ids)
           [[1]; [2]; [3]] 2).
  - simpl. lia.
  - exact sample_ids_nonnegative.
  - unfold AppearanceEmbeddingRenderer.setup.
    rewrite sample_ids_max_input_id. reflexivity.
  - exact sample_ids_observed_2.
Defined.

(** X12. A configured positive table size is not checked against the
    data: [setup] allocates exactly that many rows, and for an observed
    identifier at or beyond that size the lookup of [Model.forward] raises
    [IndexError]. *)
Theorem configured_size_is_not_checked
    (self : AppearanceEmbeddingRenderer.module_state)
    (ids : option (gmap string (Z * R))) (weight : list (list R)) (j : Z) :
  let configured :=
    AppearanceEmbeddingRenderer.n_appearances
      (AppearanceEmbeddingRenderer.config_model self) in
  (0 < configured)%Z ->
  observed ids j -> (configured <= j)%Z ->
  Z.of_nat (length weight) = configured ->
  let self' := AppearanceEmbeddingRenderer.setup (Some ids) self in
  AppearanceEmbeddingRenderer.n_appearances
    (AppearanceEmbeddingRenderer.config_model self') = configured /\
  option_map AppearanceEmbeddingRenderer.num_embeddings
    (AppearanceEmbeddingRenderer.model self') = Some configured /\
  AppearanceEmbeddingRenderer.trace self' =
    AppearanceEmbeddingRenderer.trace self
      ++ [AppearanceEmbeddingRenderer.AllocateModel configured] /\
  AppearanceModel.embedding weight j = Raise IndexError.
Proof.
  cbv zeta. intros Hc _ Hj Hw.
  unfold AppearanceEmbeddingRenderer.setup.
  destruct (Z.leb_spec
              (AppearanceEmbeddingRenderer.n_appearances
                 (AppearanceEmbeddingRenderer.config_model self)) 0);
    [lia|].
  simpl. repeat split.
  destruct (embedding_cases weight j) as [(Hin & _)|(_ & E)];
    [lia | exact E].
Qed.

Lemma configured_size_is_not_checked_witness :
  let self :=
    {| AppearanceEmbeddingRenderer.config_model :=
         AppearanceEmbeddingRenderer.set_n_appearances
           AppearanceEmbeddingRenderer.default_ModelConfig 2;
       AppearanceEmbeddingRenderer.config_optimization :=
         AppearanceEmbeddingRenderer.default_OptimizationConfig;
       AppearanceEmbeddingRenderer.model := None;
       AppearanceEmbeddingRenderer.trace := [] |} in
  let self' :=
    AppearanceEmbeddingRenderer.setup (Some (Some sample_ids)) self in
  AppearanceEmbeddingRenderer.n_appearances
    (AppearanceEmbeddingRenderer.config_model self') = 2%Z /\
  option_map AppearanceEmbeddingRenderer.num_embeddings
    (AppearanceEmbeddingRenderer.model self') = Some 2%Z /\
  AppearanceEmbeddingRenderer.trace self' =
    [] ++ [AppearanceEmbeddingRenderer.AllocateModel 2] /\
  AppearanceModel.embedding [[1]; [2]] 2 = Raise IndexError.
Proof.
  apply (configured_size_is_not_checked
           {| AppearanceEmbeddingRenderer.config_model :=
                AppearanceEmbeddingRenderer.set_n_appearances
                  AppearanceEmbeddingRenderer.default_ModelConfig 2;
              AppearanceEmbeddingRenderer.config_optimization :=
                AppearanceEmbeddingRenderer.default_OptimizationConfig;
              AppearanceEmbeddingRenderer.model := None;
              AppearanceEmbeddingRenderer.trace := [] |}
           (Some sample_ids) [[1]; [2]] 2).
  - simpl. lia.
  - exact sample_ids_observed_2.
  - simpl. lia.
  - reflexivity.
Defined.

(** ** Training step: density control, saving, schedule *)

Lemma py_mod_nonzero a b :
  b <> 0%Z -> GaussianSplatting.py_mod a b = OK (a mod b)%Z.
Proof.
  intros H. unfold GaussianSplatting.py_mod.
  destruct (Z.eqb_spec b 0); [contradiction | reflexivity].
Qed.

Lemma py_mod_zero a : GaussianSplatting.py_mod a 0 = Raise ZeroDivisionError.
Proof. reflexivity. Qed.

(** X13. [densification] raises [ZeroDivisionError], and nothing else,
    exactly at the steps inside the densification window at which a zero
    interval is evaluated: a zero [opacity_reset_interval] at every step
    below [densify_until_iter], a zero [densification_interval] only once
    the step is past [densify_from_iter]. *)
Theorem densification_zero_division
    (o : GaussianSplatting.OptimizationParams) (cameras_extent : R)
    (background_color : list R) (global_step : Z) :
  let out :=
    GaussianSplatting.densification o cameras_extent background_color
      global_step in
  (out = Raise ZeroDivisionError <->
   (global_step < GaussianSplatting.densify_until_iter o)%Z /\
   (((GaussianSplatting.densify_from_iter o < global_step)%Z /\
     GaussianSplatting.densification_interval o = 0%Z) \/
    GaussianSplatting.opacity_reset_interval o = 0%Z)) /\
  (forall e, out = Raise e -> e = ZeroDivisionError).
Proof.
  cbv zeta. unfold GaussianSplatting.densification.
  destruct (Z.ltb_spec global_step (GaussianSplatting.densify_until_iter o))
    as [Hu|Hu]; [|split; [split; [discriminate | lia] | discriminate]].
  destruct (Z.eq_dec (GaussianSplatting.densification_interval o) 0%Z)
    as [Hi|Hi];
    destruct (Z.eq_dec (GaussianSplatting.opacity_reset_interval o) 0%Z)
      as [Hr|Hr];
    destruct (Z.ltb_spec (GaussianSplatting.densify_from_iter o) global_step)
      as [Hf|Hf];
    rewrite ?Hi, ?Hr, ?py_mod_zero, ?(py_mod_nonzero _ _ Hi),
      ?(py_mod_nonzero _ _ Hr); simpl;
    repeat match goal with
           | |- context [if ?c then _ else _] => destruct c; simpl
           end;
    (split;
     [split; [intros H; try discriminate H; lia
             | intros H; try reflexivity; exfalso; lia]
     | intros e H; try discriminate H; congruence]).
Qed.

(** With nonzero intervals, the calls of [densification] in closed
    form. *)
Lemma densification_calls
    (o : GaussianSplatting.OptimizationParams) (cameras_extent : R)
    (background_color : list R) (global_step : Z) :
  GaussianSplatting.densification_interval o <> 0%Z ->
  GaussianSplatting.opacity_reset_interval o <> 0%Z ->
  GaussianSplatting.densification o cameras_extent background_color
    global_step
  = OK (if (global_step <? GaussianSplatting.densify_until_iter o)%Z then
          [GaussianSplatting.UpdateMaxRadii2D;
           GaussianSplatting.AddDensificationStats]
          ++ (if ((GaussianSplatting.densify_from_iter o <? global_step)
                  && (global_step
                        mod GaussianSplatting.densification_interval o
                      =? 0))%Z
              then [GaussianSplatting.DensifyAndPrune
                      (GaussianSplatting.densify_grad_threshold o)
                      (5 / 1000) cameras_extent
                      (if (GaussianSplatting.opacity_reset_interval o
                           <? global_step)%Z
                       then Some 20%Z else None)]
              else [])
          ++ (if ((global_step
                     mod GaussianSplatting.opacity_reset_interval o =? 0)%Z
                  || GaussianSplatting.background_is_white background_color
                     && (global_step
                         =? GaussianSplatting.densify_from_iter o)%Z)%bool
              then [GaussianSplatting.ResetOpacity] else [])
        else []).
Proof.
  intros Hi Hr. unfold GaussianSplatting.densification.
  destruct (global_step <? GaussianSplatting.densify_until_iter o)%Z;
    [|reflexivity].
  rewrite !py_mod_nonzero by assumption.
  destruct (GaussianSplatting.densify_from_iter o <? global_step)%Z; simpl;
    destruct (global_step mod GaussianSplatting.densification_interval o
              =? 0)%Z; simpl;
    match goal with
    | |- context [if (?c || ?d)%bool then _ else _] =>
        destruct (c || d)%bool
    end; reflexivity.
Qed.

(** X14. With nonzero intervals: the statistics are updated at every step
    below [densify_until_iter] and at no other; grow/prune is invoked
    exactly at the steps of the window that are past [densify_from_iter]
    and multiples of the densification interval; opacities are reset
    exactly at the steps of the window that are multiples of the reset
    interval or, on a white background, equal to [densify_from_iter]; and
    a reset comes after everything else in the step. *)
Theorem density_control_schedule
    (o : GaussianSplatting.OptimizationParams) (cameras_extent : R)
    (background_color : list R) (global_step : Z) :
  GaussianSplatting.densification_interval o <> 0%Z ->
  GaussianSplatting.opacity_reset_interval o <> 0%Z ->
  exists calls,
    GaussianSplatting.densification o cameras_extent background_color
      global_step = OK calls /\
    (In GaussianSplatting.AddDensificationStats calls <->
     (global_step < GaussianSplatting.densify_until_iter o)%Z) /\
    (GaussianSplatting.densify_and_prune_threshold calls <> None <->
     (global_step < GaussianSplatting.densify_until_iter o)%Z /\
     (GaussianSplatting.densify_from_iter o < global_step)%Z /\
     (global_step mod GaussianSplatting.densification_interval o = 0)%Z) /\
    (In GaussianSplatting.ResetOpacity calls <->
     (global_step < GaussianSplatting.densify_until_iter o)%Z /\
     ((global_step mod GaussianSplatting.opacity_reset_interval o = 0)%Z \/
      (GaussianSplatting.background_is_white background_color = true /\
       global_step = GaussianSplatting.densify_from_iter o))) /\
    (In GaussianSplatting.ResetOpacity calls ->
     exists before, calls = before ++ [GaussianSplatting.ResetOpacity] /\
                    ~ In GaussianSplatting.ResetOpacity before).
Proof.
  intros Hi Hr. rewrite densification_calls by assumption.
  eexists. split; [reflexivity|].
  unfold GaussianSplatting.densify_and_prune_threshold.
  destruct (Z.ltb_spec global_step (GaussianSplatting.densify_until_iter o))
    as [Hu|Hu];
    destruct (Z.ltb_spec (GaussianSplatting.densify_from_iter o) global_step)
      as [Hf|Hf];
    destruct (Z.eqb_spec
                (global_step mod GaussianSplatting.densification_interval o)
                0) as [Hm|Hm];
    destruct (Z.eqb_spec
                (global_step mod GaussianSplatting.opacity_reset_interval o)
                0) as [Ho|Ho];
    destruct (GaussianSplatting.background_is_white background_color);
    destruct (Z.eqb_spec global_step
                (GaussianSplatting.densify_from_iter o)) as [He|He];
    simpl;
    (split; [|split; [|split]]);
    intuition (try lia; try discriminate; try congruence);
    match goal with
    | |- exists before, ?l = _ /\ _ => exists (removelast l)
    end;
    simpl; (split; [reflexivity | intuition discriminate]).
Qed.

Lemma density_control_schedule_witness :
  exists calls,
    GaussianSplatting.densification default_optimization 1 [1; 1; 1] 500
      = OK calls /\
    (In GaussianSplatting.AddDensificationStats calls <-> (500 < 15000)%Z) /\
    (GaussianSplatting.densify_and_prune_threshold calls <> None <->
     (500 < 15000)%Z /\ (500 < 500)%Z /\ (500 mod 100 = 0)%Z) /\
    (In GaussianSplatting.ResetOpacity calls <->
     (500 < 15000)%Z /\
     ((500 mod 3000 = 0)%Z \/
      (GaussianSplatting.background_is_white [1; 1; 1] = true /\
       500%Z = 500%Z))) /\
    (In GaussianSplatting.ResetOpacity calls ->
     exists before, calls = before ++ [GaussianSplatting.ResetOpacity] /\
                    ~ In GaussianSplatting.ResetOpacity before).
Proof.
  apply (density_control_schedule default_optimization 1 [1; 1; 1] 500);
    simpl; discriminate.
Defined.

(** X15. The step counter starts from 1: at the first step
    ([trainer.global_step = 0]), with [densify_from_iter],
    [densify_until_iter] and [opacity_reset_interval] above 1, the
    statistics are updated and neither grow/prune nor an opacity reset
    happens, whereas the density control of a step numbered 0 would reset
    the opacities at once. *)
Theorem first_step_has_no_reset
    (o : GaussianSplatting.OptimizationParams) (save_iterations : list Z)
    (cameras_extent : R) (background_color : list R) :
  (1 < GaussianSplatting.densify_from_iter o)%Z ->
  (1 < GaussianSplatting.densify_until_iter o)%Z ->
  (1 < GaussianSplatting.opacity_reset_interval o)%Z ->
  (exists save,
     TrainingStep.training_step o save_iterations cameras_extent
       background_color 0
     = OK ([TrainingStep.Forward; TrainingStep.ZeroGrad;
            TrainingStep.Backward] ++ save
           ++ [TrainingStep.Gaussian GaussianSplatting.UpdateMaxRadii2D;
               TrainingStep.Gaussian GaussianSplatting.AddDensificationStats;
               TrainingStep.GaussianOptimizerStep;
               TrainingStep.AppearanceOptimizerStep;
               TrainingStep.UpdateLearningRate 1;
               TrainingStep.AppearanceSchedulerStep]) /\
     (save = [] \/ save = [TrainingStep.SaveGaussianToPly 0])) /\
  GaussianSplatting.densification o cameras_extent background_color 0
  = OK [GaussianSplatting.UpdateMaxRadii2D;
        GaussianSplatting.AddDensificationStats;
        GaussianSplatting.ResetOpacity].
Proof.
  intros Hf Hu Hr. split.
  - unfold TrainingStep.training_step, GaussianSplatting.densification.
    cbv zeta. change (0 + 1)%Z with 1%Z.
    change ((1 mod 1000 =? 0)%Z) with false. cbv iota.
    destruct (Z.ltb_spec 1 (GaussianSplatting.densify_until_iter o)); [|lia].
    destruct (Z.ltb_spec (GaussianSplatting.densify_from_iter o) 1); [lia|].
    assert (E : (1 =? GaussianSplatting.densify_from_iter o)%Z = false)
      by (apply Z.eqb_neq; lia).
    rewrite E, andb_false_r.
    rewrite py_mod_nonzero by lia.
    rewrite Z.mod_1_l by exact Hr. simpl.
    eexists. split; [reflexivity|].
    destruct (existsb _ save_iterations); auto.
  - unfold GaussianSplatting.densification.
    destruct (Z.ltb_spec 0 (GaussianSplatting.densify_until_iter o)); [|lia].
    destruct (Z.ltb_spec (GaussianSplatting.densify_from_iter o) 0); [lia|].
    simpl. rewrite py_mod_nonzero by lia. rewrite Z.mod_0_l by lia.
    reflexivity.
Qed.

Lemma first_step_has_no_reset_witness :
  (exists save,
     TrainingStep.training_step default_optimization [7000; 30000]%Z 1
       [0; 0; 0] 0
     = OK ([TrainingStep.Forward; TrainingStep.ZeroGrad;
            TrainingStep.Backward] ++ save
           ++ [TrainingStep.Gaussian GaussianSplatting.UpdateMaxRadii2D;
               TrainingStep.Gaussian GaussianSplatting.AddDensificationStats;
               TrainingStep.GaussianOptimizerStep;
               TrainingStep.AppearanceOptimizerStep;
               TrainingStep.UpdateLearningRate 1;
               TrainingStep.AppearanceSchedulerStep]) /\
     (save = [] \/ save = [TrainingStep.SaveGaussianToPly 0])) /\
  GaussianSplatting.densification default_optimization 1 [0; 0; 0] 0
  = OK [GaussianSplatting.UpdateMaxRadii2D;
        GaussianSplatting.AddDensificationStats;
        GaussianSplatting.ResetOpacity].
Proof.
  apply (first_step_has_no_reset default_optimization [7000; 30000]%Z 1
           [0; 0; 0]); simpl; lia.
Defined.

Lemma existsb_eqb_In (x : Z) (l : list Z) :
  existsb (Z.eqb x) l = true <-> In x l.
Proof.
  rewrite existsb_exists. split.
  - intros (y & Hy & E). apply Z.eqb_eq in E. subst. exact Hy.
  - intros H. exists x. split; [exact H | apply Z.eqb_refl].
Qed.

(** X16. A step saves exactly when its number, [trainer.global_step + 1],
    is a save point; the save is then labelled with
    [trainer.global_step], one less than the save point, and it takes
    place after the backward pass and before every density-control call
    and optimizer step of the step. *)
Theorem save_before_densification
    (o : GaussianSplatting.OptimizationParams) (save_iterations : list Z)
    (cameras_extent : R) (background_color : list R)
    (trainer_global_step : Z) (events : list TrainingStep.event) :
  TrainingStep.training_step o save_iterations cameras_extent
    background_color trainer_global_step = OK events ->
  (forall label,
     In (TrainingStep.SaveGaussianToPly label) events <->
     label = trainer_global_step /\
     In (trainer_global_step + 1)%Z save_iterations) /\
  (In (trainer_global_step + 1)%Z save_iterations ->
   exists before calls,
     events = before
              ++ [TrainingStep.Backward;
                  TrainingStep.SaveGaussianToPly trainer_global_step]
              ++ map TrainingStep.Gaussian calls
              ++ [TrainingStep.GaussianOptimizerStep;
                  TrainingStep.AppearanceOptimizerStep;
                  TrainingStep.UpdateLearningRate (trainer_global_step + 1);
                  TrainingStep.AppearanceSchedulerStep] /\
     GaussianSplatting.densification o cameras_extent background_color
       (trainer_global_step + 1) = OK calls /\
     List.Forall (fun e => e = TrainingStep.OneUpSHDegree
                           \/ e = TrainingStep.Forward
                           \/ e = TrainingStep.ZeroGrad) before).
Proof.
  unfold TrainingStep.training_step. intros H.
  apply bind_OK in H. destruct H as (calls & Hcalls & [= <-]).
  pose proof (existsb_eqb_In (trainer_global_step + 1) save_iterations)
    as Hsave.
  assert (NG : forall label,
             ~ In (TrainingStep.SaveGaussianToPly label)
                 (map TrainingStep.Gaussian calls)).
  { intros label Hin. apply in_map_iff in Hin.
    destruct Hin as (c & E & _). discriminate. }
  split.
  - intros label. pose proof (NG label) as NGl.
    assert (Hsh : ~ In (TrainingStep.SaveGaussianToPly label)
                    (if ((trainer_global_step + 1) mod 1000 =? 0)%Z
                     then [TrainingStep.OneUpSHDegree] else [])).
    { destruct ((trainer_global_step + 1) mod 1000 =? 0)%Z; simpl;
        intuition discriminate. }
    rewrite !in_app_iff.
    destruct (existsb (Z.eqb (trainer_global_step + 1)) save_iterations);
      simpl.
    + assert (Hin : In (trainer_global_step + 1)%Z save_iterations)
        by (apply Hsave; reflexivity).
      split.
      * intros H. split; [|exact Hin].
        destruct H as [H|[H|[H|[H|H]]]];
          repeat match goal with
                 | H : _ \/ _ |- _ => destruct H
                 | H : False |- _ => destruct H
                 | H : In _ (_ ++ _) |- _ => apply in_app_iff in H
                 | H : In _ (_ :: _) |- _ => simpl in H
                 end;
          try contradiction; try discriminate; congruence.
      * intros [-> _]. do 2 right. simpl. auto.
    + split.
      * intros H. exfalso.
        destruct H as [H|[H|[H|[H|H]]]];
          repeat match goal with
                 | H : _ \/ _ |- _ => destruct H
                 | H : False |- _ => destruct H
                 | H : In _ (_ ++ _) |- _ => apply in_app_iff in H
                 | H : In _ (_ :: _) |- _ => simpl in H
                 end;
          try contradiction; discriminate.
      * intros [_ Hin]. apply Hsave in Hin. discriminate Hin.
  - intros Hin. apply Hsave in Hin. rewrite Hin.
    exists ((if ((trainer_global_step + 1) mod 1000 =? 0)%Z
             then [TrainingStep.OneUpSHDegree] else [])
            ++ [TrainingStep.Forward; TrainingStep.ZeroGrad]), calls.
    split; [|split; [exact Hcalls|]].
    + rewrite <- !app_assoc. reflexivity.
    + destruct ((trainer_global_step + 1) mod 1000 =? 0)%Z; simpl;
        repeat (apply List.Forall_cons; [auto|]); apply List.Forall_nil.
Qed.

Lemma training_step_at_6999 :
  exists events,
    TrainingStep.training_step default_optimization [7000; 30000]%Z 1
      [0; 0; 0] 6999 = OK events.
Proof.
  unfold TrainingStep.training_step, GaussianSplatting.densification.
  simpl. rewrite andb_false_r. simpl. eexists. reflexivity.
Qed.

Lemma save_before_densification_witness :
  exists events,
    TrainingStep.training_step default_optimization [7000; 30000]%Z 1
      [0; 0; 0] 6999 = OK events /\
    (forall label,
       In (TrainingStep.SaveGaussianToPly label) events <->
       label = 6999%Z /\ In (6999 + 1)%Z [7000; 30000]%Z) /\
    (In (6999 + 1)%Z [7000; 30000]%Z ->
     exists before calls,
       events = before
                ++ [TrainingStep.Backward;
                    TrainingStep.SaveGaussianToPly 6999]
                ++ map TrainingStep.Gaussian calls
                ++ [TrainingStep.GaussianOptimizerStep;
                    TrainingStep.AppearanceOptimizerStep;
                    TrainingStep.UpdateLearningRate (6999 + 1);
                    TrainingStep.AppearanceSchedulerStep] /\
       GaussianSplatting.densification default_optimization 1 [0; 0; 0]
         (6999 + 1) = OK calls /\
       List.Forall (fun e => e = TrainingStep.OneUpSHDegree
                             \/ e = TrainingStep.Forward
                             \/ e = TrainingStep.ZeroGrad) before).
Proof.
  destruct training_step_at_6999 as (events & H).
  exists events. split; [exact H|].
  exact (save_before_densification default_optimization [7000; 30000]%Z 1
           [0; 0; 0] 6999 events H).
Defined.

(** ** The loss: what the mask does to it *)

Lemma substitute_agree mask render gt gt' :
  length mask = length render -> length gt = length render ->
  length gt' = length render -> agree_outside mask gt gt' ->
  substitute_masked mask render gt = substitute_masked mask render gt'.
Proof.
  revert render gt gt'; induction mask as [|m mask IH];
    intros [|r render] [|g gt] [|g' gt'] Hm Hg Hg' Ha; simpl in *;
    try discriminate; try reflexivity.
  rewrite (IH render gt gt') by
    (try lia; intros i Hi; exact (Ha (S i) Hi)).
  destruct m; [reflexivity|].
  pose proof (Ha 0%nat eq_refl) as E. simpl in E. rewrite E. reflexivity.
Qed.

Lemma calculate_loss_masked ssim lambda_dssim render gt_image masked_pixels :
  length gt_image = length render ->
  length masked_pixels = length render ->
  GaussianSplatting.calculate_loss ssim lambda_dssim render gt_image
    (Some masked_pixels)
  = GaussianSplatting.calculate_loss ssim lambda_dssim render
      (substitute_masked masked_pixels render gt_image) None.
Proof.
  intros Hg Hm. unfold GaussianSplatting.calculate_loss.
  rewrite masked_copy by assumption. reflexivity.
Qed.

Lemma calculate_loss_unmasked ssim lambda_dssim render gt_image :
  length gt_image = length render ->
  exists l,
    GaussianSplatting.calculate_loss ssim lambda_dssim render gt_image None
      = OK l /\
    GaussianSplatting.l1_loss l
      = sum_abs_difference render gt_image / INR (length render).
Proof.
  intros Hg. unfold GaussianSplatting.calculate_loss. simpl.
  rewrite elementwise_same_length by (symmetry; exact Hg). simpl.
  eexists. split; [reflexivity|]. simpl.
  unfold mean, sum_abs_difference.
  rewrite length_map, zip_with_length by (symmetry; exact Hg).
  reflexivity.
Qed.

Lemma sum_abs_difference_masked mask render gt :
  length mask = length render -> length gt = length render ->
  0 <= sum_abs_difference render (substitute_masked mask render gt)
    <= sum_abs_difference render gt.
Proof.
  unfold sum_abs_difference.
  revert render gt; induction mask as [|m mask IH];
    intros [|r render] [|g gt] Hm Hg; simpl in *; try discriminate;
    try lra.
  specialize (IH render gt ltac:(lia) ltac:(lia)).
  pose proof (Rabs_pos (r - g)).
  destruct m.
  - unfold Rminus at 1 3. rewrite Rplus_opp_r, Rabs_R0. lra.
  - lra.
Qed.

(** X17. The values the ground truth has at masked pixels do not matter:
    two ground-truth images that agree wherever the mask is not set give
    the same loss terms, whatever the SSIM function. *)
Theorem masked_ground_truth_is_irrelevant
    (ssim : list R -> list R -> R) (lambda_dssim : R)
    (render gt_image gt_image' : list R) (masked_pixels : list bool) :
  length gt_image = length render ->
  length gt_image' = length render ->
  length masked_pixels = length render ->
  agree_outside masked_pixels gt_image gt_image' ->
  GaussianSplatting.calculate_loss ssim lambda_dssim render gt_image
    (Some masked_pixels)
  = GaussianSplatting.calculate_loss ssim lambda_dssim render gt_image'
      (Some masked_pixels).
Proof.
  intros Hg Hg' Hm Ha.
  rewrite !calculate_loss_masked by assumption.
  rewrite (substitute_agree masked_pixels render gt_image gt_image')
    by assumption.
  reflexivity.
Qed.

Lemma masked_ground_truth_is_irrelevant_witness :
  GaussianSplatting.calculate_loss constant_ssim (2 / 10)
    [1 / 2; 1 / 4] [1; 0] (Some [true; false])
  = GaussianSplatting.calculate_loss constant_ssim (2 / 10)
      [1 / 2; 1 / 4] [7; 0] (Some [true; false]).
Proof.
  apply (masked_ground_truth_is_irrelevant constant_ssim (2 / 10)
           [1 / 2; 1 / 4] [1; 0] [7; 0] [true; false]);
    try reflexivity.
  intros [|[|[|i]]] Hi; simpl in *; try discriminate; reflexivity.
Defined.

(** X18. The L1 term is never negative, and masking never raises it: with
    a mask it is the sum of the absolute differences over the pixels that
    are not masked, still divided by the number of all pixels, so it is at
    most the L1 term of the same images without the mask. *)
Theorem masking_never_raises_l1
    (ssim : list R -> list R -> R) (lambda_dssim : R)
    (render gt_image : list R) (masked_pixels : list bool) :
  length gt_image = length render ->
  length masked_pixels = length render ->
  exists masked unmasked,
    GaussianSplatting.calculate_loss ssim lambda_dssim render gt_image
      (Some masked_pixels) = OK masked /\
    GaussianSplatting.calculate_loss ssim lambda_dssim render gt_image
      None = OK unmasked /\
    GaussianSplatting.l1_loss masked
      = sum_abs_difference
          (masked_select (map negb masked_pixels) render)
          (masked_select (map negb masked_pixels) gt_image)
        / INR (length render) /\
    0 <= GaussianSplatting.l1_loss masked
      <= GaussianSplatting.l1_loss unmasked.
Proof.
  intros Hg Hm.
  rewrite calculate_loss_masked by assumption.
  destruct (calculate_loss_unmasked ssim lambda_dssim render
              (substitute_masked masked_pixels render gt_image))
    as (lm & Em & Lm);
    [apply substitute_masked_length; assumption|].
  destruct (calculate_loss_unmasked ssim lambda_dssim render gt_image Hg)
    as (lu & Eu & Lu).
  exists lm, lu. split; [exact Em|]. split; [exact Eu|].
  rewrite Lm, Lu.
  pose proof (sum_abs_difference_masked masked_pixels render gt_image Hm Hg)
    as [S0 S1].
  split.
  - f_equal. clear -Hg Hm. unfold sum_abs_difference.
    revert render gt_image Hg Hm;
      induction masked_pixels as [|m mask IH];
      intros [|r render] [|g gt] Hg Hm; simpl in *; try discriminate;
      try reflexivity.
    specialize (IH render gt ltac:(lia) ltac:(lia)).
    destruct m; simpl.
    + unfold Rminus at 1. rewrite Rplus_opp_r, Rabs_R0, IH. lra.
    + rewrite IH. reflexivity.
  - destruct render as [|r render].
    + destruct gt_image; [|discriminate].
      destruct masked_pixels; [|discriminate].
      unfold sum_abs_difference. simpl. unfold Rdiv.
      rewrite Rmult_0_l. lra.
    + assert (Hn : 0 < INR (length (r :: render)))
        by (apply lt_0_INR; simpl; lia).
      assert (Hi : 0 < / INR (length (r :: render)))
        by (apply Rinv_0_lt_compat; exact Hn).
      unfold Rdiv. split; [apply Rmult_le_pos; lra|].
      apply Rmult_le_compat_r; lra.
Qed.

Lemma masking_never_raises_l1_witness :
  exists masked unmasked,
    GaussianSplatting.calculate_loss constant_ssim (2 / 10)
      [1 / 2; 1 / 4] [1; 0] (Some [true; false]) = OK masked /\
    GaussianSplatting.calculate_loss constant_ssim (2 / 10)
      [1 / 2; 1 / 4] [1; 0] None = OK unmasked /\
    GaussianSplatting.l1_loss masked
      = sum_abs_difference
          (masked_select (map negb [true; false]) [1 / 2; 1 / 4])
          (masked_select (map negb [true; false]) [1; 0])
        / INR (length [1 / 2; 1 / 4]) /\
    0 <= GaussianSplatting.l1_loss masked
      <= GaussianSplatting.l1_loss unmasked.
Proof.
  apply (masking_never_raises_l1 constant_ssim (2 / 10)
           [1 / 2; 1 / 4] [1; 0] [true; false]); reflexivity.
Defined.

(** ** The appearance optimizer's schedule *)

Lemma appearance_lr_value (lr : R) (position_lr_max_steps t : Z) :
  (0 < position_lr_max_steps)%Z ->
  AppearanceEmbeddingRenderer.get_lr
    (TrainingStep.appearance_scheduler lr position_lr_max_steps) t
  = OK (lr * Rpower (1 / 100)
                (Rmin (IZR t / IZR position_lr_max_steps) 1)).
Proof.
  intros Hm. unfold AppearanceEmbeddingRenderer.get_lr,
    TrainingStep.appearance_scheduler, TrainingStep.appearance_lr_lambda,
    AppearanceEmbeddingRenderer.true_div,
    AppearanceEmbeddingRenderer.float_pow. simpl.
  destruct (Z.eqb_spec position_lr_max_steps 0); [lia|]. reflexivity.
Qed.

(** X19. The schedule [configure_optimizers] gives the appearance
    optimizer: with [position_lr_max_steps > 0] and a non-negative rate
    [lr], the rate is [lr] at step 0, never increases from a step to a
    later one, stays between [lr / 100] and [lr], and is [lr / 100] from
    step [position_lr_max_steps] on.  With [position_lr_max_steps = 0]
    every evaluation of the schedule raises [ZeroDivisionError]. *)
Theorem appearance_schedule (lr : R) (position_lr_max_steps t1 t2 : Z) :
  0 <= lr -> (0 < position_lr_max_steps)%Z -> (0 <= t1 <= t2)%Z ->
  let schedule :=
    TrainingStep.appearance_scheduler lr position_lr_max_steps in
  AppearanceEmbeddingRenderer.get_lr schedule 0 = OK lr /\
  (exists r1 r2,
     AppearanceEmbeddingRenderer.get_lr schedule t1 = OK r1 /\
     AppearanceEmbeddingRenderer.get_lr schedule t2 = OK r2 /\
     lr / 100 <= r2 /\ r2 <= r1 /\ r1 <= lr /\
     ((position_lr_max_steps <= t1)%Z -> r1 = lr / 100)) /\
  (forall t,
     AppearanceEmbeddingRenderer.get_lr
       (TrainingStep.appearance_scheduler lr 0) t
     = Raise ZeroDivisionError).
Proof.
  intros Hl Hm Ht. cbv zeta.
  rewrite !appearance_lr_value by exact Hm.
  assert (Hm' : 0 < IZR position_lr_max_steps)
    by (apply (IZR_lt 0); exact Hm).
  assert (Hi : 0 < / IZR position_lr_max_steps)
    by (apply Rinv_0_lt_compat; exact Hm').
  assert (Hf : 0 < 1 / 100 <= 1) by lra.
  split; [|split].
  - f_equal. unfold Rdiv at 2. rewrite Rmult_0_l.
    rewrite Rmin_left by lra. rewrite Rpower_O by lra. lra.
  - do 2 eexists. split; [reflexivity|]. split; [reflexivity|].
    assert (H1 : 0 <= IZR t1 / IZR position_lr_max_steps).
    { unfold Rdiv. apply Rmult_le_pos; [|lra].
      apply (IZR_le 0). lia. }
    assert (H12 : IZR t1 / IZR position_lr_max_steps
                  <= IZR t2 / IZR position_lr_max_steps).
    { unfold Rdiv. apply Rmult_le_compat_r; [lra|]. apply IZR_le. lia. }
    set (q1 := IZR t1 / IZR position_lr_max_steps) in *.
    set (q2 := IZR t2 / IZR position_lr_max_steps) in *.
    assert (M12 : Rmin q1 1 <= Rmin q2 1)
      by (apply Rle_min_compat_r; exact H12).
    assert (M0 : 0 <= Rmin q1 1) by (apply Rmin_glb; lra).
    assert (M1 : Rmin q2 1 <= 1) by apply Rmin_r.
    pose proof (Rpower_antitone (1 / 100) _ _ Hf M12) as P12.
    pose proof (Rpower_antitone (1 / 100) _ _ Hf M0) as P0.
    pose proof (Rpower_antitone (1 / 100) _ _ Hf M1) as P1.
    rewrite Rpower_O in P0 by lra. rewrite Rpower_1 in P1 by lra.
    repeat split; try nra.
    intros Hge.
    assert (Hq : 1 <= q1).
    { subst q1. apply (Rmult_le_reg_r (IZR position_lr_max_steps));
        [exact Hm'|].
      unfold Rdiv. rewrite Rmult_assoc, Rinv_l by lra.
      rewrite Rmult_1_l, Rmult_1_r. apply IZR_le. exact Hge. }
    rewrite Rmin_right by exact Hq. rewrite Rpower_1 by lra. lra.
  - intros t. reflexivity.
Qed.

Lemma appearance_schedule_witness :
  let schedule := TrainingStep.appearance_scheduler (1 / 1000) 30000 in
  AppearanceEmbeddingRenderer.get_lr schedule 0 = OK (1 / 1000) /\
  (exists r1 r2,
     AppearanceEmbeddingRenderer.get_lr schedule 30000 = OK r1 /\
     AppearanceEmbeddingRenderer.get_lr schedule 40000 = OK r2 /\
     1 / 1000 / 100 <= r2 /\ r2 <= r1 /\ r1 <= 1 / 1000 /\
     ((30000 <= 30000)%Z -> r1 = 1 / 1000 / 100)) /\
  (forall t,
     AppearanceEmbeddingRenderer.get_lr
       (TrainingStep.appearance_scheduler (1 / 1000) 0) t
     = Raise ZeroDivisionError).
Proof.
  apply (appearance_schedule (1 / 1000) 30000 30000 40000); try lia; lra.
Defined.

(** ** Saving the Gaussians *)

Lemma string_app_cons (x : Ascii.ascii) (a b : string) :
  (String x a ++ b)%string = String x (a ++ b).
Proof. reflexivity. Qed.

Lemma string_app_assoc (a b c : string) :
  ((a ++ b) ++ c = a ++ (b ++ c))%string.
Proof.
  induction a as [|x a IH]; [reflexivity|].
  rewrite !string_app_cons, IH. reflexivity.
Qed.

Lemma string_length_app (a b : string) :
  String.length (a ++ b) = (String.length a + String.length b)%nat.
Proof.
  induction a as [|x a IH]; [reflexivity|].
  rewrite string_app_cons. simpl. rewrite IH. reflexivity.
Qed.

Lemma string_app_nonempty (a b : string) : b <> "" -> (a ++ b)%string <> "".
Proof.
  intros Hb E. apply (f_equal String.length) in E.
  rewrite string_length_app in E. destruct b; [congruence|]. simpl in E. clear Hb. lia.
Qed.

Lemma string_app_inv_tail (a b t : string) :
  (a ++ t = b ++ t)%string -> a = b.
Proof.
  revert b; induction a as [|x a IH]; intros [|y b] E.
  - reflexivity.
  - apply (f_equal String.length) in E.
    change (String.length t
            = S (String.length (b ++ t)%string)) in E.
    rewrite string_length_app in E. lia.
  - apply (f_equal String.length) in E.
    change (S (String.length (a ++ t)%string)
            = String.length t) in E.
    rewrite string_length_app in E. lia.
  - rewrite !string_app_cons in E.
    injection E as -> E. rewrite (IH b E). reflexivity.
Qed.

Lemma string_app_tmp_ne (a : string) : (a ++ ".tmp")%string <> a.
Proof.
  intros E. apply (f_equal String.length) in E.
  rewrite string_length_app in E. simpl in E. lia.
Qed.

Lemma ends_with_slash_cons (c : Ascii.ascii) (s : string) :
  s <> "" ->
  TrainingStep.ends_with_slash (String c s) = TrainingStep.ends_with_slash s.
Proof.
  destruct s as [|c' s]; [congruence|]. intros _.
  unfold TrainingStep.ends_with_slash.
  change (String.length (String c (String c' s)) - 1)%nat
    with (S (String.length s)).
  change (String.length (String c' s) - 1)%nat
    with (String.length s - 0)%nat.
  rewrite Nat.sub_0_r. reflexivity.
Qed.

Lemma ends_with_slash_app (a b : string) :
  b <> "" ->
  TrainingStep.ends_with_slash (a ++ b) = TrainingStep.ends_with_slash b.
Proof.
  intros Hb. induction a as [|c a IH]; [reflexivity|].
  rewrite string_app_cons, ends_with_slash_cons by (apply string_app_nonempty; exact Hb).
  exact IH.
Qed.

Lemma pretty_N_go_nonempty (x : N) (s : string) :
  s <> "" -> pretty_N_go x s <> "".
Proof.
  revert s. induction (N.lt_wf_0 x) as [x _ IH]; intros s Hs.
  assert (x = 0 \/ 0 < x)%N as [->|Hx] by lia.
  - rewrite pretty_N_go_0. exact Hs.
  - rewrite pretty_N_go_step by exact Hx.
    apply IH; [apply N.div_lt; lia | discriminate].
Qed.

Lemma ends_with_slash_pretty_N_go (x : N) (s : string) :
  s <> "" ->
  TrainingStep.ends_with_slash (pretty_N_go x s)
  = TrainingStep.ends_with_slash s.
Proof.
  revert s. induction (N.lt_wf_0 x) as [x _ IH]; intros s Hs.
  assert (x = 0 \/ 0 < x)%N as [->|Hx] by lia.
  - rewrite pretty_N_go_0. reflexivity.
  - rewrite pretty_N_go_step by exact Hx.
    rewrite IH; [apply ends_with_slash_cons; exact Hs
                | apply N.div_lt; lia | discriminate].
Qed.

Lemma pretty_positive_no_slash (p : positive) :
  pretty (Npos p) <> "" /\
  TrainingStep.ends_with_slash (pretty (Npos p)) = false.
Proof.
  unfold pretty, pretty_N.
  destruct (decide (N.pos p = 0%N)) as [E|_]; [discriminate E|].
  rewrite pretty_N_go_step by lia. split.
  - apply pretty_N_go_nonempty. discriminate.
  - rewrite ends_with_slash_pretty_N_go by discriminate.
    generalize (N.pos p `mod` 10)%N. intros n.
    unfold pretty_N_char. repeat case_match; reflexivity.
Qed.

Lemma pretty_Z_no_slash (z : Z) :
  pretty z <> "" /\ TrainingStep.ends_with_slash (pretty z) = false.
Proof.
  unfold pretty at 1 2, pretty_Z. destruct z as [|p|p].
  - split; [discriminate | reflexivity].
  - apply (pretty_positive_no_slash p).
  - destruct (pretty_positive_no_slash p) as [H1 H2].
    change (pretty p) with (pretty (N.pos p)).
    split; [apply string_app_nonempty; exact H1|].
    rewrite (ends_with_slash_app "-" _ H1). exact H2.
Qed.

Lemma output_file_closed_form (output_path : string) (step : Z) :
  TrainingStep.output_file output_path step
  = (iteration_prefix output_path ++ pretty step ++ "/point_cloud.ply")%string.
Proof.
  destruct (pretty_Z_no_slash step) as [Hne Hsl].
  unfold TrainingStep.output_file, TrainingStep.output_dir, iteration_prefix.
  set (pc := TrainingStep.os_path_join output_path "point_cloud").
  assert (D : TrainingStep.os_path_join pc ("iteration_" ++ pretty step)
              = ((if (String.eqb pc "" || TrainingStep.ends_with_slash pc)%bool
                  then (pc ++ "iteration_")%string
                  else (pc ++ "/iteration_")%string) ++ pretty step)%string).
  { unfold TrainingStep.os_path_join at 1.
    change (String.prefix "/" ("iteration_" ++ pretty step)) with false.
    cbv iota.
    destruct (String.eqb pc "" || TrainingStep.ends_with_slash pc)%bool;
      rewrite ?string_app_assoc; reflexivity. }
  rewrite D. unfold TrainingStep.os_path_join at 1.
  change (String.prefix "/" "point_cloud.ply") with false. cbv iota.
  rewrite ends_with_slash_app by exact Hne. rewrite Hsl, orb_false_r.
  assert (E : String.eqb
                ((if (String.eqb pc "" || TrainingStep.ends_with_slash pc)%bool
                  then (pc ++ "iteration_")%string
                  else (pc ++ "/iteration_")%string) ++ pretty step) ""
              = false).
  { apply String.eqb_neq. apply string_app_nonempty. exact Hne. }
  rewrite E. rewrite string_app_assoc. reflexivity.
Qed.

Lemma last_char_cons (c : Ascii.ascii) (s : string) :
  s <> "" -> last_char (String c s) = last_char s.
Proof.
  destruct s as [|c' s]; [congruence|]. intros _. unfold last_char.
  change (String.length (String c (String c' s)) - 1)%nat
    with (S (String.length s)).
  change (String.length (String c' s) - 1)%nat
    with (String.length s - 0)%nat.
  rewrite Nat.sub_0_r. reflexivity.
Qed.

Lemma last_char_app (a b : string) :
  b <> "" -> last_char (a ++ b) = last_char b.
Proof.
  intros Hb. induction a as [|c a IH]; [reflexivity|].
  rewrite string_app_cons, last_char_cons
    by (apply string_app_nonempty; exact Hb).
  exact IH.
Qed.

Lemma output_file_inj (output_path : string) (step1 step2 : Z) :
  TrainingStep.output_file output_path step1
  = TrainingStep.output_file output_path step2 ->
  step1 = step2.
Proof.
  rewrite !output_file_closed_form. intros E.
  apply String.app_inj in E. apply string_app_inv_tail in E.
  apply pretty_Z_inj in E. exact E.
Qed.

Lemma output_file_ne_tmp (output_path : string) (step1 step2 : Z) :
  TrainingStep.output_file output_path step1
  <> (TrainingStep.output_file output_path step2 ++ ".tmp")%string.
Proof.
  rewrite !output_file_closed_form. intros E.
  apply (f_equal last_char) in E.
  rewrite <- !string_app_assoc in E.
  rewrite (last_char_app _ ".tmp") in E by discriminate.
  rewrite (last_char_app _ "/point_cloud.ply") in E by discriminate.
  discriminate E.
Qed.

Lemma save_on_rank_0 {content : Type} (output_path : string) (step : Z)
    (ply : content) (files : gmap string content) :
  let path := TrainingStep.output_file output_path step in
  TrainingStep.save_gaussian_to_ply 0 output_path step ply files
  = <[path := ply]> (delete (path ++ ".tmp")%string files).
Proof.
  cbv zeta. unfold TrainingStep.save_gaussian_to_ply. simpl.
  rewrite lookup_insert_eq. rewrite delete_insert_eq. reflexivity.
Qed.

(** X20. [save_gaussian_to_ply] writes nothing on a rank other than 0.
    On rank 0 it leaves the Gaussians in
    [<output_path>/point_cloud/iteration_<step>/point_cloud.ply], leaves
    no [.tmp] file beside it, and changes no other path. *)
Theorem save_writes_one_file {content : Type} (global_rank : Z)
    (output_path : string) (trainer_global_step : Z) (ply : content)
    (files : gmap string content) :
  let path := TrainingStep.output_file output_path trainer_global_step in
  let saved :=
    TrainingStep.save_gaussian_to_ply global_rank output_path
      trainer_global_step ply files in
  path = (iteration_prefix output_path ++ pretty trainer_global_step
          ++ "/point_cloud.ply")%string /\
  (global_rank <> 0%Z -> saved = files) /\
  (global_rank = 0%Z ->
   saved !! path = Some ply /\
   saved !! (path ++ ".tmp")%string = None /\
   forall other,
     other <> path -> other <> (path ++ ".tmp")%string ->
     saved !! other = files !! other).
Proof.
  cbv zeta. split; [apply output_file_closed_form|]. split.
  - intros Hr. unfold TrainingStep.save_gaussian_to_ply.
    destruct (Z.eqb_spec global_rank 0%Z); [contradiction | reflexivity].
  - intros ->. rewrite save_on_rank_0. cbv zeta.
    split; [apply lookup_insert_eq|]. split.
    + rewrite lookup_insert_ne by (symmetry; apply string_app_tmp_ne).
      apply lookup_delete_eq.
    + intros other H1 H2.
      rewrite lookup_insert_ne by (symmetry; exact H1).
      apply lookup_delete_ne. symmetry. exact H2.
Qed.

(** X21. Saves of different steps never touch each other's file: the
    files of two different steps differ, and the save of one step leaves
    the file of the other as it was. *)
Theorem saves_of_different_steps {content : Type}
    (output_path : string) (step1 step2 : Z) (global_rank : Z)
    (ply : content) (files : gmap string content) :
  step1 <> step2 ->
  TrainingStep.output_file output_path step1
    <> TrainingStep.output_file output_path step2 /\
  TrainingStep.save_gaussian_to_ply global_rank output_path step2 ply files
    !! TrainingStep.output_file output_path step1
  = files !! TrainingStep.output_file output_path step1.
Proof.
  intros Hs.
  assert (Hne : TrainingStep.output_file output_path step1
                <> TrainingStep.output_file output_path step2)
    by (intros E; apply Hs; exact (output_file_inj _ _ _ E)).
  split; [exact Hne|].
  destruct (Z.eq_dec global_rank 0%Z) as [->|Hr].
  - rewrite save_on_rank_0. cbv zeta.
    rewrite lookup_insert_ne by (symmetry; exact Hne).
    apply lookup_delete_ne. symmetry. apply output_file_ne_tmp.
  - unfold TrainingStep.save_gaussian_to_ply.
    destruct (Z.eqb_spec global_rank 0%Z); [contradiction | reflexivity].
Qed.

Lemma saves_of_different_steps_witness :
  TrainingStep.output_file "out" 6999
    <> TrainingStep.output_file "out" 29999 /\
  TrainingStep.save_gaussian_to_ply 0 "out" 29999 2%Z
    (TrainingStep.save_gaussian_to_ply 0 "out" 6999 1%Z ∅)
    !! TrainingStep.output_file "out" 6999
  = TrainingStep.save_gaussian_to_ply 0 "out" 6999 1%Z ∅
    !! TrainingStep.output_file "out" 6999.
Proof.
  apply (saves_of_different_steps "out" 6999 29999 0 2%Z
           (TrainingStep.save_gaussian_to_ply 0 "out" 6999 1%Z ∅)).
  discriminate.
Defined.

(** ** The images of the sparse model *)

Lemma focal_lengths_and_center_cases (intrinsics : ColmapImages.Camera) r :
  ColmapImages.focal_lengths_and_center intrinsics = ColmapImages.Parsed r ->
  supported_model (ColmapImages.model intrinsics) /\
  nth_error (ColmapImages.params intrinsics) 0 = Some r.1.1.1 /\
  (ColmapImages.model intrinsics = "SIMPLE_PINHOLE" -> r.1.1.2 = r.1.1.1).
Proof.
  unfold ColmapImages.focal_lengths_and_center, ColmapImages.param,
    supported_model.
  destruct (String.eqb_spec (ColmapImages.model intrinsics) "SIMPLE_PINHOLE")
    as [E|NE].
  - destruct (nth_error (ColmapImages.params intrinsics) 0) as [f|];
      [|intros H; discriminate H].
    destruct (nth_error (ColmapImages.params intrinsics) 1) as [x|];
      [|intros H; discriminate H].
    destruct (nth_error (ColmapImages.params intrinsics) 2) as [y|];
      [|intros H; discriminate H].
    intros [= <-]. simpl. auto.
  - destruct (String.eqb_spec (ColmapImages.model intrinsics) "PINHOLE")
      as [E|NE']; [|intros H; discriminate H].
    destruct (nth_error (ColmapImages.params intrinsics) 0) as [f|];
      [|intros H; discriminate H].
    destruct (nth_error (ColmapImages.params intrinsics) 1) as [g|];
      [|intros H; discriminate H].
    destruct (nth_error (ColmapImages.params intrinsics) 2) as [x|];
      [|intros H; discriminate H].
    destruct (nth_error (ColmapImages.params intrinsics) 3) as [y|];
      [|intros H; discriminate H].
    intros [= <-]. simpl. split; [auto|]. split; [reflexivity|].
    intros E'. contradiction.
Qed.

Lemma focal_lengths_and_center_unsupported (intrinsics : ColmapImages.Camera) :
  ~ supported_model (ColmapImages.model intrinsics) ->
  ColmapImages.focal_lengths_and_center intrinsics
  = ColmapImages.Raised ColmapImages.AssertionError.
Proof.
  unfold ColmapImages.focal_lengths_and_center, supported_model. intros H.
  destruct (String.eqb_spec (ColmapImages.model intrinsics) "SIMPLE_PINHOLE");
    [tauto|].
  destruct (String.eqb_spec (ColmapImages.model intrinsics) "PINHOLE");
    [tauto|].
  reflexivity.
Qed.

Lemma two_colmap_images_parse :
  exists entries,
    ColmapImages.parse_images two_colmap_cameras "images" None no_masks
      two_colmap_images = ColmapImages.Parsed entries.
Proof.
  unfold two_colmap_images, two_colmap_cameras. simpl.
  unfold ColmapImages.parse_image. simpl.
  rewrite lookup_insert_eq. simpl. eexists. reflexivity.
Qed.

Lemma supported_model_dec (model : string) :
  {supported_model model} + {~ supported_model model}.
Proof.
  unfold supported_model.
  destruct (String.eqb_spec model "SIMPLE_PINHOLE");
    destruct (String.eqb_spec model "PINHOLE"); auto.
  right. tauto.
Qed.

Lemma nth_error_in_range {A} (xs : list A) (i : nat) :
  (i < length xs)%nat -> exists x, nth_error xs i = Some x.
Proof.
  intros H. destruct (nth_error xs i) as [x|] eqn:E; [eauto|].
  apply nth_error_None in E. lia.
Qed.

Lemma focal_lengths_and_center_parses (intrinsics : ColmapImages.Camera) :
  supported_model (ColmapImages.model intrinsics) ->
  enough_params intrinsics ->
  exists r,
    ColmapImages.focal_lengths_and_center intrinsics = ColmapImages.Parsed r.
Proof.
  unfold ColmapImages.focal_lengths_and_center, ColmapImages.param,
    supported_model, enough_params.
  intros Hs [H3 H4].
  destruct (String.eqb_spec (ColmapImages.model intrinsics) "SIMPLE_PINHOLE")
    as [E|NE].
  - specialize (H3 E).
    destruct (nth_error_in_range (ColmapImages.params intrinsics) 0)
      as (a & ->); [lia|].
    destruct (nth_error_in_range (ColmapImages.params intrinsics) 1)
      as (b & ->); [lia|].
    destruct (nth_error_in_range (ColmapImages.params intrinsics) 2)
      as (c & ->); [lia|].
    eauto.
  - destruct (String.eqb_spec (ColmapImages.model intrinsics) "PINHOLE")
      as [E|NE']; [|tauto].
    specialize (H4 E).
    destruct (nth_error_in_range (ColmapImages.params intrinsics) 0)
      as (a & ->); [lia|].
    destruct (nth_error_in_range (ColmapImages.params intrinsics) 1)
      as (b & ->); [lia|].
    destruct (nth_error_in_range (ColmapImages.params intrinsics) 2)
      as (c & ->); [lia|].
    destruct (nth_error_in_range (ColmapImages.params intrinsics) 3)
      as (d & ->); [lia|].
    eauto.
Qed.

Lemma parse_images_supported
    (cameras : gmap Z ColmapImages.Camera) (image_dir : string)
    (mask_dir : option string) (path_exists : string -> bool)
    (images : list ColmapImages.Image) (entries : list ColmapImages.entry) :
  ColmapImages.parse_images cameras image_dir mask_dir path_exists images
    = ColmapImages.Parsed entries ->
  List.Forall
    (fun extrinsics =>
       exists intrinsics,
         cameras !! ColmapImages.camera_id extrinsics = Some intrinsics /\
         supported_model (ColmapImages.model intrinsics))
    images.
Proof.
  revert entries. induction images as [|extrinsics images IH];
    intros entries H; simpl in H; [constructor|].
  destruct (ColmapImages.parse_image cameras image_dir mask_dir
              path_exists extrinsics) as [x|e] eqn:Ex;
    [|discriminate H].
  destruct (ColmapImages.parse_images cameras image_dir mask_dir
              path_exists images) as [xs|e] eqn:Exs;
    [|discriminate H].
  constructor; [|apply (IH xs); reflexivity].
  unfold ColmapImages.parse_image in Ex.
  destruct (cameras !! ColmapImages.camera_id extrinsics)
    as [intrinsics|] eqn:Ec; [|discriminate Ex].
  destruct (ColmapImages.focal_lengths_and_center intrinsics)
    as [r|e] eqn:Ef; [|discriminate Ex].
  exists intrinsics. split; [reflexivity|].
  exact (proj1 (focal_lengths_and_center_cases intrinsics r Ef)).
Qed.

(** X22. When the loop over the images succeeds, it has produced one entry
    per image, in the order of the images; every image's camera is known
    and has the model PINHOLE or SIMPLE_PINHOLE; the entry carries the
    image's name, the camera's first parameter as [fx], the camera
    identifier as appearance embedding and camera type 0; and for a
    SIMPLE_PINHOLE camera [fy] is [fx]. *)
Theorem parsed_images_are_pinhole
    (cameras : gmap Z ColmapImages.Camera) (image_dir : string)
    (mask_dir : option string) (path_exists : string -> bool)
    (images : list ColmapImages.Image) (entries : list ColmapImages.entry) :
  ColmapImages.parse_images cameras image_dir mask_dir path_exists images
    = ColmapImages.Parsed entries ->
  Forall2
    (fun extrinsics x =>
       exists intrinsics,
         cameras !! ColmapImages.camera_id extrinsics = Some intrinsics /\
         supported_model (ColmapImages.model intrinsics) /\
         ColmapImages.image_name x = ColmapImages.name extrinsics /\
         nth_error (ColmapImages.params intrinsics) 0
           = Some (ColmapImages.focal_length_x x) /\
         ColmapImages.appearance_embedding x
           = ColmapImages.camera_id extrinsics /\
         ColmapImages.camera_type x = 0%Z /\
         (ColmapImages.model intrinsics = "SIMPLE_PINHOLE" ->
          ColmapImages.focal_length_y x = ColmapImages.focal_length_x x))
    images entries.
Proof.
  revert entries. induction images as [|extrinsics images IH];
    intros entries H; simpl in H.
  - injection H as <-. constructor.
  - destruct (ColmapImages.parse_image cameras image_dir mask_dir
                path_exists extrinsics) as [x|e] eqn:Ex;
      [|discriminate H].
    destruct (ColmapImages.parse_images cameras image_dir mask_dir
                path_exists images) as [xs|e] eqn:Exs;
      [|discriminate H].
    injection H as <-. constructor; [|apply IH; reflexivity].
    unfold ColmapImages.parse_image in Ex.
    destruct (cameras !! ColmapImages.camera_id extrinsics)
      as [intrinsics|] eqn:Ec; [|discriminate Ex].
    destruct (ColmapImages.focal_lengths_and_center intrinsics)
      as [[[[fx fy] cx] cy]|e] eqn:Ef; [|discriminate Ex].
    injection Ex as <-. simpl.
    destruct (focal_lengths_and_center_cases intrinsics _ Ef)
      as (Hs & Hp & Hy).
    exists intrinsics. simpl in Hp, Hy. auto 10.
Qed.

Lemma parsed_images_are_pinhole_witness :
  exists entries,
    ColmapImages.parse_images two_colmap_cameras "images" None no_masks
      two_colmap_images = ColmapImages.Parsed entries /\
    Forall2
      (fun extrinsics x =>
         exists intrinsics,
           two_colmap_cameras !! ColmapImages.camera_id extrinsics
             = Some intrinsics /\
           supported_model (ColmapImages.model intrinsics) /\
           ColmapImages.image_name x = ColmapImages.name extrinsics /\
           nth_error (ColmapImages.params intrinsics) 0
             = Some (ColmapImages.focal_length_x x) /\
           ColmapImages.appearance_embedding x
             = ColmapImages.camera_id extrinsics /\
           ColmapImages.camera_type x = 0%Z /\
           (ColmapImages.model intrinsics = "SIMPLE_PINHOLE" ->
            ColmapImages.focal_length_y x = ColmapImages.focal_length_x x))
      two_colmap_images entries.
Proof.
  destruct two_colmap_images_parse as (entries & H).
  exists entries. split; [exact H|].
  exact (parsed_images_are_pinhole two_colmap_cameras "images" None
           no_masks two_colmap_images entries H).
Defined.

(** X23. One image whose camera is known but has a model other than
    PINHOLE and SIMPLE_PINHOLE makes the whole loop fail, wherever the
    image stands: nothing is produced for the images that could be
    parsed.  When every image's camera is known and has the parameters
    of its model, the failure is the assertion on the camera model. *)
Theorem unsupported_camera_fails_the_parse
    (cameras : gmap Z ColmapImages.Camera) (image_dir : string)
    (mask_dir : option string) (path_exists : string -> bool)
    (images : list ColmapImages.Image) (extrinsics : ColmapImages.Image)
    (intrinsics : ColmapImages.Camera) :
  In extrinsics images ->
  cameras !! ColmapImages.camera_id extrinsics = Some intrinsics ->
  ~ supported_model (ColmapImages.model intrinsics) ->
  exists e,
    ColmapImages.parse_images cameras image_dir mask_dir path_exists images
      = ColmapImages.Raised e /\
    (List.Forall
       (fun i => exists c,
          cameras !! ColmapImages.camera_id i = Some c /\ enough_params c)
       images ->
     e = ColmapImages.AssertionError).
Proof.
  intros Hin Hc Hu.
  destruct (ColmapImages.parse_images cameras image_dir mask_dir
              path_exists images) as [entries|e] eqn:E.
  - exfalso.
    pose proof (parse_images_supported cameras image_dir mask_dir
                  path_exists images entries E) as F.
    rewrite List.Forall_forall in F.
    destruct (F extrinsics Hin) as (c & Hc' & Hs).
    rewrite Hc in Hc'. injection Hc' as <-. contradiction.
  - exists e. split; [reflexivity|].
    intros Hall. clear Hin Hc Hu extrinsics intrinsics.
    revert e E. induction images as [|i images IH]; intros e E;
      simpl in E; [discriminate E|].
    inversion Hall as [|? ? (c & Hc & Hp) Hrest]; subst.
    unfold ColmapImages.parse_image in E. rewrite Hc in E.
    destruct (ColmapImages.focal_lengths_and_center c)
      as [[[[fx fy] cx] cy]|e'] eqn:Ef.
    + destruct (ColmapImages.parse_images cameras image_dir mask_dir
                  path_exists images) as [xs|e''] eqn:Exs;
        [discriminate E|].
      injection E as <-. apply IH; [exact Hrest | reflexivity].
    + injection E as <-.
      destruct (supported_model_dec (ColmapImages.model c)) as [Hs|Hn].
      * exfalso.
        destruct (focal_lengths_and_center_parses c Hs Hp) as (r & Er).
        rewrite Er in Ef. discriminate Ef.
      * rewrite focal_lengths_and_center_unsupported in Ef by exact Hn.
        injection Ef as <-. reflexivity.
Qed.

Lemma unsupported_camera_fails_the_parse_witness :
  exists e,
    ColmapImages.parse_images two_colmap_cameras "images" None no_masks
      (two_colmap_images ++ [fisheye_image])
      = ColmapImages.Raised e /\
    (List.Forall
       (fun i => exists c,
          two_colmap_cameras !! ColmapImages.camera_id i = Some c /\
          enough_params c)
       (two_colmap_images ++ [fisheye_image]) ->
     e = ColmapImages.AssertionError).
Proof.
  apply (unsupported_camera_fails_the_parse two_colmap_cameras "images"
           None no_masks (two_colmap_images ++ [fisheye_image])
           fisheye_image
           {| ColmapImages.model := "OPENCV_FISHEYE";
              ColmapImages.width := 640; ColmapImages.height := 480;
              ColmapImages.params := [500; 500; 320; 240] |}).
  - simpl. right. right. left. reflexivity.
  - unfold two_colmap_cameras, fisheye_image. simpl.
    rewrite lookup_insert_ne by discriminate. apply lookup_insert_eq.
  - unfold supported_model. simpl. intros [H|H]; discriminate H.
Defined.

(** ** The appearance embeddings of the images *)

Lemma fold_left_Rmax_ge_init (xs : list R) (x : R) :
  x <= fold_left Rmax xs x.
Proof.
  revert x; induction xs as [|y xs IH]; intros x; simpl; [lra|].
  apply Rle_trans with (Rmax x y); [apply Rmax_l | apply IH].
Qed.

Lemma fold_left_Rmax_ge (xs : list R) (x y : R) :
  In y xs -> y <= fold_left Rmax xs x.
Proof.
  revert x; induction xs as [|z xs IH]; intros x Hin; simpl in *;
    [contradiction|].
  destruct Hin as [->|Hin]; [|apply IH; exact Hin].
  apply Rle_trans with (Rmax x y);
    [apply Rmax_r | apply fold_left_Rmax_ge_init].
Qed.

Lemma fold_left_Rmax_in (xs : list R) (x : R) :
  In (fold_left Rmax xs x) (x :: xs).
Proof.
  revert x; induction xs as [|y xs IH]; intros x; simpl; [auto|].
  destruct (IH (Rmax x y)) as [E|Hin]; [|auto].
  rewrite <- E. unfold Rmax. destruct (Rle_dec x y); auto.
Qed.

(** X24. The appearance embeddings of the images are the camera
    identifiers divided by the largest of them: for positive identifiers
    (as COLMAP numbers its cameras) every embedding lies in (0, 1], the
    images of the camera with the largest identifier get exactly 1, and
    with a single camera every image gets 1. *)
Theorem appearance_embedding_is_relative_to_largest_id
    (appearance_embedding_list : list Z) :
  appearance_embedding_list <> [] ->
  List.Forall (fun id => (0 < id)%Z) appearance_embedding_list ->
  exists appearance_embedding largest,
    ColmapImages.normalize_appearance_embedding appearance_embedding_list
      = Some appearance_embedding /\
    In largest appearance_embedding_list /\
    List.Forall (fun id => (id <= largest)%Z) appearance_embedding_list /\
    appearance_embedding
      = map (fun id => IZR id / IZR largest) appearance_embedding_list /\
    List.Forall (fun e => 0 < e <= 1) appearance_embedding /\
    In 1 appearance_embedding /\
    (List.Forall (fun id => id = largest) appearance_embedding_list ->
     List.Forall (fun e => e = 1) appearance_embedding).
Proof.
  intros Hne Hpos.
  destruct appearance_embedding_list as [|id0 ids]; [contradiction|].
  unfold ColmapImages.normalize_appearance_embedding,
    ColmapImages.torch_max. simpl map at 1. cbv beta iota. simpl mbind.
  set (m := fold_left Rmax (map IZR ids) (IZR id0)).
  assert (Hin : In m (map IZR (id0 :: ids)))
    by apply (fold_left_Rmax_in (map IZR ids) (IZR id0)).
  apply in_map_iff in Hin. destruct Hin as (largest & Hm & Hl).
  assert (Hmax : List.Forall (fun id => (id <= largest)%Z) (id0 :: ids)).
  { apply List.Forall_forall. intros id Hid. apply le_IZR. rewrite Hm.
    destruct Hid as [->|Hid].
    - apply fold_left_Rmax_ge_init.
    - apply fold_left_Rmax_ge. apply in_map. exact Hid. }
  assert (Hlp : 0 < IZR largest).
  { apply (IZR_lt 0). rewrite List.Forall_forall in Hpos.
    apply Hpos. exact Hl. }
  exists (map (fun a => a / m) (map IZR (id0 :: ids))), largest.
  split; [reflexivity|]. split; [exact Hl|]. split; [exact Hmax|].
  assert (Eq : map (fun a => a / m) (map IZR (id0 :: ids))
               = map (fun id => IZR id / IZR largest) (id0 :: ids)).
  { rewrite map_map, <- Hm. reflexivity. }
  rewrite Eq. split; [reflexivity|]. split; [|split].
  - apply List.Forall_forall. intros e He. apply in_map_iff in He.
    destruct He as (id & <- & Hid).
    rewrite List.Forall_forall in Hpos, Hmax.
    pose proof (IZR_lt 0 id (Hpos id Hid)) as H0.
    pose proof (IZR_le id largest (Hmax id Hid)) as H1.
    assert (Hi : 0 < / IZR largest) by (apply Rinv_0_lt_compat; exact Hlp).
    unfold Rdiv. split; [apply Rmult_lt_0_compat; assumption|].
    apply (Rmult_le_reg_r (IZR largest)); [exact Hlp|].
    rewrite Rmult_assoc, Rinv_l by lra. lra.
  - apply in_map_iff. exists largest. split; [|exact Hl].
    unfold Rdiv. apply Rinv_r. lra.
  - intros Hall. apply List.Forall_forall. intros e He.
    apply in_map_iff in He. destruct He as (id & <- & Hid).
    rewrite List.Forall_forall in Hall. rewrite (Hall id Hid).
    unfold Rdiv. apply Rinv_r. lra.
Qed.

Lemma appearance_embedding_is_relative_to_largest_id_witness :
  exists appearance_embedding largest,
    ColmapImages.normalize_appearance_embedding [1; 3; 2; 3]%Z
      = Some appearance_embedding /\
    In largest [1; 3; 2; 3]%Z /\
    List.Forall (fun id => (id <= largest)%Z) [1; 3; 2; 3]%Z /\
    appearance_embedding
      = map (fun id => IZR id / IZR largest) [1; 3; 2; 3]%Z /\
    List.Forall (fun e => 0 < e <= 1) appearance_embedding /\
    In 1 appearance_embedding /\
    (List.Forall (fun id => id = largest) [1; 3; 2; 3]%Z ->
     List.Forall (fun e => e = 1) appearance_embedding).
Proof.
  apply (appearance_embedding_is_relative_to_largest_id [1; 3; 2; 3]%Z).
  - discriminate.
  - repeat (apply List.Forall_cons; [lia|]). apply List.Forall_nil.
Defined.

(** ** The width of the appearance network's input *)

Lemma has_columns_zip_with_app (a b : Z) (A B : list (list R)) :
  has_columns a A -> has_columns b B ->
  has_columns (a + b) (zip_with (@app R) A B).
Proof.
  unfold has_columns. intros HA. revert B.
  induction HA as [|x A Hx HA IH]; intros B HB; simpl.
  - constructor.
  - destruct HB as [|y B Hy HB]; constructor.
    + rewrite length_app, Nat2Z.inj_add, Hx, Hy. reflexivity.
    + apply IH. exact HB.
Qed.

Lemma has_columns_normalize (n : Z) (rows : list (list R)) :
  has_columns n rows ->
  has_columns n (map AppearanceEmbeddingRenderer.normalize_row rows).
Proof.
  unfold has_columns. intros H. apply List.Forall_forall.
  intros row Hin. apply in_map_iff in Hin. destruct Hin as (r & <- & Hr).
  rewrite List.Forall_forall in H.
  unfold AppearanceEmbeddingRenderer.normalize_row.
  rewrite length_map. exact (H r Hr).
Qed.

Lemma has_columns_repeat (n : Z) (row : list R) (k : nat) :
  Z.of_nat (length row) = n -> has_columns n (repeat row k).
Proof.
  intros H. unfold has_columns. apply List.Forall_forall.
  intros r Hr. apply repeat_spec in Hr. subst r. exact H.
Qed.

Lemma concat_last_pair (A B : list (list R)) :
  length A = length B ->
  AppearanceModel.concat_last [A; B] = OK (zip_with (@app R) A B).
Proof.
  intros E. simpl. rewrite E, Nat.eqb_refl. reflexivity.
Qed.

Lemma concat_last_triple (A B C : list (list R)) :
  length A = length B -> length B = length C ->
  AppearanceModel.concat_last [A; B; C]
  = OK (zip_with (@app R) A (zip_with (@app R) B C)).
Proof.
  intros E1 E2. simpl. rewrite E2, Nat.eqb_refl. simpl.
  rewrite zip_with_length by exact E2.
  rewrite E1, Nat.eqb_refl. reflexivity.
Qed.

(** X25. The input [Model.forward] hands to the network has the width
    [Model._setup] built the network for: when the features have
    [n_gaussian_feature_dims] columns, the embedding table
    [n_appearance_embedding_dims] columns and, for a view-dependent model,
    the encoding gives one row of [n_channels] columns per Gaussian, the
    network gets one row of [n_input_dims] columns per Gaussian, with or
    without normalization. *)
Theorem network_input_has_n_input_dims
    (view_direction_encoding network : list (list R) -> list (list R))
    (config : AppearanceEmbeddingRenderer.ModelConfig)
    (weight gaussian_features : list (list R)) (appearance : Z)
    (view_dirs : list (list R)) (n_channels : Z) :
  has_columns (AppearanceEmbeddingRenderer.n_gaussian_feature_dims config)
    gaussian_features ->
  has_columns (AppearanceEmbeddingRenderer.n_appearance_embedding_dims config)
    weight ->
  (0 <= appearance < Z.of_nat (length weight))%Z ->
  (AppearanceEmbeddingRenderer.is_view_dependent config = true ->
   length (view_direction_encoding view_dirs) = length gaussian_features /\
   has_columns n_channels (view_direction_encoding view_dirs)) ->
  exists network_input,
    AppearanceModel.forward view_direction_encoding network config weight
      gaussian_features appearance view_dirs = OK (network network_input) /\
    length network_input = length gaussian_features /\
    has_columns (AppearanceModel.n_input_dims config n_channels)
      network_input.
Proof.
  intros Hf Hw Hin Hv. unfold AppearanceModel.forward.
  destruct (embedding_cases weight appearance)
    as [(_ & row & Hrow & ->)|(Hout & _)]; [|contradiction].
  cbn [mbind result_bind]. rewrite repeat_rows_single.
  assert (Hr : Z.of_nat (length row)
               = AppearanceEmbeddingRenderer.n_appearance_embedding_dims
                   config).
  { unfold has_columns in Hw. rewrite List.Forall_forall in Hw.
    apply Hw. eapply nth_error_In. exact Hrow. }
  pose proof (has_columns_repeat _ row (length gaussian_features) Hr) as He.
  set (F := if AppearanceEmbeddingRenderer.normalize config
            then map AppearanceEmbeddingRenderer.normalize_row
                   gaussian_features
            else gaussian_features).
  set (E := if AppearanceEmbeddingRenderer.normalize config
            then map AppearanceEmbeddingRenderer.normalize_row
                   (repeat row (length gaussian_features))
            else repeat row (length gaussian_features)).
  assert (HF : length F = length gaussian_features
               /\ has_columns
                    (AppearanceEmbeddingRenderer.n_gaussian_feature_dims
                       config) F).
  { subst F. destruct (AppearanceEmbeddingRenderer.normalize config).
    - rewrite length_map. split; [reflexivity|].
      apply has_columns_normalize. exact Hf.
    - split; [reflexivity | exact Hf]. }
  assert (HE : length E = length gaussian_features
               /\ has_columns
                    (AppearanceEmbeddingRenderer.n_appearance_embedding_dims
                       config) E).
  { subst E. destruct (AppearanceEmbeddingRenderer.normalize config).
    - rewrite length_map, repeat_length. split; [reflexivity|].
      apply has_columns_normalize. exact He.
    - rewrite repeat_length. split; [reflexivity | exact He]. }
  destruct HF as [LF CF]. destruct HE as [LE CE].
  assert (Eq : (if AppearanceEmbeddingRenderer.normalize config
                then (map AppearanceEmbeddingRenderer.normalize_row
                        gaussian_features,
                      map AppearanceEmbeddingRenderer.normalize_row
                        (repeat row (length gaussian_features)))
                else (gaussian_features,
                      repeat row (length gaussian_features)))
               = (F, E)).
  { subst F E. destruct (AppearanceEmbeddingRenderer.normalize config);
      reflexivity. }
  rewrite Eq. clearbody F E. unfold AppearanceModel.n_input_dims.
  destruct (AppearanceEmbeddingRenderer.is_view_dependent config) eqn:Ev.
  - destruct (Hv eq_refl) as [LV CV]. cbv beta iota zeta. cbn [app].
    rewrite concat_last_triple by congruence. cbn [mbind result_bind].
    eexists. split; [reflexivity|]. split.
    + rewrite zip_with_length;
        [congruence | rewrite zip_with_length; congruence].
    + rewrite <- Z.add_assoc.
      apply has_columns_zip_with_app; [exact CF|].
      apply has_columns_zip_with_app; assumption.
  - cbv beta iota zeta. cbn [app].
    rewrite concat_last_pair by congruence. cbn [mbind result_bind].
    eexists. split; [reflexivity|]. split.
    + rewrite zip_with_length; congruence.
    + apply has_columns_zip_with_app; assumption.
Qed.

Lemma network_input_has_n_input_dims_witness :
  exists network_input,
    AppearanceModel.forward (fun dirs => dirs) (fun x => x)
      two_by_one_config [[1]; [2]] [[3; 4]; [0; 1]] 1 [] =
      OK ((fun x => x) network_input) /\
    length network_input = length [[3; 4]; [0; 1]] /\
    has_columns (AppearanceModel.n_input_dims two_by_one_config 0)
      network_input.
Proof.
  apply (network_input_has_n_input_dims (fun dirs => dirs) (fun x => x)
           two_by_one_config [[1]; [2]] [[3; 4]; [0; 1]] 1 [] 0%Z).
  - repeat (apply List.Forall_cons; [reflexivity|]). apply List.Forall_nil.
  - repeat (apply List.Forall_cons; [reflexivity|]). apply List.Forall_nil.
  - simpl. lia.
  - simpl. discriminate.
Defined.
